(** * EDU-CPU: assembler and simulator, embedded and verified

    A shallow embedding of [assembler.py] and [simulator.py].  Python
    integers are [Z], dictionaries are [gmap]s or association tables,
    sets are [gset]s, lists and bytearrays are [list Z].  Code that mutates
    an object and may raise is written in a state-and-exception monad. *)

From Stdlib Require Import ZArith Lia Bool Ascii String.
From stdpp Require Import gmap strings list sorting.

Open Scope Z_scope.

(** ** Python runtime conventions *)

Module Py.

(** The exceptions the two programs can raise.  [RuntimeError] carries the
    payload of its message. *)
Inductive exn (F : Type) : Type :=
  | RuntimeError (f : F)
  | ValueError (f : F)
  | TypeError
  | IndexError
  | KeyError.
Arguments RuntimeError {F} f.
Arguments ValueError {F} f.
Arguments TypeError {F}.
Arguments IndexError {F}.
Arguments KeyError {F}.

(** Outcome of a method call on a mutable object of type [S]: the value
    returned, or the exception raised, with the object as it then is. *)
Inductive res (F S A : Type) : Type :=
  | Ok (v : A) (s : S)
  | Raise (e : exn F) (s : S).
Arguments Ok {F S A} v s.
Arguments Raise {F S A} e s.

Definition M (F S A : Type) : Type := S -> res F S A.

Definition ret {F S A} (v : A) : M F S A := fun s => Ok v s.

Definition bind {F S A B} (m : M F S A) (k : A -> M F S B) : M F S B :=
  fun s => match m s with
           | Ok v s' => k v s'
           | Raise e s' => Raise e s'
           end.

Definition raise {F S A} (e : exn F) : M F S A := fun s => Raise e s.
Definition gets {F S A} (f : S -> A) : M F S A := fun s => Ok (f s) s.
Definition modify {F S} (f : S -> S) : M F S unit := fun s => Ok tt (f s).

(** Outcome of a call that touches no object. *)
Inductive outcome (F A : Type) : Type :=
  | Return (v : A)
  | Throw (e : exn F).
Arguments Return {F A} v.
Arguments Throw {F A} e.

Definition obind {F A B} (m : outcome F A) (k : A -> outcome F B)
  : outcome F B :=
  match m with
  | Return v => k v
  | Throw e => Throw e
  end.

Definition lift {F S A} (m : outcome F A) : M F S A :=
  fun s => match m with
           | Return v => Ok v s
           | Throw e => Raise e s
           end.

(** [l[i]] on a list or bytearray: negative indices count from the end,
    anything else out of range raises [IndexError] ([None] here). *)
Definition getitem {A} (l : list A) (i : Z) : option A :=
  let n := Z.of_nat (length l) in
  if 0 <=? i then l !! Z.to_nat i
  else if - n <=? i then l !! Z.to_nat (n + i)
  else None.

(** [l[i] = v]: same indexing rule. *)
Definition setitem {A} (l : list A) (i : Z) (v : A) : option (list A) :=
  let n := Z.of_nat (length l) in
  if (0 <=? i) && (i <? n) then Some (<[Z.to_nat i := v]> l)
  else if (- n <=? i) && (i <? 0) then Some (<[Z.to_nat (n + i) := v]> l)
  else None.

(** Lookup in a dictionary literal, written as an association table. *)
Fixpoint dict_get {K V} `{EqDecision K} (d : list (K * V)) (k : K) : option V :=
  match d with
  | [] => None
  | (k', v) :: d' => if decide (k = k') then Some v else dict_get d' k
  end.

End Py.

Declare Scope py_scope.
Delimit Scope py_scope with py.
Notation "'let*' x ':=' m 'in' k" := (Py.bind m (fun x => k))
  (at level 10, x pattern, m at level 100, k at level 200) : py_scope.
Notation "m ';;' k" := (Py.bind m (fun _ => k))
  (at level 100, k at level 200, right associativity) : py_scope.

Declare Scope try_scope.
Delimit Scope try_scope with try.
Notation "'let*' x ':=' m 'in' k" := (Py.obind m (fun x => k))
  (at level 10, x pattern, m at level 100, k at level 200) : try_scope.

(** ** Python strings

    A [str] is a [string]; a character stands for the code point of its
    number, so the model covers text of code points below 256. *)

Module Str.

Definition ord (ch : ascii) : Z := Z.of_N (N_of_ascii ch).

Definition between (lo hi : Z) (ch : ascii) : bool :=
  (lo <=? ord ch) && (ord ch <=? hi).

Definition is_char (x : ascii) (ch : ascii) : bool := Ascii.eqb x ch.

Definition dquote : ascii := ascii_of_nat 34.
Definition squote : ascii := ascii_of_nat 39.
Definition backslash : ascii := ascii_of_nat 92.
Definition newline : ascii := ascii_of_nat 10.

(** [str.isspace] on one character. *)
Definition isspace (ch : ascii) : bool :=
  between 0x09 0x0D ch || between 0x1C 0x20 ch
  || (ord ch =? 0x85) || (ord ch =? 0xA0).

(** [str.isalnum] on one character. *)
Definition isalnum (ch : ascii) : bool :=
  between 0x30 0x39 ch || between 0x41 0x5A ch || between 0x61 0x7A ch
  || (ord ch =? 0xAA) || between 0xB2 0xB3 ch || (ord ch =? 0xB5)
  || between 0xB9 0xBA ch || between 0xBC 0xBE ch
  || between 0xC0 0xD6 ch || between 0xD8 0xF6 ch || between 0xF8 0xFF ch.

Fixpoint lstrip_by (p : ascii -> bool) (s : string) : string :=
  match s with
  | EmptyString => EmptyString
  | String ch s' => if p ch then lstrip_by p s' else s
  end.

Fixpoint rstrip_by (p : ascii -> bool) (s : string) : string :=
  match s with
  | EmptyString => EmptyString
  | String ch s' =>
      match rstrip_by p s' with
      | EmptyString => if p ch then EmptyString else String ch EmptyString
      | t => String ch t
      end
  end.

Definition strip_by (p : ascii -> bool) (s : string) : string :=
  rstrip_by p (lstrip_by p s).

(** [s.strip()] *)
Definition strip (s : string) : string := strip_by isspace s.

(** [s.strip(chars)] *)
Definition strip_chars (chars : list ascii) (s : string) : string :=
  strip_by (fun ch => bool_decide (ch ∈ chars)) s.

(** The longest prefix without a character of class [p], and the rest. *)
Fixpoint break (p : ascii -> bool) (s : string) : string * string :=
  match s with
  | EmptyString => (EmptyString, EmptyString)
  | String ch s' =>
      if p ch then (EmptyString, s)
      else let '(u, v) := break p s' in (String ch u, v)
  end.

(** [s.split(None, 1)] *)
Definition split_ws1 (s : string) : list string :=
  match lstrip_by isspace s with
  | EmptyString => []
  | t =>
      let '(tok, rest) := break isspace t in
      match lstrip_by isspace rest with
      | EmptyString => [tok]
      | rest' => [tok; rest']
      end
  end.

(** [s.split(sep, 1)] for a one-character separator *)
Definition split1 (sep : ascii) (s : string) : list string :=
  match break (is_char sep) s with
  | (u, String _ v) => [u; v]
  | (u, EmptyString) => [u]
  end.

(** [s.split(sep)] for a one-character separator *)
Fixpoint split (sep : ascii) (s : string) : list string :=
  match s with
  | EmptyString => [EmptyString]
  | String ch s' =>
      if is_char sep ch then EmptyString :: split sep s'
      else match split sep s' with
           | [] => [String ch EmptyString]
           | u :: us => String ch u :: us
           end
  end.

(** [s[:s.find(ch)]] when [ch] occurs in [s], else [s] *)
Definition before (ch : ascii) (s : string) : string := fst (break (is_char ch) s).

Fixpoint startswith (s p : string) : bool :=
  match p, s with
  | EmptyString, _ => true
  | String x p', String y s' => Ascii.eqb x y && startswith s' p'
  | String _ _, EmptyString => false
  end.

Fixpoint rev_onto (s acc : string) : string :=
  match s with
  | EmptyString => acc
  | String ch s' => rev_onto s' (String ch acc)
  end.

Definition endswith (s p : string) : bool :=
  startswith (rev_onto s EmptyString) (rev_onto p EmptyString).

(** [s[n:]] *)
Fixpoint drop (n : nat) (s : string) : string :=
  match n, s with
  | O, _ => s
  | S n', String _ s' => drop n' s'
  | S _, EmptyString => EmptyString
  end.

(** [s[:-1]] *)
Fixpoint drop_last (s : string) : string :=
  match s with
  | EmptyString => EmptyString
  | String ch EmptyString => EmptyString
  | String ch s' => String ch (drop_last s')
  end.

(** [s[1:-1]] *)
Definition slice_1_m1 (s : string) : string := drop_last (drop 1 s).

(** [s[i]] for [0 <= i] *)
Fixpoint char_at (i : nat) (s : string) : option ascii :=
  match s, i with
  | EmptyString, _ => None
  | String ch _, O => Some ch
  | String _ s', S i' => char_at i' s'
  end.

(** [str.upper] on one character.  Two characters of the range have their
    capital outside it (0xB5 and 0xFF) and are left as they are; neither
    they nor their capitals occur in any table of the programs. *)
Definition upper_char (ch : ascii) : string :=
  let n := ord ch in
  if between 0x61 0x7A ch then String (ascii_of_N (Z.to_N (n - 32))) EmptyString
  else if n =? 0xDF then "SS"
  else if between 0xE0 0xFE ch && negb (n =? 0xF7)
       then String (ascii_of_N (Z.to_N (n - 32))) EmptyString
  else String ch EmptyString.

Fixpoint upper (s : string) : string :=
  match s with
  | EmptyString => EmptyString
  | String ch s' => upper_char ch ++ upper s'
  end.

(** Line boundaries of [str.splitlines]. *)
Definition is_linebreak (ch : ascii) : bool :=
  between 0x0A 0x0D ch || between 0x1C 0x1E ch || (ord ch =? 0x85).

Fixpoint splitlines (s : string) : list string :=
  match s with
  | EmptyString => []
  | String ch s' =>
      if is_linebreak ch then
        match s' with
        | String ch' s'' =>
            if (ord ch =? 0x0D) && (ord ch' =? 0x0A)
            then EmptyString :: splitlines s''
            else EmptyString :: splitlines s'
        | EmptyString => [EmptyString]
        end
      else match splitlines s' with
           | [] => [String ch EmptyString]
           | l :: ls => String ch l :: ls
           end
  end.

(** Value of a digit in [int]: 0-9, then letters of either case. *)
Definition digit_value (ch : ascii) : Z :=
  if between 0x30 0x39 ch then ord ch - 0x30
  else if between 0x61 0x7A ch then ord ch - 0x61 + 10
  else if between 0x41 0x5A ch then ord ch - 0x41 + 10
  else 37.

(** The digits of an [int] literal after sign and prefix: digits of the
    base, single underscores between them.  [acc] is the value so far,
    [prev_us] tells that the previous character was an underscore. *)
Fixpoint int_digits (base : Z) (s : string) (acc : Z) (prev_us : bool)
  : option Z :=
  match s with
  | EmptyString => if prev_us then None else Some acc
  | String ch s' =>
      if is_char "_" ch then
        if prev_us then None else int_digits base s' acc true
      else if digit_value ch <? base
      then int_digits base s' (acc * base + digit_value ch) false
      else None
  end.

(** The white space [int] skips around a literal: that of [str.isspace]
    without the four separators 0x1C to 0x1F. *)
Definition int_space (ch : ascii) : bool :=
  between 0x09 0x0D ch || (ord ch =? 0x20)
  || (ord ch =? 0x85) || (ord ch =? 0xA0).

(** [sys.get_int_max_str_digits()]: the longest decimal text that [int]
    reads and [str] writes. *)
Definition MAX_STR_DIGITS : nat := 4300.

(** The digits of a literal: its characters other than underscores. *)
Fixpoint digit_count (s : string) : nat :=
  match s with
  | EmptyString => O
  | String ch s' => if is_char "_" ch then digit_count s' else S (digit_count s')
  end.

(** [int(s, base)] for base 2, 10 or 16; [None] is [ValueError].  In
    base 10 a literal of more than [MAX_STR_DIGITS] digits is refused. *)
Definition int (s : string) (base : Z) : option Z :=
  let t := strip_by int_space s in
  let '(sign, t) :=
    match t with
    | String "+" t' => (1, t')
    | String "-" t' => (-1, t')
    | _ => (1, t)
    end in
  let t :=
    match t with
    | String "0" (String x t') =>
        if ((base =? 16) && (is_char "x" x || is_char "X" x))
           || ((base =? 2) && (is_char "b" x || is_char "B" x))
        then match t' with String "_" t'' => t'' | _ => t' end
        else t
    | _ => t
    end in
  match t with
  | EmptyString => None
  | String "_" _ => None
  | _ =>
      if (base =? 10) && (MAX_STR_DIGITS <? digit_count t)%nat then None
      else match int_digits base t 0 false with
           | Some v => Some (sign * v)
           | None => None
           end
  end.


(** [bytes.fromhex]: pairs of hexadecimal digits, ASCII white space
    allowed between pairs; [None] is [ValueError]. *)
Definition ascii_space (ch : ascii) : bool :=
  between 0x09 0x0D ch || (ord ch =? 0x20).

Fixpoint fromhex (s : string) : option (list Z) :=
  match s with
  | EmptyString => Some []
  | String ch s' =>
      if ascii_space ch then fromhex s'
      else
        match s' with
        | String ch2 s'' =>
            if (digit_value ch <? 16) && (digit_value ch2 <? 16) then
              match fromhex s'' with
              | Some l => Some (digit_value ch * 16 + digit_value ch2 :: l)
              | None => None
              end
            else None
        | EmptyString => None
        end
  end.

(** One hexadecimal digit in capitals. *)
Definition hex_digit (d : Z) : ascii :=
  if d <? 10 then ascii_of_N (Z.to_N (0x30 + d))
  else ascii_of_N (Z.to_N (0x41 + d - 10)).

(** The digits of [n > 0] in base 16 before [acc], at most [fuel] of
    them. *)
Fixpoint hex_digits (fuel : nat) (n : Z) (acc : string) : string :=
  match fuel with
  | O => acc
  | S fuel' =>
      if n =? 0 then acc
      else hex_digits fuel' (n / 16) (String (hex_digit (n mod 16)) acc)
  end.

(** [format(n, "X")] of a natural number *)
Definition hex (n : Z) : string :=
  if n =? 0 then "0"
  else hex_digits (S (Z.to_nat (Z.log2 n))) n EmptyString.

(** [f"{n:02X}"]: sign, then the digits, with zeros up to a width of
    two. *)
Definition format_02X (n : Z) : string :=
  if n <? 0 then String "-" (hex (- n))
  else if n <? 16 then String "0" (hex n)
  else hex n.

(** [sep.join(l)] *)
Fixpoint join (sep : string) (l : list string) : string :=
  match l with
  | [] => EmptyString
  | [x] => x
  | x :: l' => x ++ sep ++ join sep l'
  end.

(** ["".join(l)] *)
Definition concat (l : list string) : string := fold_right String.append EmptyString l.

(** *** Regular expressions

    The fragment of [re] the assembler uses: character classes, greedy and
    lazy repetition of a class, an optional group, two capture groups and
    [$].  Matching is by backtracking in the order [re] tries the
    alternatives; [k] is what remains to be matched. *)

Inductive regex :=
  | Cls (p : ascii -> bool)
  | Seq (r1 r2 : regex)
  | Star (p : ascii -> bool)
  | PlusLazy (p : ascii -> bool)
  | Plus (p : ascii -> bool)
  | Opt (r : regex)
  | Group (n : nat) (r : regex)
  | Eos.

(** Captured groups 1 and 2. *)
Definition groups : Type := option string * option string.

Definition set_group (n : nat) (v : string) (g : groups) : groups :=
  match n with
  | 1%nat => (Some v, snd g)
  | 2%nat => (fst g, Some v)
  | _ => g
  end.

(** The part of [s] consumed when [rest] is what is left of it. *)
Fixpoint take (n : nat) (s : string) : string :=
  match n, s with
  | S n', String ch s' => String ch (take n' s')
  | _, _ => EmptyString
  end.

Definition consumed (s rest : string) : string :=
  take (String.length s - String.length rest) s.

Section Matcher.
Context {R : Type}.

Fixpoint star_greedy (p : ascii -> bool) (s : string) (g : groups)
    (k : string -> groups -> option R) : option R :=
  match s with
  | String ch s' =>
      if p ch then
        match star_greedy p s' g k with
        | Some x => Some x
        | None => k s g
        end
      else k s g
  | EmptyString => k s g
  end.

Fixpoint star_lazy (p : ascii -> bool) (s : string) (g : groups)
    (k : string -> groups -> option R) : option R :=
  match k s g with
  | Some x => Some x
  | None =>
      match s with
      | String ch s' => if p ch then star_lazy p s' g k else None
      | EmptyString => None
      end
  end.

Fixpoint run (r : regex) (s : string) (g : groups)
    (k : string -> groups -> option R) : option R :=
  match r with
  | Cls p =>
      match s with
      | String ch s' => if p ch then k s' g else None
      | EmptyString => None
      end
  | Seq r1 r2 => run r1 s g (fun s' g' => run r2 s' g' k)
  | Star p => star_greedy p s g k
  | PlusLazy p =>
      match s with
      | String ch s' => if p ch then star_lazy p s' g k else None
      | EmptyString => None
      end
  | Plus p =>
      match s with
      | String ch s' => if p ch then star_greedy p s' g k else None
      | EmptyString => None
      end
  | Opt r1 =>
      match run r1 s g k with
      | Some x => Some x
      | None => k s g
      end
  | Group n r1 => run r1 s g (fun s' g' => k s' (set_group n (consumed s s') g'))
  | Eos =>
      match s with
      | EmptyString => k s g
      | String ch EmptyString => if is_char newline ch then k s g else None
      | _ => None
      end
  end.
End Matcher.

(** [pattern.match(s)]: the groups and the text after the match. *)
Definition re_match (r : regex) (s : string) : option (groups * string) :=
  run r s (None, None) (fun rest g => Some (g, rest)).

(** A sequence of at least one item. *)
Fixpoint seq (r : regex) (rs : list regex) : regex :=
  match rs with
  | [] => r
  | r' :: rs' => Seq r (seq r' rs')
  end.

(** Classes: [\s], [\w], [.], a literal, a literal under [IGNORECASE]. *)
Definition cls_s : ascii -> bool := isspace.
Definition cls_w (ch : ascii) : bool := isalnum ch || is_char "_" ch.
Definition cls_dot (ch : ascii) : bool := negb (is_char newline ch).
Definition lit (x : ascii) : regex := Cls (is_char x).
Definition lit_i (x y : ascii) : regex := Cls (fun ch => is_char x ch || is_char y ch).

(** *** Numbers as text, padding, case and paths *)

(** The decimal digits of [n > 0] before [acc], at most [fuel] of them. *)
Fixpoint dec_digits (fuel : nat) (n : Z) (acc : string) : string :=
  match fuel with
  | O => acc
  | S fuel' =>
      if n =? 0 then acc
      else dec_digits fuel' (n / 10) (String (hex_digit (n mod 10)) acc)
  end.

(** The decimal text of an integer; a number has no more decimal
    digits than binary ones. *)
Definition of_int (n : Z) : string :=
  if n =? 0 then "0"
  else if n <? 0
  then String "-" (dec_digits (S (Z.to_nat (Z.log2 (- n)))) (- n) EmptyString)
  else dec_digits (S (Z.to_nat (Z.log2 n))) n EmptyString.

(** The least number of more than [MAX_STR_DIGITS] digits. *)
Definition int_limit : Z := 10 ^ Z.of_nat MAX_STR_DIGITS.
Arguments int_limit : simpl never.

(** [str(n)], also [f"{n}"]; [None] is the [ValueError] for a number of
    more than [MAX_STR_DIGITS] digits. *)
Definition str (n : Z) : option string :=
  if int_limit <=? Z.abs n then None else Some (of_int n).

(** [ch * n] *)
Fixpoint repeat_char (ch : ascii) (n : nat) : string :=
  match n with
  | O => EmptyString
  | S n' => String ch (repeat_char ch n')
  end.

(** [f"{n:04X}"]: sign, then the digits, with zeros up to a width of
    four. *)
Definition format_04X (n : Z) : string :=
  if n <? 0
  then String "-" (repeat_char "0" (3 - String.length (hex (- n))) ++ hex (- n))
  else repeat_char "0" (4 - String.length (hex n)) ++ hex n.

(** [f"{s:<12s}"] for [width = 12]: spaces on the right up to the
    width. *)
Definition ljust (width : nat) (s : string) : string :=
  s ++ repeat_char " " (width - String.length s).

(** [str.lower] on one character. *)
Definition lower_char (ch : ascii) : ascii :=
  let n := ord ch in
  if between 0x41 0x5A ch then ascii_of_N (Z.to_N (n + 32))
  else if between 0xC0 0xDE ch && negb (n =? 0xD7)
       then ascii_of_N (Z.to_N (n + 32))
  else ch.

Fixpoint lower (s : string) : string :=
  match s with
  | EmptyString => EmptyString
  | String ch s' => String (lower_char ch) (lower s')
  end.

(** [s.rfind(ch)]: the last index of [ch] in [s], or -1; [i] is the index
    of the head of [s], [last] the last index found so far. *)
Fixpoint rfind_from (ch : ascii) (s : string) (i : nat) (last : option nat)
  : option nat :=
  match s with
  | EmptyString => last
  | String x s' => rfind_from ch s' (S i) (if is_char ch x then Some i else last)
  end.

Definition rfind (ch : ascii) (s : string) : option nat :=
  rfind_from ch s 0 None.

(** Every character of [s] is [ch]. *)
Fixpoint all_char (ch : ascii) (s : string) : bool :=
  match s with
  | EmptyString => true
  | String x s' => is_char ch x && all_char ch s'
  end.

(** [os.path.splitext] of [posixpath]: the extension starts at the last
    dot of the last component of the path, unless that component has
    nothing but dots before it. *)
Definition splitext (p : string) : string * string :=
  match rfind "." p with
  | None => (p, EmptyString)
  | Some dotIndex =>
      let filenameIndex :=
        match rfind "/" p with Some sepIndex => S sepIndex | None => O end in
      if (filenameIndex <=? dotIndex)%nat
         && negb (all_char "." (take (dotIndex - filenameIndex)
                                     (drop filenameIndex p)))
      then (take dotIndex p, drop dotIndex p)
      else (p, EmptyString)
  end.

(** [bytes.decode("ascii")]; [None] is [UnicodeDecodeError]. *)
Definition decode_ascii (data : list Z) : option string :=
  if forallb (fun b => b <? 0x80) data
  then Some (string_of_list_ascii (map (fun b => ascii_of_N (Z.to_N b)) data))
  else None.

(** [str.encode("ascii")] of a text of ASCII characters *)
Definition encode (s : string) : list Z := map ord (list_ascii_of_string s).

End Str.
(** ** simulator.py *)

Module simulator.

(** *** Instruction decode tables *)

Inductive reg := A | R0 | R1.
Inductive alu := ADD | SUB | AND | OR | XOR | CMP.

#[global] Instance reg_eq_dec : EqDecision reg.
Proof. solve_decision. Defined.
#[global] Instance alu_eq_dec : EqDecision alu.
Proof. solve_decision. Defined.

Definition reg_name (x : reg) : string :=
  match x with A => "A" | R0 => "R0" | R1 => "R1" end.

Definition LD_OPCODES : list (Z * (string * reg)) :=
  [ (0, ("LD", A)); (1, ("LD", R0)); (2, ("LD", R1)) ].

Definition ST_OPCODES : list (Z * (string * reg)) :=
  [ (3, ("ST", A)); (4, ("ST", R0)); (5, ("ST", R1)) ].

Definition ALU_OPCODES : list (Z * alu) :=
  [ (6, ADD); (7, SUB); (8, AND); (9, OR); (10, XOR); (11, CMP) ].

Definition BRANCH_CONDITION : list (Z * (string * (bool -> bool -> bool))) :=
  [ (0x68, ("BZ",  fun z c => z));
    (0x69, ("BNZ", fun z c => negb z));
    (0x6A, ("BC",  fun z c => c));
    (0x6B, ("BNC", fun z c => negb c)) ].

(** primary register -> (R bit -> register) *)
Definition REG_MODE_MAP : list (reg * list (Z * reg)) :=
  [ (A,  [ (0, R0); (1, R1) ]);
    (R0, [ (0, A);  (1, R1) ]);
    (R1, [ (0, A);  (1, R0) ]) ].

Definition REG_ENCODING : list (Z * reg) := [ (0, A); (1, R0); (2, R1) ].

Definition IO_ADDR : Z := 0xFF.
Definition STACK_DEPTH : Z := 4.

(** *** File format parsers *)

(** What a [ValueError] of the file format parsers reports. *)
Inductive format_error :=
  | NotHex (text : string)
  | MissingStart (line_num : Z)
  | TooShort (line_num : Z)
  | ChecksumMismatch (line_num expected got : Z)
  | ByteCountMismatch (line_num : Z).

Definition parsed (T : Type) : Type := Py.outcome format_error T.

Definition fromhex (text : string) : parsed (list Z) :=
  match Str.fromhex text with
  | Some l => Py.Return l
  | None => Py.Throw (Py.ValueError (NotHex text))
  end.

(** [raw[i]] *)
Definition at_ (raw : list Z) (i : Z) : parsed Z :=
  match Py.getitem raw i with
  | Some v => Py.Return v
  | None => Py.Throw Py.IndexError
  end.

Definition sum (l : list Z) : Z := fold_right Z.add 0 l.

(** [for i, b in enumerate(data): a = addr + i; if a < 256: result[a] = b] *)
Fixpoint store_data (addr i : Z) (data : list Z) (result : gmap Z Z)
  : gmap Z Z :=
  match data with
  | [] => result
  | b :: rest =>
      let a := addr + i in
      store_data addr (i + 1) rest
        (if a <? 256 then <[a := b]> result else result)
  end.

(** What the body of a parsing loop asks of the loop. *)
Inductive flow := Continue (result : gmap Z Z) | Break (result : gmap Z Z).

Open Scope try_scope.

(** The body of the loop of [parse_hex] for one line. *)
Definition parse_hex_line (line_num : Z) (line : string) (result : gmap Z Z)
  : parsed flow :=
  let line := Str.strip line in
  match line with
  | EmptyString => Py.Return (Continue result)
  | _ =>
    if negb (Str.startswith line ":") then
      Py.Throw (Py.ValueError (MissingStart line_num))
    else
      let* raw := fromhex (Str.drop 1 line) in
      if Z.of_nat (length raw) <? 5 then
        Py.Throw (Py.ValueError (TooShort line_num))
      else
        let* byte_count := at_ raw 0 in
        let* hi := at_ raw 1 in
        let* lo := at_ raw 2 in
        let addr := Z.lor (Z.shiftl hi 8) lo in
        let* rec_type := at_ raw 3 in
        let data := removelast (drop 4 raw) in
        let* checksum := at_ raw (-1) in
        let calc := Z.land (Z.lnot (sum (removelast raw)) + 1) 0xFF in
        if negb (calc =? checksum) then
          Py.Throw (Py.ValueError (ChecksumMismatch line_num calc checksum))
        else if negb (Z.of_nat (length data) =? byte_count) then
          Py.Throw (Py.ValueError (ByteCountMismatch line_num))
        else if rec_type =? 0x01 then Py.Return (Break result)
        else if rec_type =? 0x00 then
          Py.Return (Continue (store_data addr 0 data result))
        else Py.Return (Continue result)
  end.

(** The body of the loop of [parse_srec] for one line. *)
Definition parse_srec_line (line_num : Z) (line : string) (result : gmap Z Z)
  : parsed flow :=
  let line := Str.strip line in
  match line with
  | EmptyString => Py.Return (Continue result)
  | _ =>
    if negb (Str.startswith line "S") then
      Py.Throw (Py.ValueError (MissingStart line_num))
    else
      match Str.char_at 1 line with
      | None => Py.Throw Py.IndexError
      | Some rec_type =>
        let* raw := fromhex (Str.drop 2 line) in
        if Z.of_nat (length raw) <? 1 then
          Py.Throw (Py.ValueError (TooShort line_num))
        else
          let* byte_count := at_ raw 0 in
          if negb (Z.of_nat (length raw) =? byte_count + 1) then
            Py.Throw (Py.ValueError (ByteCountMismatch line_num))
          else
            let calc := Z.land (Z.lnot (sum (removelast raw))) 0xFF in
            let* last := at_ raw (-1) in
            if negb (calc =? last) then
              Py.Throw (Py.ValueError (ChecksumMismatch line_num calc last))
            else if Str.is_char "0" rec_type then Py.Return (Continue result)
            else if Str.is_char "1" rec_type then
              let* hi := at_ raw 1 in
              let* lo := at_ raw 2 in
              let addr := Z.lor (Z.shiftl hi 8) lo in
              let data := removelast (drop 3 raw) in
              Py.Return (Continue (store_data addr 0 data result))
            else if Str.is_char "9" rec_type then Py.Return (Break result)
            else Py.Return (Continue result)
      end
  end.

(** [for line_num, line in enumerate(lines, line_num)] with [break] *)
Fixpoint parse_lines (body : Z -> string -> gmap Z Z -> parsed flow)
    (line_num : Z) (lines : list string) (result : gmap Z Z)
  : parsed (gmap Z Z) :=
  match lines with
  | [] => Py.Return result
  | line :: rest =>
      let* f := body line_num line result in
      match f with
      | Continue result' => parse_lines body (line_num + 1) rest result'
      | Break result' => Py.Return result'
      end
  end.

Definition parse_hex (text : string) : parsed (gmap Z Z) :=
  parse_lines parse_hex_line 1 (Str.splitlines text) ∅.

Definition parse_srec (text : string) : parsed (gmap Z Z) :=
  parse_lines parse_srec_line 1 (Str.splitlines text) ∅.

Close Scope try_scope.

(** *** CPU state *)

(** What an exception of the simulator reports: the messages of its
    [RuntimeError]s, the [ValueError] of a bytearray cell given a value
    out of range, and the [ValueError] of Python for an integer of more
    than 4300 digits in a message. *)
Inductive fault :=
  | PCUnloaded (addr : Z)
  | STImmediate
  | StackOverflow (sp : Z)
  | StackUnderflow (sp : Z)
  | InvalidEncoding (group : string) (opcode addr : Z)
  | InvalidOpcode (opcode addr : Z)
  | ByteRange (val : Z)
  | DigitLimit.


(** The fields of a [CPU] object; [stdout] is the byte stream written
    through the I/O port.  The methods are modelled as they run with
    [trace=False], the default; the trace only prints to stderr. *)
Record CPU := mkCPU {
  a : Z;
  r : list Z;
  pc : Z;
  z : bool;
  c : bool;
  sp : Z;
  stack : list Z;
  mem : list Z;
  loaded : gset Z;
  halted : bool;
  cycles : Z;
  stdout : list Z
}.

Definition set_a (v : Z) (s : CPU) : CPU :=
  mkCPU v (r s) (pc s) (z s) (c s) (sp s) (stack s) (mem s) (loaded s)
        (halted s) (cycles s) (stdout s).
Definition set_r (v : list Z) (s : CPU) : CPU :=
  mkCPU (a s) v (pc s) (z s) (c s) (sp s) (stack s) (mem s) (loaded s)
        (halted s) (cycles s) (stdout s).
Definition set_pc (v : Z) (s : CPU) : CPU :=
  mkCPU (a s) (r s) v (z s) (c s) (sp s) (stack s) (mem s) (loaded s)
        (halted s) (cycles s) (stdout s).
Definition set_z (v : bool) (s : CPU) : CPU :=
  mkCPU (a s) (r s) (pc s) v (c s) (sp s) (stack s) (mem s) (loaded s)
        (halted s) (cycles s) (stdout s).
Definition set_c (v : bool) (s : CPU) : CPU :=
  mkCPU (a s) (r s) (pc s) (z s) v (sp s) (stack s) (mem s) (loaded s)
        (halted s) (cycles s) (stdout s).
Definition set_sp (v : Z) (s : CPU) : CPU :=
  mkCPU (a s) (r s) (pc s) (z s) (c s) v (stack s) (mem s) (loaded s)
        (halted s) (cycles s) (stdout s).
Definition set_stack (v : list Z) (s : CPU) : CPU :=
  mkCPU (a s) (r s) (pc s) (z s) (c s) (sp s) v (mem s) (loaded s)
        (halted s) (cycles s) (stdout s).
Definition set_mem (v : list Z) (s : CPU) : CPU :=
  mkCPU (a s) (r s) (pc s) (z s) (c s) (sp s) (stack s) v (loaded s)
        (halted s) (cycles s) (stdout s).
Definition set_loaded (v : gset Z) (s : CPU) : CPU :=
  mkCPU (a s) (r s) (pc s) (z s) (c s) (sp s) (stack s) (mem s) v
        (halted s) (cycles s) (stdout s).
Definition set_halted (v : bool) (s : CPU) : CPU :=
  mkCPU (a s) (r s) (pc s) (z s) (c s) (sp s) (stack s) (mem s) (loaded s)
        v (cycles s) (stdout s).
Definition set_cycles (v : Z) (s : CPU) : CPU :=
  mkCPU (a s) (r s) (pc s) (z s) (c s) (sp s) (stack s) (mem s) (loaded s)
        (halted s) v (stdout s).
Definition set_stdout (v : list Z) (s : CPU) : CPU :=
  mkCPU (a s) (r s) (pc s) (z s) (c s) (sp s) (stack s) (mem s) (loaded s)
        (halted s) (cycles s) v.

(** [CPU.__init__] *)
Definition init : CPU :=
  mkCPU 0 [0; 0] 0 false false 0 (replicate (Z.to_nat STACK_DEPTH) 0)
        (replicate 256 0) ∅ false 0 [].

Definition op (T : Type) : Type := Py.M fault CPU T.

Open Scope py_scope.

(** A subscript that raises [IndexError] when out of range. *)
Definition index (l : list Z) (i : Z) : op Z :=
  match Py.getitem l i with
  | Some v => Py.ret v
  | None => Py.raise Py.IndexError
  end.

Definition store (l : list Z) (i v : Z) : op (list Z) :=
  match Py.setitem l i v with
  | Some l' => Py.ret l'
  | None => Py.raise Py.IndexError
  end.

Definition _get_reg (name : reg) : op Z :=
  match name with
  | A => Py.gets a
  | R0 => let* l := Py.gets r in index l 0
  | R1 => let* l := Py.gets r in index l 1
  end.

Definition _set_reg (name : reg) (val : Z) : op unit :=
  let val := Z.land val 0xFF in
  match name with
  | A => Py.modify (set_a val)
  | R0 => let* l := Py.gets r in
          let* l' := store l 0 val in Py.modify (set_r l')
  | R1 => let* l := Py.gets r in
          let* l' := store l 1 val in Py.modify (set_r l')
  end.

(** [load_map]: the dictionary is visited item by item; here it is given
    as the list of its items.  A bytearray cell only takes a value in
    [range(256)]. *)
Definition load_item (kv : Z * Z) : op unit :=
  let '(addr, val) := kv in
  if addr <? 256 then
    if (0 <=? val) && (val <? 256) then
      let* m := Py.gets mem in
      let* m' := store m addr val in
      Py.modify (set_mem m') ;;
      Py.modify (fun s => set_loaded ({[addr]} ∪ loaded s) s)
    else Py.raise (Py.ValueError (ByteRange val))
  else Py.ret tt.

Fixpoint load_map (items : list (Z * Z)) : op unit :=
  match items with
  | [] => Py.ret tt
  | kv :: rest => load_item kv ;; load_map rest
  end.

Definition fetch : op Z :=
  let* m := Py.gets mem in
  let* p := Py.gets pc in
  let* val := index m p in
  Py.modify (set_pc (Z.land (p + 1) 0xFF)) ;;
  Py.ret val.

Definition mem_read (addr : Z) : op Z :=
  let* m := Py.gets mem in
  index m (Z.land addr 0xFF).

Definition mem_write (addr val : Z) : op unit :=
  let addr := Z.land addr 0xFF in
  let val := Z.land val 0xFF in
  let* m := Py.gets mem in
  let* m' := store m addr val in
  Py.modify (set_mem m') ;;
  if decide (addr = IO_ADDR)
  then Py.modify (fun s => set_stdout (stdout s ++ [val]) s)
  else Py.ret tt.

(** [raise RuntimeError(f"...{n}...")]: the message is formatted first,
    which raises [ValueError] when [n] has more than 4300 digits. *)
Definition raise_formatted {T} (n : Z) (f : fault) : op T :=
  match Str.str n with
  | Some _ => Py.raise (Py.RuntimeError f)
  | None => Py.raise (Py.ValueError DigitLimit)
  end.

Definition push (val : Z) : op unit :=
  let* p := Py.gets sp in
  if STACK_DEPTH <=? p then
    raise_formatted p (StackOverflow p)
  else
    let* l := Py.gets stack in
    let* l' := store l p (Z.land val 0xFF) in
    Py.modify (set_stack l') ;;
    Py.modify (set_sp (p + 1)).

Definition pop : op Z :=
  let* p := Py.gets sp in
  if p <=? 0 then
    raise_formatted p (StackUnderflow p)
  else
    Py.modify (set_sp (p - 1)) ;;
    let* l := Py.gets stack in
    index l (p - 1).

Definition set_zc (result : Z) : op unit :=
  let val8 := Z.land result 0xFF in
  Py.modify (set_z (val8 =? 0)) ;;
  Py.modify (set_c (negb (Z.land result 0x100 =? 0))).

Definition set_z_only (val : Z) : op unit :=
  Py.modify (set_z (Z.land val 0xFF =? 0)).

Definition set_z_clear_c (val : Z) : op unit :=
  Py.modify (set_z (Z.land val 0xFF =? 0)) ;;
  Py.modify (set_c false).

(** [REG_MODE_MAP[primary_reg][r_bit]] *)
Definition reg_mode_lookup (primary_reg : reg) (r_bit : Z) : op reg :=
  match Py.dict_get REG_MODE_MAP primary_reg with
  | None => Py.raise Py.KeyError
  | Some row =>
      match Py.dict_get row r_bit with
      | None => Py.raise Py.KeyError
      | Some x => Py.ret x
      end
  end.

(** A call that falls off the end of [resolve_source] returns [None]; every
    caller then does arithmetic on it, which raises [TypeError]. *)
Definition resolve_source (mm r_bit : Z) (primary_reg : reg) : op Z :=
  if decide (mm = 0) then fetch
  else if decide (mm = 1) then
    let* src_reg := reg_mode_lookup primary_reg r_bit in
    _get_reg src_reg
  else if decide (mm = 2) then
    let* addr := fetch in
    mem_read addr
  else if decide (mm = 3) then
    let* offset := fetch in
    let* l := Py.gets r in
    let* base := index l r_bit in
    mem_read (Z.land (base + offset) 0xFF)
  else Py.raise Py.TypeError.

Definition resolve_dest (mm r_bit : Z) (primary_reg : reg) (value : Z)
  : op unit :=
  if decide (mm = 0) then Py.raise (Py.RuntimeError STImmediate)
  else if decide (mm = 1) then
    let* dst_reg := reg_mode_lookup primary_reg r_bit in
    _set_reg dst_reg value
  else if decide (mm = 2) then
    let* addr := fetch in
    mem_write addr value
  else if decide (mm = 3) then
    let* offset := fetch in
    let* l := Py.gets r in
    let* base := index l r_bit in
    mem_write (Z.land (base + offset) 0xFF) value
  else Py.ret tt.

(** *** Execute one instruction *)

(** The arm of [step] for an ALU mnemonic, [src] already resolved. *)
Definition alu_exec (mnemonic : alu) (src : Z) : op unit :=
  let* acc := Py.gets a in
  match mnemonic with
  | ADD =>
      let result := acc + src in
      set_zc result ;;
      Py.modify (set_a (Z.land result 0xFF))
  | SUB =>
      Py.modify (set_c (src <=? acc)) ;;
      Py.modify (set_a (Z.land (acc - src) 0xFF)) ;;
      let* acc' := Py.gets a in
      Py.modify (set_z (acc' =? 0))
  | AND =>
      Py.modify (set_a (Z.land acc src)) ;;
      let* acc' := Py.gets a in set_z_clear_c acc'
  | OR =>
      Py.modify (set_a (Z.lor acc src)) ;;
      let* acc' := Py.gets a in set_z_clear_c acc'
  | XOR =>
      Py.modify (set_a (Z.lxor acc src)) ;;
      let* acc' := Py.gets a in set_z_clear_c acc'
  | CMP =>
      let result := acc - src in
      Py.modify (set_c (src <=? acc)) ;;
      Py.modify (set_z (Z.land result 0xFF =? 0))
  end.

(** The arms shared by the PUSH, POP, INC and DEC groups: [reg_code] is
    looked up in [REG_ENCODING], a miss is an invalid encoding. *)
Definition group_reg (group : string) (opcode pc_before reg_code : Z)
  : op reg :=
  match Py.dict_get REG_ENCODING reg_code with
  | Some reg_name => Py.ret reg_name
  | None => Py.raise (Py.RuntimeError (InvalidEncoding group opcode pc_before))
  end.

(** The decode-and-dispatch chain of [step], from the three bit fields
    to the final [else]. *)
Definition execute (opcode pc_before : Z) : op unit :=
  let iiiii := Z.land (Z.shiftr opcode 3) 0x1F in
  let r_bit := Z.land (Z.shiftr opcode 2) 1 in
  let mm := Z.land opcode 0x03 in
  match Py.dict_get LD_OPCODES iiiii with
  | Some (_, primary_reg) =>
      let* value := resolve_source mm r_bit primary_reg in
      _set_reg primary_reg value
  | None =>
  match Py.dict_get ST_OPCODES iiiii with
  | Some (_, primary_reg) =>
      let* value := _get_reg primary_reg in
      resolve_dest mm r_bit primary_reg value
  | None =>
  match Py.dict_get ALU_OPCODES iiiii with
  | Some mnemonic =>
      let* src := resolve_source mm r_bit A in
      alu_exec mnemonic src
  | None =>
  if decide (opcode = 0x60) then
    let* addr := fetch in
    Py.modify (set_pc addr)
  else
  match Py.dict_get BRANCH_CONDITION opcode with
  | Some (_, cond_fn) =>
      let* disp_byte := fetch in
      let disp := if disp_byte <? 128 then disp_byte else disp_byte - 256 in
      let* zf := Py.gets z in
      let* cf := Py.gets c in
      if cond_fn zf cf then
        let* p := Py.gets pc in
        Py.modify (set_pc (Z.land (p + disp) 0xFF))
      else Py.ret tt
  | None =>
  if decide (opcode = 0x70) then
    let* addr := fetch in
    let* p := Py.gets pc in
    push p ;;
    Py.modify (set_pc addr)
  else if decide (opcode = 0x78) then
    let* p := pop in
    Py.modify (set_pc p)
  else if decide (iiiii = 16) then
    let* reg_name := group_reg "PUSH" opcode pc_before mm in
    let* v := _get_reg reg_name in
    push v
  else if decide (iiiii = 17) then
    let* reg_name := group_reg "POP" opcode pc_before mm in
    let* v := pop in
    _set_reg reg_name v
  else if decide (iiiii = 18) then
    let* reg_name := group_reg "INC" opcode pc_before mm in
    let* v := _get_reg reg_name in
    let val := Z.land (v + 1) 0xFF in
    _set_reg reg_name val ;;
    set_z_only val
  else if decide (iiiii = 19) then
    let* reg_name := group_reg "DEC" opcode pc_before mm in
    let* v := _get_reg reg_name in
    let val := Z.land (v - 1) 0xFF in
    _set_reg reg_name val ;;
    set_z_only val
  else if decide (opcode = 0xA0) then Py.ret tt
  else if decide (opcode = 0xA8) then Py.modify (set_halted true)
  else Py.raise (Py.RuntimeError (InvalidOpcode opcode pc_before))
  end end end end.

(** [CPU.step]: returns [False] once halted, [True] otherwise. *)
Definition step : op bool :=
  let* h := Py.gets halted in
  if h then Py.ret false
  else
    let* p := Py.gets pc in
    let* l := Py.gets loaded in
    if decide (p ∈ l) then
      let pc_before := p in
      let* opcode := fetch in
      execute opcode pc_before ;;
      Py.modify (fun s => set_cycles (cycles s + 1) s) ;;
      let* h := Py.gets halted in
      Py.ret (negb h)
    else Py.raise (Py.RuntimeError (PCUnloaded p)).

(** [print(f"...{n}...", file=sys.stderr)]: the text goes to stderr,
    which is no part of the model; formatting [n] raises [ValueError]
    when it has more than 4300 digits. *)
Definition print_int (n : Z) : op unit :=
  match Str.str n with
  | Some _ => Py.ret tt
  | None => Py.raise (Py.ValueError DigitLimit)
  end.

(** The tail of [run], after the loop, without the trace. *)
Definition run_exit (max_cycles : Z) : op Z :=
  let* n := Py.gets cycles in
  if max_cycles <=? n then print_int max_cycles ;; Py.ret 1 else Py.ret 0.

(** The handler of [RuntimeError] in the loop of [run]. *)
Definition run_error : op Z :=
  let* n := Py.gets cycles in
  print_int n ;; Py.ret 1.

(** The [while] loop of [run] unrolled [fuel] times; [None] when the fuel
    runs out before the loop ends. *)
Fixpoint run_loop (fuel : nat) (max_cycles : Z) (s : CPU)
  : option (Py.res fault CPU Z) :=
  if cycles s <? max_cycles then
    match fuel with
    | O => None
    | S fuel' =>
        match step s with
        | Py.Ok true s' => run_loop fuel' max_cycles s'
        | Py.Ok false s' => Some (run_exit max_cycles s')
        | Py.Raise (Py.RuntimeError _) s' => Some (run_error s')
        | Py.Raise e s' => Some (Py.Raise e s')
        end
    end
  else Some (run_exit max_cycles s).

(** [CPU.run]: the loop runs at most [max_cycles - cycles] times. *)
Definition run (max_cycles : Z) (s : CPU) : option (Py.res fault CPU Z) :=
  run_loop (Z.to_nat (max_cycles - cycles s)) max_cycles s.

(** *** Raw binary images and the loaders *)

(** [parse_bin]: [{i: b for i, b in enumerate(data) if i < 256}], with
    [data] the list of the bytes; [i] is the index of the head of
    [data]. *)
Fixpoint parse_bin_from (i : Z) (data : list Z) (result : gmap Z Z)
  : gmap Z Z :=
  match data with
  | [] => result
  | b :: rest =>
      parse_bin_from (i + 1) rest
        (if i <? 256 then <[i := b]> result else result)
  end.

Definition parse_bin (data : list Z) : gmap Z Z := parse_bin_from 0 data ∅.

(** The items of a dictionary for [load_map].  The parsers give a
    dictionary of bytes at addresses below 256, for which the order of
    the visit does not matter. *)
Definition items (addr_map : gmap Z Z) : list (Z * Z) := map_to_list addr_map.

Definition load_bin (data : list Z) : op unit :=
  load_map (items (parse_bin data)).

(** [load_hex] and [load_srec]: a [ValueError] of the parser leaves the
    CPU untouched. *)
Definition load_hex (text : string) (s : CPU)
  : parsed (Py.res fault CPU unit) :=
  Py.obind (parse_hex text) (fun m => Py.Return (load_map (items m) s)).

Definition load_srec (text : string) (s : CPU)
  : parsed (Py.res fault CPU unit) :=
  Py.obind (parse_srec text) (fun m => Py.Return (load_map (items m) s)).

(** *** Command line helpers *)

(** [detect_format]: by the extension of the path, else by the first
    character of the content that is not white space. *)
Definition detect_format (path : string) (data : list Z) : string :=
  let ext := Str.lower (snd (Str.splitext path)) in
  if decide (ext = ".hex") then "hex"
  else if decide (ext = ".srec") then "srec"
  else if decide (ext = ".bin") then "bin"
  else
    match Str.decode_ascii data with
    | Some text =>
        let text := Str.lstrip_by Str.isspace text in
        if Str.startswith text ":" then "hex"
        else if Str.startswith text "S" then "srec"
        else "bin"
    | None => "bin"
    end.

(** What [parse_file] can raise: [UnicodeDecodeError] from [decode], or
    the exception of a parser. *)
Inductive file_error :=
  | Undecodable
  | Malformed (e : Py.exn format_error).

(** [parse_file], with [data] the content read from [path]. *)
Definition parse_file (path : string) (data : list Z)
  : file_error + gmap Z Z :=
  let fmt := detect_format path data in
  let parse (parser : string -> parsed (gmap Z Z)) :=
    match Str.decode_ascii data with
    | None => inl Undecodable
    | Some text =>
        match parser text with
        | Py.Return m => inr m
        | Py.Throw e => inl (Malformed e)
        end
    end in
  if decide (fmt = "hex") then parse parse_hex
  else if decide (fmt = "srec") then parse parse_srec
  else inr (parse_bin data).

(** [addr_owners[addr]] at the end of the first loop of
    [check_overlaps]: the paths of the files that hold [addr], in the
    order of the files. *)
Definition owners (file_maps : list (string * gmap Z Z)) (addr : Z)
  : list string :=
  map fst (List.filter (fun pm => bool_decide (is_Some (snd pm !! addr)))
                       file_maps).

(** [sorted(conflicts)]: the addresses with more than one owner, in
    increasing order. *)
Definition conflicts (file_maps : list (string * gmap Z Z)) : list Z :=
  List.filter (fun addr => (1 <? length (owners file_maps addr))%nat)
    (merge_sort Z.le
       (elements (union_list (map (fun pm => dom (snd pm)) file_maps)))).

(** [groups.setdefault(key, []).append(addr)] on a dictionary that keeps
    its keys in the order they came. *)
Fixpoint group_add (key : gset string) (addr : Z)
    (groups : list (gset string * list Z)) : list (gset string * list Z) :=
  match groups with
  | [] => [(key, [addr])]
  | (k, addrs) :: rest =>
      if decide (k = key) then (k, addrs ++ [addr]) :: rest
      else (k, addrs) :: group_add key addr rest
  end.

Definition str_le (x y : string) : Prop := String.leb x y = true.

#[global] Instance str_le_dec x y : Decision (str_le x y).
Proof. unfold str_le. apply _. Defined.

Definition hex_addr (a : Z) : string := String.append "0x" (Str.format_02X a).

(** The message for one group of files.  [len(addrs)] is the length of
    a list, which is below [sys.maxsize] and so within the digits [str]
    writes. *)
Definition overlap_message (group : gset string * list Z) : string :=
  let '(files, addrs) := group in
  let names := Str.join " and " (merge_sort str_le (elements files)) in
  let addr_str :=
    if (length addrs <=? 8)%nat then Str.join ", " (map hex_addr addrs)
    else
      let shown := Str.join ", " (map hex_addr (take 8 addrs)) in
      String.append shown
        (String.append ", ... ("
           (String.append (Str.of_int (Z.of_nat (length addrs)))
                          " addresses total)")) in
  String.append "Overlap between "
    (String.append names (String.append " at " addr_str)).

Definition check_overlaps (file_maps : list (string * gmap Z Z))
  : list string :=
  let groups :=
    fold_left
      (fun groups addr =>
         group_add (list_to_set (owners file_maps addr)) addr groups)
      (conflicts file_maps) [] in
  map overlap_message groups.

End simulator.
(** ** assembler.py *)

Module assembler.

Open Scope string_scope.
Open Scope Z_scope.
Open Scope list_scope.

(** *** Instruction encoding tables *)

Definition LD_CODES : list (string * Z) := [ ("A", 0); ("R0", 1); ("R1", 2) ].

Definition ST_CODES : list (string * Z) := [ ("A", 3); ("R0", 4); ("R1", 5) ].

Definition ALU_INSTRUCTIONS : list (string * Z) :=
  [ ("ADD", 6); ("SUB", 7); ("AND", 8); ("OR", 9); ("XOR", 10); ("CMP", 11) ].

(** (primary_reg, other_reg) -> R bit value *)
Definition REG_MODE_R_BIT : list ((string * string) * Z) :=
  [ (("A",  "R0"), 0); (("A",  "R1"), 1);
    (("R0", "A"),  0); (("R0", "R1"), 1);
    (("R1", "A"),  0); (("R1", "R0"), 1) ].

Definition FIXED_OPCODES : list (string * Z) :=
  [ ("JMP", 0x60); ("BZ", 0x68); ("BNZ", 0x69); ("BC", 0x6A); ("BNC", 0x6B);
    ("CALL", 0x70); ("RET", 0x78);
    ("PUSH A", 0x80); ("PUSH R0", 0x81); ("PUSH R1", 0x82);
    ("POP A", 0x88); ("POP R0", 0x89); ("POP R1", 0x8A);
    ("INC A", 0x90); ("INC R0", 0x91); ("INC R1", 0x92);
    ("DEC A", 0x98); ("DEC R0", 0x99); ("DEC R1", 0x9A);
    ("NOP", 0xA0); ("HLT", 0xA8) ].

Definition NO_OPERAND : list string :=
  [ "RET"; "PUSH A"; "PUSH R0"; "PUSH R1"; "POP A"; "POP R0"; "POP R1";
    "INC A"; "INC R0"; "INC R1"; "DEC A"; "DEC R0"; "DEC R1"; "NOP"; "HLT" ].

Definition BRANCH_INSTRUCTIONS : list string := [ "BZ"; "BNZ"; "BC"; "BNC" ].

Definition REGISTER_NAMES : list string := [ "A"; "R0"; "R1" ].

Definition ESCAPE_MAP : list (ascii * Z) :=
  [ ("n"%char, 0x0A); ("t"%char, 0x09); ("r"%char, 0x0D); ("0"%char, 0x00);
    (Str.backslash, 0x5C) ].

(** [x in d] for a table or a set written as a list *)
Definition mem_str (x : string) (l : list string) : bool := bool_decide (x ∈ l).

(** *** Diagnostics *)

(** Addressing modes as [parse_operand] tags them. *)
Inductive mode := Imm | Reg | Direct | Indexed | Value.

#[global] Instance mode_eq_dec : EqDecision mode.
Proof. solve_decision. Defined.

(** The text of a diagnostic, by the format string that builds it; the
    last one is Python's own, for an integer of more than 4300 digits in
    a message. *)
Inductive message :=
  | UnknownEscape (ch : ascii)
  | NonAscii (ch : ascii)
  | InvalidLiteral (s : string) (base : Z)
  | STNoImmediate
  | CannotUse (other_reg : option string) (kind primary_reg : string)
  | InvalidMode (m : mode)
  | OnlyR0R1 (mnemonic : string) (reg : option string)
  | InvalidModeFor (m : mode) (mnemonic : string)
  | UndefinedSymbol (name : string)
  | DuplicateLabel (label : string)
  | InvalidOrg
  | InvalidEquValue (s : string)
  | InvalidEquSyntax
  | DSRequiresString
  | FirstOperand (mnemonic : string) (reg : option string)
  | SecondOperand (mnemonic reg : string)
  | RequiresAddress (mnemonic : string)
  | RequiresTarget (mnemonic : string)
  | BranchRange (disp : Z)
  | RequiresOperand (mnemonic : string)
  | UnknownInstruction (mnemonic : string)
  | AddressExceeds (addr : Z)
  | ExceedsDigitLimit.

Definition try (T : Type) : Type := Py.outcome message T.

Open Scope try_scope.

(** *** Number parsing *)

(** [decode_string]: the loop index [i] is the position of the string
    that is left. *)
Fixpoint decode_string (s : string) : try (list Z) :=
  match s with
  | EmptyString => Py.Return []
  | String ch s' =>
      let plain :=
        if 0x7F <? Str.ord ch
        then Py.Throw (Py.ValueError (NonAscii ch))
        else let* result := decode_string s' in
             Py.Return (Str.ord ch :: result) in
      if Str.is_char Str.backslash ch then
        match s' with
        | String ch2 s'' =>
            match Py.dict_get ESCAPE_MAP ch2 with
            | Some b => let* result := decode_string s'' in
                        Py.Return (b :: result)
            | None => Py.Throw (Py.ValueError (UnknownEscape ch2))
            end
        | EmptyString => plain
        end
      else plain
  end.

(** [int(s, base)], raising [ValueError] *)
Definition int (s : string) (base : Z) : try Z :=
  match Str.int s base with
  | Some v => Py.Return v
  | None => Py.Throw (Py.ValueError (InvalidLiteral s base))
  end.

(** [parse_number]: [symbols] is [None] or a dictionary; [None] is
    returned for text that is no decimal literal. *)
Definition parse_number (s : string) (symbols : option (gmap string Z))
  : try (option Z) :=
  let s := Str.strip s in
  match (match symbols with Some d => d !! s | None => None end) with
  | Some v => Py.Return (Some v)
  | None =>
      if Str.startswith s "0x" || Str.startswith s "0X" then
        let* v := int s 16 in Py.Return (Some v)
      else if Str.startswith s "0b" || Str.startswith s "0B" then
        let* v := int s 2 in Py.Return (Some v)
      else
        match int s 10 with
        | Py.Return v => Py.Return (Some v)
        | Py.Throw _ => Py.Return None
        end
  end.

(** *** Operand parsing *)

(** ^\[\s*(R[01])\s*(?:\+\s*(.+?))?\s*\]$  with IGNORECASE *)
Definition RE_INDEXED : Str.regex :=
  Str.seq (Str.lit "[")
    [ Str.Star Str.cls_s;
      Str.Group 1 (Str.Seq (Str.lit_i "R" "r")
                     (Str.Cls (fun ch => Str.is_char "0" ch || Str.is_char "1" ch)));
      Str.Star Str.cls_s;
      Str.Opt (Str.seq (Str.lit "+")
                 [ Str.Star Str.cls_s; Str.Group 2 (Str.PlusLazy Str.cls_dot) ]);
      Str.Star Str.cls_s; Str.lit "]"; Str.Eos ].

(** ^\[\s*(.+?)\s*\]$ *)
Definition RE_DIRECT : Str.regex :=
  Str.seq (Str.lit "[")
    [ Str.Star Str.cls_s; Str.Group 1 (Str.PlusLazy Str.cls_dot);
      Str.Star Str.cls_s; Str.lit "]"; Str.Eos ].

(** ^#\s*(.+)$ *)
Definition RE_IMMEDIATE : Str.regex :=
  Str.seq (Str.lit "#")
    [ Str.Star Str.cls_s; Str.Group 1 (Str.Plus Str.cls_dot); Str.Eos ].

(** The label pattern of [parse_line], anchored at the start: group 1 is
    one of [A-Za-z_] and then any number of word characters; it is
    followed by optional white space and a colon. *)
Definition RE_LABEL : Str.regex :=
  Str.seq
    (Str.Group 1
       (Str.Seq (Str.Cls (fun ch => Str.between 0x41 0x5A ch
                                    || Str.between 0x61 0x7A ch
                                    || Str.is_char "_" ch))
                (Str.Star Str.cls_w)))
    [ Str.Star Str.cls_s; Str.lit ":" ].

(** The third component of an operand: [None], an integer, or the name
    of a symbol not resolved yet. *)
Inductive opval := VNone | VInt (v : Z) | VStr (name : string).

(** A number where it parses, else the text itself. *)
Definition number_or_text (text : string) (symbols : option (gmap string Z))
  : try opval :=
  let* val := parse_number text symbols in
  match val with
  | None => Py.Return (VStr text)
  | Some v => Py.Return (VInt v)
  end.

Definition parse_operand (text : string) (symbols : option (gmap string Z))
  : try (mode * option string * opval) :=
  let text := Str.strip text in
  let upper := Str.upper text in
  if mem_str upper REGISTER_NAMES then Py.Return (Reg, Some upper, VNone)
  else
  match Str.re_match RE_INDEXED text with
  | Some ((Some g1, g2), _) =>
      let reg := Str.upper g1 in
      match g2 with
      | Some off => let* v := number_or_text off symbols in
                    Py.Return (Indexed, Some reg, v)
      | None => Py.Return (Indexed, Some reg, VInt 0)
      end
  | _ =>
  match Str.re_match RE_DIRECT text with
  | Some ((Some g1, _), _) =>
      let* v := number_or_text g1 symbols in
      Py.Return (Direct, None, v)
  | _ =>
  match Str.re_match RE_IMMEDIATE text with
  | Some ((Some g1, _), _) =>
      let* v := number_or_text g1 symbols in
      Py.Return (Imm, None, v)
  | _ =>
      let* v := number_or_text text symbols in
      Py.Return (Value, None, v)
  end end end.

(** *** Encoding functions *)

(** [d[k]], raising [KeyError] *)
Definition subscript {K V} `{EqDecision K} (d : list (K * V)) (k : K) : try V :=
  match Py.dict_get d k with
  | Some v => Py.Return v
  | None => Py.Throw Py.KeyError
  end.

Definition r_bit_of (other_reg : option string) : Z :=
  if decide (other_reg = Some "R0") then 0 else 1.

Definition encode_ld_st (is_store : bool) (primary_reg : string) (m : mode)
    (other_reg : option string) (value : Z) : try (Z * option Z) :=
  let* iiiii := subscript (if is_store then ST_CODES else LD_CODES) primary_reg in
  match m with
  | Imm =>
      if is_store then Py.Throw (Py.ValueError STNoImmediate)
      else Py.Return (Z.lor (Z.shiftl iiiii 3) 0, Some (Z.land value 0xFF))
  | Reg =>
      let kind := if is_store then "ST" else "LD" in
      match other_reg with
      | Some o =>
          match Py.dict_get REG_MODE_R_BIT (primary_reg, o) with
          | Some r_bit =>
              Py.Return (Z.lor (Z.lor (Z.shiftl iiiii 3) (Z.shiftl r_bit 2)) 1,
                         None)
          | None => Py.Throw (Py.ValueError (CannotUse other_reg kind primary_reg))
          end
      | None => Py.Throw (Py.ValueError (CannotUse other_reg kind primary_reg))
      end
  | Direct =>
      Py.Return (Z.lor (Z.shiftl iiiii 3) 2, Some (Z.land value 0xFF))
  | Indexed =>
      let r_bit := r_bit_of other_reg in
      Py.Return (Z.lor (Z.lor (Z.shiftl iiiii 3) (Z.shiftl r_bit 2)) 3,
                 Some (Z.land value 0xFF))
  | Value => Py.Throw (Py.ValueError (InvalidMode m))
  end.

Definition encode_alu (mnemonic : string) (m : mode) (reg : option string)
    (value : Z) : try (Z * option Z) :=
  let* iiiii := subscript ALU_INSTRUCTIONS mnemonic in
  match m with
  | Imm => Py.Return (Z.lor (Z.shiftl iiiii 3) 0, Some (Z.land value 0xFF))
  | Reg =>
      if bool_decide (reg = Some "R0") || bool_decide (reg = Some "R1") then
        let r_bit := r_bit_of reg in
        Py.Return (Z.lor (Z.lor (Z.shiftl iiiii 3) (Z.shiftl r_bit 2)) 1, None)
      else Py.Throw (Py.ValueError (OnlyR0R1 mnemonic reg))
  | Direct => Py.Return (Z.lor (Z.shiftl iiiii 3) 2, Some (Z.land value 0xFF))
  | Indexed =>
      let r_bit := r_bit_of reg in
      Py.Return (Z.lor (Z.lor (Z.shiftl iiiii 3) (Z.shiftl r_bit 2)) 3,
                 Some (Z.land value 0xFF))
  | Value => Py.Throw (Py.ValueError (InvalidModeFor m mnemonic))
  end.

(** *** Line parsing *)

Definition strip_comment (line : string) : string := Str.before ";" line.

(** Python truth of a string. *)
Definition nonempty (s : string) : bool :=
  match s with EmptyString => false | _ => true end.

(** [parse_line]: (label, mnemonic, operand_text).  [parts[0]] raises
    [IndexError] on an empty list. *)
Definition parse_line (raw_line : string)
  : try (option string * option string * option string) :=
  let line := Str.strip (strip_comment raw_line) in
  if negb (nonempty line) then Py.Return (None, None, None)
  else
    let '(label, line) :=
      match Str.re_match RE_LABEL line with
      | Some ((Some g1, _), rest) => (Some g1, Str.strip rest)
      | _ => (None, line)
      end in
    if negb (nonempty line) then Py.Return (label, None, None)
    else
      match Str.split_ws1 line with
      | [] => Py.Throw Py.IndexError
      | [p0] => Py.Return (label, Some (Str.upper p0), None)
      | p0 :: p1 :: _ =>
          Py.Return (label, Some (Str.upper p0), Some (Str.strip p1))
      end.

(** *** The assembler object *)

Record Assembler := mkAssembler {
  symbols : gmap string Z;
  pc : Z;
  errors : list (Z * message)
}.

Definition init : Assembler := mkAssembler ∅ 0 [].

Definition set_symbols (v : gmap string Z) (s : Assembler) : Assembler :=
  mkAssembler v (pc s) (errors s).
Definition set_pc (v : Z) (s : Assembler) : Assembler :=
  mkAssembler (symbols s) v (errors s).
Definition set_errors (v : list (Z * message)) (s : Assembler) : Assembler :=
  mkAssembler (symbols s) (pc s) v.

Definition asm (T : Type) : Type := Py.M message Assembler T.

Open Scope py_scope.

(** [self.error]: the diagnostic joins the list.  [line_num] is the
    position of a line in the source, which [enumerate] gives. *)
Definition error (line_num : Z) (msg : message) : asm unit :=
  Py.modify (fun s => set_errors (errors s ++ [(line_num, msg)]) s).

Definition resolve (value_or_sym : opval) (line_num : Z) : asm opval :=
  match value_or_sym with
  | VStr name =>
      let* d := Py.gets symbols in
      match d !! name with
      | Some v => Py.ret (VInt v)
      | None => error line_num (UndefinedSymbol name) ;; Py.ret (VInt 0)
      end
  | other => Py.ret other
  end.

Definition _parse_ld_st_operand (operand_text : option string)
  : option string * option string :=
  match operand_text with
  | None => (None, None)
  | Some text =>
      match Str.split1 "," text with
      | p0 :: p1 :: _ => (Some (Str.upper (Str.strip p0)), Some (Str.strip p1))
      | [p0] => (Some (Str.upper (Str.strip p0)), None)
      | [] => (None, None)
      end
  end.

Definition _operand_size (operand_text : option string) : try Z :=
  match operand_text with
  | None => Py.Return 1
  | Some text =>
      (let* parsed := parse_operand text None in
       let '(m, _, _) := parsed in
       Py.Return (if decide (m = Reg) then 1 else 2))%try
  end.

(** An item of [.DB] that starts with a quote. *)
Definition quoted (item : string) : bool :=
  Str.startswith item (String Str.dquote EmptyString)
  || Str.startswith item (String Str.squote EmptyString).

(** The test of [.DS]: a quote of one kind at both ends. *)
Definition quoted_both (s : string) : bool :=
  (Str.startswith s (String Str.dquote EmptyString)
   && Str.endswith s (String Str.dquote EmptyString))
  || (Str.startswith s (String Str.squote EmptyString)
      && Str.endswith s (String Str.squote EmptyString)).

Definition strip_quotes (item : string) : string :=
  Str.strip_chars [Str.dquote; Str.squote] item.

(** [f"{mnemonic} {operand_text.strip().upper()}"] *)
Definition combined (mnemonic operand_text : string) : string :=
  String.append mnemonic (String.append " " (Str.upper (Str.strip operand_text))).

Definition is_some_nonempty (t : option string) : bool :=
  match t with Some s => nonempty s | None => false end.

Definition in_table {V} (k : string) (d : list (string * V)) : bool :=
  match Py.dict_get d k with Some _ => true | None => false end.

Definition instruction_size (mnemonic : string) (operand_text : option string)
  : try Z :=
  if decide (mnemonic = ".ORG") then Py.Return 0
  else if decide (mnemonic = ".EQU") then Py.Return 0
  else if decide (mnemonic = ".DB") then
    match operand_text with
    | Some text =>
        if nonempty text then
          let items := map Str.strip (Str.split "," text) in
          Py.Return
            (fold_left
               (fun count item =>
                  if quoted item
                  then count + Z.of_nat (String.length (strip_quotes item))
                  else count + 1)
               items 0)
        else Py.Return 0
    | None => Py.Return 0
    end
  else if decide (mnemonic = ".DS") then
    match operand_text with
    | Some text =>
        if nonempty text then
          let s := Str.strip text in
          if quoted_both s then
            (let* bytes := decode_string (Str.slice_1_m1 s) in
             Py.Return (Z.of_nat (length bytes) + 1))%try
          else Py.Return 1
        else Py.Return 1
    | None => Py.Return 1
    end
  else if bool_decide (mnemonic = "LD") || bool_decide (mnemonic = "ST") then
    let '(reg, src_text) := _parse_ld_st_operand operand_text in
    match src_text with
    | None => Py.Return 1
    | Some _ => _operand_size src_text
    end
  else if is_some_nonempty operand_text
          && in_table (combined mnemonic (default "" operand_text)) FIXED_OPCODES
  then Py.Return 1
  else if in_table mnemonic FIXED_OPCODES then
    if mem_str mnemonic NO_OPERAND then Py.Return 1 else Py.Return 2
  else if in_table mnemonic ALU_INSTRUCTIONS then
    match operand_text with
    | None => Py.Return 1
    | Some _ => _operand_size operand_text
    end
  else Py.Return 1.

(** *** Pass 1: build symbol table *)

(** The body of the loop of [pass1] for one line. *)
Definition pass1_line (line_num : Z) (raw_line : string) : asm unit :=
  let* parsed := Py.lift (parse_line raw_line) in
  let '(label, mnemonic, operand_text) := parsed in
  (if is_some_nonempty label then
     let label := default "" label in
     let* d := Py.gets symbols in
     match d !! label with
     | Some _ => error line_num (DuplicateLabel label)
     | None =>
         let* p := Py.gets pc in
         Py.modify (set_symbols (<[label := p]> d))
     end
   else Py.ret tt) ;;
  match mnemonic with
  | None => Py.ret tt
  | Some mnemonic =>
      if decide (mnemonic = ".ORG") then
        let* d := Py.gets symbols in
        let* val :=
          if is_some_nonempty operand_text
          then Py.lift (parse_number (default "" operand_text) (Some d))
          else Py.ret None in
        match val with
        | None => error line_num InvalidOrg
        | Some v => Py.modify (set_pc v)
        end
      else if decide (mnemonic = ".EQU") then
        if is_some_nonempty operand_text then
          match map Str.strip (Str.split1 "," (default "" operand_text)) with
          | [name; text] =>
              let* d := Py.gets symbols in
              let* val := Py.lift (parse_number text (Some d)) in
              match val with
              | None => error line_num (InvalidEquValue text)
              | Some v => Py.modify (set_symbols (<[name := v]> d))
              end
          | _ => error line_num InvalidEquSyntax
          end
        else Py.ret tt
      else
        let* size := Py.lift (instruction_size mnemonic operand_text) in
        let* p := Py.gets pc in
        Py.modify (set_pc (p + size))
  end.

(** [for line_num, raw_line in enumerate(lines, line_num)] *)
Fixpoint pass1_from (line_num : Z) (lines : list string) : asm unit :=
  match lines with
  | [] => Py.ret tt
  | raw_line :: rest =>
      pass1_line line_num raw_line ;; pass1_from (line_num + 1) rest
  end.

Definition pass1 (lines : list string) : asm unit :=
  Py.modify (set_pc 0) ;; pass1_from 1 lines.

(** *** Pass 2: generate machine code *)

(** A listing entry: (address, bytes, raw source line). *)
Definition entry : Type := option Z * list Z * string.

(** An integer operand of [&] or [-]; [None] there raises [TypeError]. *)
Definition as_int (v : opval) : asm Z :=
  match v with
  | VInt n => Py.ret n
  | _ => Py.raise Py.TypeError
  end.

(** One item of [.DB]. *)
Definition db_item (line_num : Z) (item : string) : asm (list Z) :=
  if quoted item then
    Py.ret (map Str.ord (list_ascii_of_string (strip_quotes item)))
  else
    let* d := Py.gets symbols in
    let* val := Py.lift (parse_number item (Some d)) in
    let* v := match val with
              | Some n => Py.ret n
              | None => let* w := resolve (VStr item) line_num in as_int w
              end in
    Py.ret [Z.land v 0xFF].

Fixpoint db_items (line_num : Z) (items : list string) : asm (list Z) :=
  match items with
  | [] => Py.ret []
  | item :: rest =>
      let* bs := db_item line_num item in
      let* bs' := db_items line_num rest in
      Py.ret (bs ++ bs')
  end.

(** [val if val is not None else 0] once a name has been resolved *)
Definition resolved_or_zero (line_num : Z) (val : opval) : asm Z :=
  match val with
  | VNone => Py.ret 0
  | VInt n => Py.ret n
  | VStr _ => let* w := resolve val line_num in
              match w with VNone => Py.ret 0 | _ => as_int w end
  end.

(** The [try] statement around an encoder: its bytes, or the diagnostic
    and a zero. *)
Definition emit_encoded (line_num : Z) (enc : try (Z * option Z))
  : asm (list Z) :=
  match enc with
  | Py.Return (opcode, Some operand) => Py.ret [opcode; operand]
  | Py.Return (opcode, None) => Py.ret [opcode]
  | Py.Throw (Py.ValueError msg) => error line_num msg ;; Py.ret [0]
  | Py.Throw e => Py.raise e
  end.

(** The chain of [pass2] that fills [emitted] for one line that is
    neither empty nor [.ORG] nor [.EQU]. *)
Definition emit (line_num : Z) (mnemonic : string)
    (operand_text : option string) (start_pc : Z) : asm (list Z) :=
  if decide (mnemonic = ".DB") then
    if is_some_nonempty operand_text
    then db_items line_num
           (map Str.strip (Str.split "," (default "" operand_text)))
    else Py.ret []
  else if decide (mnemonic = ".DS") then
    let* emitted :=
      if is_some_nonempty operand_text then
        let s := Str.strip (default "" operand_text) in
        if quoted_both s then
          match decode_string (Str.slice_1_m1 s) with
          | Py.Return bytes => Py.ret bytes
          | Py.Throw (Py.ValueError msg) => error line_num msg ;; Py.ret []
          | Py.Throw e => Py.raise e
          end
        else error line_num DSRequiresString ;; Py.ret []
      else error line_num DSRequiresString ;; Py.ret [] in
    Py.ret (emitted ++ [0])
  else if bool_decide (mnemonic = "LD") || bool_decide (mnemonic = "ST") then
    let is_store := bool_decide (mnemonic = "ST") in
    let '(reg, src_text) := _parse_ld_st_operand operand_text in
    match reg, src_text with
    | Some reg, Some src_text =>
        if mem_str reg REGISTER_NAMES then
          let* d := Py.gets symbols in
          let* parsed := Py.lift (parse_operand src_text (Some d)) in
          let '(m, other_reg, val) := parsed in
          let m := if decide (m = Value)
                   then (if is_store then Direct else Imm) else m in
          let* v := resolved_or_zero line_num val in
          emit_encoded line_num (encode_ld_st is_store reg m other_reg v)
        else error line_num (FirstOperand mnemonic (Some reg)) ;; Py.ret [0]
    | Some reg, None =>
        if mem_str reg REGISTER_NAMES
        then error line_num (SecondOperand mnemonic reg) ;; Py.ret [0]
        else error line_num (FirstOperand mnemonic (Some reg)) ;; Py.ret [0]
    | None, _ => error line_num (FirstOperand mnemonic None) ;; Py.ret [0]
    end
  else if is_some_nonempty operand_text
          && in_table (combined mnemonic (default "" operand_text)) FIXED_OPCODES
  then
    let* opcode := Py.lift (subscript FIXED_OPCODES
                              (combined mnemonic (default "" operand_text))) in
    Py.ret [opcode]
  else if mem_str mnemonic NO_OPERAND && in_table mnemonic FIXED_OPCODES then
    let* opcode := Py.lift (subscript FIXED_OPCODES mnemonic) in
    Py.ret [opcode]
  else if bool_decide (mnemonic = "JMP") || bool_decide (mnemonic = "CALL") then
    let* opcode := Py.lift (subscript FIXED_OPCODES mnemonic) in
    match operand_text with
    | None => error line_num (RequiresAddress mnemonic) ;; Py.ret [opcode; 0]
    | Some text =>
        let* d := Py.gets symbols in
        let* parsed := Py.lift (parse_operand text (Some d)) in
        let* val := resolve (snd parsed) line_num in
        let* v := as_int val in
        Py.ret [opcode; Z.land v 0xFF]
    end
  else if mem_str mnemonic BRANCH_INSTRUCTIONS then
    let* opcode := Py.lift (subscript FIXED_OPCODES mnemonic) in
    match operand_text with
    | None => error line_num (RequiresTarget mnemonic) ;; Py.ret [opcode; 0]
    | Some text =>
        let* d := Py.gets symbols in
        let* parsed := Py.lift (parse_operand text (Some d)) in
        let* val := resolve (snd parsed) line_num in
        let* target := as_int val in
        let disp := target - (start_pc + 2) in
        let* disp :=
          if (disp <? -128) || (127 <? disp)
          then
            match Str.str disp with
            | Some _ => error line_num (BranchRange disp) ;; Py.ret 0
            | None => Py.raise (Py.ValueError ExceedsDigitLimit)
            end
          else Py.ret disp in
        Py.ret [opcode; Z.land disp 0xFF]
    end
  else if in_table mnemonic ALU_INSTRUCTIONS then
    match operand_text with
    | None => error line_num (RequiresOperand mnemonic) ;; Py.ret [0]
    | Some text =>
        let* d := Py.gets symbols in
        let* parsed := Py.lift (parse_operand text (Some d)) in
        let '(m, reg, val) := parsed in
        let m := if decide (m = Value) then Imm else m in
        let* v := resolved_or_zero line_num val in
        emit_encoded line_num (encode_alu mnemonic m reg v)
    end
  else error line_num (UnknownInstruction mnemonic) ;; Py.ret [0].

(** The loop that writes [emitted] to [output]; it stops at the first
    address past 0xFF. *)
Fixpoint write_output (line_num start_pc i : Z) (emitted : list Z)
    (output : gmap Z Z) : asm (gmap Z Z) :=
  match emitted with
  | [] => Py.ret output
  | b :: rest =>
      let addr := start_pc + i in
      if 0xFF <? addr then
        error line_num (AddressExceeds addr) ;; Py.ret output
      else write_output line_num start_pc (i + 1) rest (<[addr := b]> output)
  end.

(** The body of the loop of [pass2] for one line. *)
Definition pass2_line (line_num : Z) (raw_line : string)
    (output : gmap Z Z) (listing : list entry)
  : asm (gmap Z Z * list entry) :=
  let* parsed := Py.lift (parse_line raw_line) in
  let '(label, mnemonic, operand_text) := parsed in
  match mnemonic with
  | None => Py.ret (output, listing ++ [(None, [], raw_line)])
  | Some mnemonic =>
      if decide (mnemonic = ".ORG") then
        let* d := Py.gets symbols in
        let* val :=
          if is_some_nonempty operand_text
          then Py.lift (parse_number (default "" operand_text) (Some d))
          else Py.ret (Some 0) in
        match val with
        | Some v => Py.modify (set_pc v)
        | None => Py.ret tt
        end ;;
        let* p := Py.gets pc in
        Py.ret (output, listing ++ [(Some p, [], raw_line)])
      else if decide (mnemonic = ".EQU") then
        Py.ret (output, listing ++ [(None, [], raw_line)])
      else
        let* start_pc := Py.gets pc in
        let* emitted := emit line_num mnemonic operand_text start_pc in
        let* output := write_output line_num start_pc 0 emitted output in
        Py.modify (set_pc (start_pc + Z.of_nat (length emitted))) ;;
        Py.ret (output, listing ++ [(Some start_pc, emitted, raw_line)])
  end.

Fixpoint pass2_from (line_num : Z) (lines : list string)
    (output : gmap Z Z) (listing : list entry)
  : asm (gmap Z Z * list entry) :=
  match lines with
  | [] => Py.ret (output, listing)
  | raw_line :: rest =>
      let* acc := pass2_line line_num raw_line output listing in
      pass2_from (line_num + 1) rest (fst acc) (snd acc)
  end.

Definition pass2 (lines : list string) : asm (gmap Z Z * list entry) :=
  Py.modify (set_pc 0) ;; pass2_from 1 lines ∅ [].

(** *** Main assemble entry point *)

Definition assemble (source_text : string)
  : asm (option (gmap Z Z * list entry)) :=
  let lines := Str.splitlines source_text in
  pass1 lines ;;
  let* errs := Py.gets errors in
  match errs with
  | _ :: _ => Py.ret None
  | [] => let* r := pass2 lines in Py.ret (Some r)
  end.

(** *** Output generation *)

(** [sorted(output.keys())] *)
Definition sorted_keys (output : gmap Z Z) : list Z :=
  merge_sort Z.le (map fst (map_to_list output)).

(** The inner loop of the two generators: from [addrs[i:]], take the
    cells that continue the run from [base], sixteen at most.  The keys
    come from [output], so [output[addrs[i]]] is always there. *)
Fixpoint gather (output : gmap Z Z) (base : Z) (addrs : list Z)
    (data : list Z) : list Z * list Z :=
  match addrs with
  | addr :: rest =>
      if (addr =? base + Z.of_nat (length data))
         && (Z.of_nat (length data) <? 16)
      then gather output base rest (data ++ [output !!! addr])
      else (data, addrs)
  | [] => (data, [])
  end.

(** The outer loop, over [addrs[i:]]: one (base, data) per record.  Each
    round takes at least one address, so [length addrs] rounds are
    enough. *)
Fixpoint runs (fuel : nat) (output : gmap Z Z) (addrs : list Z)
  : list (Z * list Z) :=
  match fuel, addrs with
  | S fuel', base :: _ =>
      let '(data, rest) := gather output base addrs [] in
      (base, data) :: runs fuel' output rest
  | _, _ => []
  end.

Definition sum (l : list Z) : Z := fold_right Z.add 0 l.

Definition hex_bytes (l : list Z) : string :=
  Str.concat (map Str.format_02X l).

Definition hex_record (run : Z * list Z) : string :=
  let '(base, data) := run in
  let length := Z.of_nat (length data) in
  let addr_hi := Z.land (Z.shiftr base 8) 0xFF in
  let addr_lo := Z.land base 0xFF in
  let record := [length; addr_hi; addr_lo; 0x00] ++ data in
  let checksum := Z.land (Z.lnot (sum record) + 1) 0xFF in
  String.append ":" (String.append (hex_bytes record) (Str.format_02X checksum)).

Definition newline : string := String Str.newline EmptyString.

Definition generate_hex (output : gmap Z Z) : string :=
  if decide (output = ∅) then String.append ":00000001FF" newline
  else
    let addrs := sorted_keys output in
    let lines := map hex_record (runs (length addrs) output addrs) in
    String.append (Str.join newline (lines ++ [":00000001FF"])) newline.

Definition srec_record (kind : string) (rec_bytes : list Z) : string :=
  let checksum := Z.land (Z.lnot (sum rec_bytes)) 0xFF in
  String.append kind
    (String.append (hex_bytes rec_bytes) (Str.format_02X checksum)).

Definition s1_record (run : Z * list Z) : string :=
  let '(base, data) := run in
  let count := 2 + Z.of_nat (length data) + 1 in
  let addr_hi := Z.land (Z.shiftr base 8) 0xFF in
  let addr_lo := Z.land base 0xFF in
  srec_record "S1" ([count; addr_hi; addr_lo] ++ data).

Definition generate_srec (output : gmap Z Z) : string :=
  let header_data := map Str.ord (list_ascii_of_string "EDU-CPU") in
  let s0_count := 2 + 1 + Z.of_nat (length header_data) in
  let s0 := srec_record "S0" ([s0_count; 0x00; 0x00] ++ header_data) in
  let s1 :=
    if decide (output = ∅) then []
    else let addrs := sorted_keys output in
         map s1_record (runs (length addrs) output addrs) in
  let s9 := srec_record "S9" [0x03; 0x00; 0x00] in
  String.append (Str.join newline ([s0] ++ s1 ++ [s9])) newline.

(** What [generate_bin] can raise: [bytearray(n)] with a negative [n],
    and a cell given a value outside [range(256)]. *)
Inductive bin_error := NegativeCount | ByteMustBeInRange.

(** [buf[addr] = val] on a bytearray *)
Definition set_cell (buf : list Z) (kv : Z * Z)
  : Py.outcome bin_error (list Z) :=
  let '(addr, val) := kv in
  if (0 <=? val) && (val <? 256) then
    match Py.setitem buf addr val with
    | Some buf' => Py.Return buf'
    | None => Py.Throw Py.IndexError
    end
  else Py.Throw (Py.ValueError ByteMustBeInRange).

Fixpoint set_cells (items : list (Z * Z)) (buf : list Z)
  : Py.outcome bin_error (list Z) :=
  match items with
  | [] => Py.Return buf
  | kv :: rest => Py.obind (set_cell buf kv) (set_cells rest)
  end.

(** [max(output.keys())] of a dictionary that is not empty *)
Definition max_key (first : Z) (rest : list (Z * Z)) : Z :=
  fold_left Z.max (map fst rest) first.

(** [generate_bin], the dictionary given as the list of its items in the
    order the dictionary keeps them. *)
Definition generate_bin (items : list (Z * Z))
  : Py.outcome bin_error (list Z) :=
  match items with
  | [] => Py.Return []
  | (addr, _) :: rest =>
      let max_addr := max_key addr rest in
      if max_addr + 1 <? 0 then Py.Throw (Py.ValueError NegativeCount)
      else set_cells items (replicate (Z.to_nat (max_addr + 1)) 0)
  end.

(** One line of the listing file. *)
Definition lst_line (e : entry) : string :=
  let '(addr, bytelist, raw) := e in
  let raw_stripped :=
    Str.rstrip_by (fun ch => Str.is_char Str.newline ch
                             || Str.is_char (ascii_of_nat 13) ch) raw in
  match addr, bytelist with
  | Some addr, _ :: _ =>
      let hex_bytes := Str.join " " (map Str.format_02X bytelist) in
      String.append (Str.format_04X addr)
        (String.append "  "
           (String.append (Str.ljust 12 hex_bytes)
              (String.append "  " raw_stripped)))
  | Some addr, [] =>
      String.append (Str.format_04X addr)
        (String.append "                " raw_stripped)
  | None, _ => String.append "                    " raw_stripped
  end.

Definition generate_lst (listing : list entry) : string :=
  String.append (Str.join newline (map lst_line listing)) newline.

End assembler.
(** ** web/server.py *)

Module server.

Open Scope string_scope.
Open Scope Z_scope.
Open Scope list_scope.

Definition MAX_CODE_LEN : Z := 4096.
Definition MAX_CYCLES : Z := 10000.

(** [_adjust_line]: the number after "Line " is lowered by one, but not
    below 1; a message of another shape, or with a number [int] refuses,
    comes back as it is.  The [IndexError] the source also catches cannot
    occur. *)
Definition _adjust_line (msg : string) : string :=
  if negb (Str.startswith msg "Line ") then msg
  else
    let rest := Str.drop 5 msg in
    match Str.split1 ":" rest with
    | [num_str; tail] =>
        match Str.int num_str 10 with
        | Some n =>
            let num := Z.max (n - 1) 1 in
            match Str.str num with
            | Some text =>
                String.append "Line "
                  (String.append text (String.append ":" tail))
            | None => msg
            end
        | None => msg
        end
    | _ => msg
    end.

(** [str(e)] of an [AssemblerError]: [f"Line {line_num}: {message}"];
    [None] is the [ValueError] of a line number of more than 4300
    digits. *)
Definition error_text (line_num : Z) (message : string) : option string :=
  match Str.str line_num with
  | Some text =>
      Some (String.append "Line "
              (String.append text (String.append ": " message)))
  | None => None
  end.

End server.
(** * Facts about the model *)

(** ** Numbers written as text *)

Module str_facts.

(** [str] writes every number of at most 4300 digits. *)
Lemma str_within n :
  Z.abs n < Str.int_limit -> Str.str n = Some (Str.of_int n).
Proof.
  intros H. unfold Str.str.
  destruct (Z.leb_spec Str.int_limit (Z.abs n)); [lia|reflexivity].
Qed.


(** Bytes, addresses and stack pointers are far below the limit. *)
Lemma int_limit_large : 65536 < Str.int_limit.
Proof. vm_compute. reflexivity. Qed.

End str_facts.
(** * Properties of the simulator *)

Module simulator_facts.
Import simulator.

(** A byte is an integer in [range(256)]. *)
Definition byte (v : Z) : Prop := 0 <= v < 256.

(** The representation invariant of a [CPU] object. *)
Record wf (s : CPU) : Prop := {
  wf_a : byte (a s);
  wf_r_len : length (r s) = 2%nat;
  wf_r : Forall byte (r s);
  wf_pc : byte (pc s);
  wf_sp : 0 <= sp s <= STACK_DEPTH;
  wf_stack_len : length (stack s) = 4%nat;
  wf_stack : Forall byte (stack s);
  wf_mem_len : length (mem s) = 256%nat;
  wf_mem : Forall byte (mem s)
}.

Lemma land_255 x : Z.land x 0xFF = x mod 256.
Proof. exact (Z.land_ones x 8 ltac:(lia)). Qed.

Lemma land_31 x : Z.land x 0x1F = x mod 32.
Proof. exact (Z.land_ones x 5 ltac:(lia)). Qed.

Lemma land_3 x : Z.land x 3 = x mod 4.
Proof. exact (Z.land_ones x 2 ltac:(lia)). Qed.

Lemma land_1 x : Z.land x 1 = x mod 2.
Proof. exact (Z.land_ones x 1 ltac:(lia)). Qed.

Lemma byte_land x : byte (Z.land x 0xFF).
Proof. rewrite land_255. unfold byte. apply Z.mod_pos_bound. lia. Qed.

Lemma land_256 x : Z.land x 0x100 = 256 * ((x / 256) mod 2).
Proof.
  change 0x100 with (2 ^ 8). change 256 with (2 ^ 8).
  rewrite <- land_1.
  apply Z.bits_inj'. intros n Hn.
  rewrite Z.land_spec, Z.pow2_bits_eqb, (Z.mul_comm (2 ^ 8)) by lia.
  destruct (Z.ltb_spec n 8).
  - rewrite Z.mul_pow2_bits_low by lia.
    destruct (Z.eqb_spec 8 n); [lia|]. apply andb_false_r.
  - rewrite Z.mul_pow2_bits, Z.land_spec, Z.div_pow2_bits by lia.
    replace (n - 8 + 8) with n by lia.
    destruct (Z.eqb_spec 8 n) as [<- | Hne].
    + reflexivity.
    + rewrite !andb_false_r.
      replace (Z.testbit 1 (n - 8)) with false; [now rewrite andb_false_r|].
      symmetry. apply (Z.bits_above_log2 1 (n - 8)); simpl; lia.
Qed.

Lemma getitem_in_range {T} (l : list T) (i : Z) :
  0 <= i < Z.of_nat (length l) ->
  exists v, Py.getitem l i = Some v /\ l !! Z.to_nat i = Some v.
Proof.
  intros Hi. unfold Py.getitem.
  destruct (Z.leb_spec 0 i); [|lia].
  destruct (lookup_lt_is_Some_2 l (Z.to_nat i)) as [v Hv]; [lia|].
  exists v. auto.
Qed.

Lemma getitem_byte (l : list Z) (i v : Z) :
  Forall byte l -> Py.getitem l i = Some v -> byte v.
Proof.
  intros Hl. unfold Py.getitem.
  rewrite Forall_lookup in Hl.
  repeat case_match; intros H'; try discriminate; eauto.
Qed.

Lemma setitem_in_range {T} (l : list T) (i : Z) (v : T) :
  0 <= i < Z.of_nat (length l) ->
  Py.setitem l i v = Some (<[Z.to_nat i := v]> l).
Proof.
  intros Hi. unfold Py.setitem.
  destruct (Z.leb_spec 0 i); [|lia].
  destruct (Z.ltb_spec i (Z.of_nat (length l))); [|lia]. reflexivity.
Qed.

Lemma Forall_byte_insert (l : list Z) (i : nat) (v : Z) :
  Forall byte l -> byte v -> Forall byte (<[i := v]> l).
Proof. intros. apply Forall_insert; auto. Qed.


(** *** The monad *)

Lemma bind_Ok {F S T U} (m : Py.M F S T) (k : T -> Py.M F S U) s v s' :
  m s = Py.Ok v s' -> Py.bind m k s = k v s'.
Proof. unfold Py.bind. now intros ->. Qed.

Lemma bind_Raise {F S T U} (m : Py.M F S T) (k : T -> Py.M F S U) s e s' :
  m s = Py.Raise e s' -> Py.bind m k s = Py.Raise e s'.
Proof. unfold Py.bind. now intros ->. Qed.

Lemma bind_inv_Ok {F S T U} (m : Py.M F S T) (k : T -> Py.M F S U) s w s2 :
  Py.bind m k s = Py.Ok w s2 ->
  exists v s1, m s = Py.Ok v s1 /\ k v s1 = Py.Ok w s2.
Proof. unfold Py.bind. destruct (m s); [eauto|discriminate]. Qed.

Lemma bind_inv_Raise {F S T U} (m : Py.M F S T) (k : T -> Py.M F S U) s e s2 :
  Py.bind m k s = Py.Raise e s2 ->
  m s = Py.Raise e s2 \/ exists v s1, m s = Py.Ok v s1 /\ k v s1 = Py.Raise e s2.
Proof.
  unfold Py.bind. destruct (m s) eqn:E; [right; eauto|].
  intros [= -> ->]. now left.
Qed.

Ltac mred := cbn [Py.bind Py.gets Py.modify Py.ret Py.raise].

(** *** The invariant *)

Lemma wf_init : wf init.
Proof.
  constructor; cbn -[replicate]; try (unfold byte, STACK_DEPTH; lia);
    try reflexivity;
    try (apply Forall_replicate; unfold byte; lia).
  repeat constructor; unfold byte; lia.
Qed.

Lemma wf_set_pc s p : wf s -> byte p -> wf (set_pc p s).
Proof. intros [] Hp. constructor; assumption. Qed.

Lemma wf_set_a s v : wf s -> byte v -> wf (set_a v s).
Proof. intros [] Hp. constructor; assumption. Qed.

Lemma wf_set_z s v : wf s -> wf (set_z v s).
Proof. intros []. constructor; assumption. Qed.

Lemma wf_set_c s v : wf s -> wf (set_c v s).
Proof. intros []. constructor; assumption. Qed.

Lemma wf_set_halted s v : wf s -> wf (set_halted v s).
Proof. intros []. constructor; assumption. Qed.

Lemma wf_set_cycles s v : wf s -> wf (set_cycles v s).
Proof. intros []. constructor; assumption. Qed.

Lemma wf_set_loaded s v : wf s -> wf (set_loaded v s).
Proof. intros []. constructor; assumption. Qed.

Lemma wf_set_stdout s v : wf s -> wf (set_stdout v s).
Proof. intros []. constructor; assumption. Qed.

Lemma wf_set_mem s i v :
  wf s -> byte v -> wf (set_mem (<[i := v]> (mem s)) s).
Proof.
  intros [] Hv. constructor; cbn; try assumption.
  - now rewrite length_insert.
  - now apply Forall_byte_insert.
Qed.

Lemma wf_set_r s i v :
  wf s -> byte v -> wf (set_r (<[i := v]> (r s)) s).
Proof.
  intros [] Hv. constructor; cbn; try assumption.
  - now rewrite length_insert.
  - now apply Forall_byte_insert.
Qed.

Lemma wf_push s v :
  wf s -> byte v -> sp s < STACK_DEPTH ->
  wf (set_sp (sp s + 1) (set_stack (<[Z.to_nat (sp s) := v]> (stack s)) s)).
Proof.
  intros [] Hv Hsp. constructor; cbn; try assumption.
  - lia.
  - now rewrite length_insert.
  - now apply Forall_byte_insert.
Qed.

Lemma wf_set_sp s v : wf s -> 0 <= v <= STACK_DEPTH -> wf (set_sp v s).
Proof. intros [] Hv. constructor; assumption. Qed.

(** *** The primitives on a well-formed CPU *)

Lemma fetch_spec s :
  wf s ->
  exists v, Py.getitem (mem s) (pc s) = Some v /\ byte v /\
            fetch s = Py.Ok v (set_pc (Z.land (pc s + 1) 0xFF) s).
Proof.
  intros Hs.
  destruct (getitem_in_range (mem s) (pc s)) as (v & Hv & _).
  { rewrite (wf_mem_len s Hs). pose proof (wf_pc s Hs) as Hp.
    unfold byte in Hp. lia. }
  exists v. split; [assumption|]. split.
  - eapply getitem_byte; [apply (wf_mem s Hs)|eassumption].
  - unfold fetch, index. mred. rewrite Hv. reflexivity.
Qed.

Lemma wf_after_fetch s : wf s -> wf (set_pc (Z.land (pc s + 1) 0xFF) s).
Proof. intros Hs. apply wf_set_pc; [assumption|apply byte_land]. Qed.

Lemma mem_read_spec s addr :
  wf s -> exists v, byte v /\ mem_read addr s = Py.Ok v s.
Proof.
  intros Hs.
  destruct (getitem_in_range (mem s) (Z.land addr 0xFF)) as (v & Hv & _).
  { rewrite (wf_mem_len s Hs). pose proof (byte_land addr) as Hp.
    unfold byte in Hp. lia. }
  exists v. split.
  - eapply getitem_byte; [apply (wf_mem s Hs)|eassumption].
  - unfold mem_read, index. mred. rewrite Hv. reflexivity.
Qed.

Lemma mem_write_spec s addr val :
  wf s -> exists s', mem_write addr val s = Py.Ok tt s' /\ wf s' /\
                     pc s' = pc s /\ halted s' = halted s /\ sp s' = sp s.
Proof.
  intros Hs. unfold mem_write, store. mred.
  rewrite setitem_in_range.
  2:{ rewrite (wf_mem_len s Hs). pose proof (byte_land addr) as Hp.
      unfold byte in Hp. lia. }
  mred. case_decide; mred; eexists; (split; [reflexivity|]).
  - split; [|auto]. apply wf_set_stdout, wf_set_mem; [assumption|apply byte_land].
  - split; [|auto]. apply wf_set_mem; [assumption|apply byte_land].
Qed.

Lemma index_r_spec s i :
  wf s -> 0 <= i <= 1 -> exists v, byte v /\ index (r s) i s = Py.Ok v s.
Proof.
  intros Hs Hi.
  destruct (getitem_in_range (r s) i) as (v & Hv & _).
  { rewrite (wf_r_len s Hs). lia. }
  exists v. split.
  - eapply getitem_byte; [apply (wf_r s Hs)|eassumption].
  - unfold index. rewrite Hv. reflexivity.
Qed.

Lemma get_reg_spec s x :
  wf s -> exists v, byte v /\ _get_reg x s = Py.Ok v s.
Proof.
  intros Hs. destruct x; unfold _get_reg; mred.
  - exists (a s). split; [apply (wf_a s Hs)|reflexivity].
  - apply index_r_spec; [assumption|lia].
  - apply index_r_spec; [assumption|lia].
Qed.

Lemma set_reg_spec s x v :
  wf s -> exists s', _set_reg x v s = Py.Ok tt s' /\ wf s' /\
                     pc s' = pc s /\ halted s' = halted s /\ sp s' = sp s.
Proof.
  intros Hs. destruct x; unfold _set_reg, store; mred.
  - eexists. split; [reflexivity|]. split; [|auto].
    apply wf_set_a; [assumption|apply byte_land].
  - rewrite setitem_in_range by (rewrite (wf_r_len s Hs); lia). mred.
    eexists. split; [reflexivity|]. split; [|auto].
    apply wf_set_r; [assumption|apply byte_land].
  - rewrite setitem_in_range by (rewrite (wf_r_len s Hs); lia). mred.
    eexists. split; [reflexivity|]. split; [|auto].
    apply wf_set_r; [assumption|apply byte_land].
Qed.

Lemma reg_mode_lookup_spec p rb s :
  0 <= rb <= 1 -> exists x, x <> p /\ reg_mode_lookup p rb s = Py.Ok x s.
Proof.
  intros Hrb. assert (rb = 0 \/ rb = 1) as [-> | ->] by lia;
    destruct p; cbn; eexists; (split; [|reflexivity]); discriminate.
Qed.

Lemma resolve_source_spec s mm rb p :
  wf s -> 0 <= mm <= 3 -> 0 <= rb <= 1 ->
  exists v s1, resolve_source mm rb p s = Py.Ok v s1 /\ byte v /\ wf s1 /\
               s1 = set_pc (pc s1) s.
Proof.
  intros Hs Hmm Hrb. unfold resolve_source.
  destruct (fetch_spec s Hs) as (v & _ & Hv & Hf).
  pose proof (wf_after_fetch s Hs) as Hs'.
  repeat case_decide; try lia.
  - exists v, (set_pc (Z.land (pc s + 1) 255) s). auto.
  - destruct (reg_mode_lookup_spec p rb s Hrb) as (x & _ & Hx).
    destruct (get_reg_spec s x Hs) as (w & Hw & Hg).
    exists w, s. rewrite (bind_Ok _ _ _ _ _ Hx), Hg.
    split; [reflexivity|]. split; [assumption|]. split; [assumption|].
    now destruct s.
  - destruct (mem_read_spec _ v Hs') as (w & Hw & Hr).
    exists w, (set_pc (Z.land (pc s + 1) 255) s).
    rewrite (bind_Ok _ _ _ _ _ Hf), Hr. auto.
  - destruct (index_r_spec _ rb Hs' Hrb) as (b & Hb & Hi).
    destruct (mem_read_spec _ (Z.land (b + v) 255) Hs') as (w & Hw & Hr).
    exists w, (set_pc (Z.land (pc s + 1) 255) s).
    rewrite (bind_Ok _ _ _ _ _ Hf). mred.
    rewrite (bind_Ok _ _ _ _ _ Hi), Hr. auto.
Qed.

Lemma mm_range opcode : 0 <= Z.land opcode 3 <= 3.
Proof. rewrite land_3. pose proof (Z.mod_pos_bound opcode 4). lia. Qed.

Lemma r_bit_range opcode : 0 <= Z.land (Z.shiftr opcode 2) 1 <= 1.
Proof.
  rewrite land_1. pose proof (Z.mod_pos_bound (Z.shiftr opcode 2) 2). lia.
Qed.

(** *** One step, unfolded *)

(** What [step] makes of the outcome of the dispatch chain. *)
Definition finish (x : Py.res fault CPU unit) : Py.res fault CPU bool :=
  match x with
  | Py.Ok _ s1 => Py.Ok (negb (halted s1)) (set_cycles (cycles s1 + 1) s1)
  | Py.Raise e s1 => Py.Raise e s1
  end.

Lemma step_halted s : halted s = true -> step s = Py.Ok false s.
Proof. intros H. unfold step. mred. now rewrite H. Qed.

Lemma step_unloaded s :
  halted s = false -> pc s ∉ loaded s ->
  step s = Py.Raise (Py.RuntimeError (PCUnloaded (pc s))) s.
Proof.
  intros H Hl. unfold step. mred. rewrite H. mred.
  destruct (decide (pc s ∈ loaded s)); [contradiction|reflexivity].
Qed.

Lemma step_running s :
  halted s = false -> pc s ∈ loaded s ->
  step s = match fetch s with
           | Py.Ok opcode s0 => finish (execute opcode (pc s) s0)
           | Py.Raise e s0 => Py.Raise e s0
           end.
Proof.
  intros H Hl. unfold step. mred. rewrite H. mred.
  destruct (decide (pc s ∈ loaded s)); [|contradiction].
  unfold Py.bind at 1. destruct (fetch s) as [opcode s0|]; [|reflexivity].
  unfold Py.bind at 1. destruct (execute opcode (pc s) s0); reflexivity.
Qed.

Lemma step_fetched s opcode :
  wf s -> halted s = false -> pc s ∈ loaded s ->
  Py.getitem (mem s) (pc s) = Some opcode ->
  step s = finish (execute opcode (pc s) (set_pc (Z.land (pc s + 1) 0xFF) s)).
Proof.
  intros Hs H Hl Ho. rewrite step_running by assumption.
  destruct (fetch_spec s Hs) as (v & Hv & _ & ->).
  congruence.
Qed.

(** *** ALU instructions and the flags *)

(** The flags and accumulator an ALU instruction leaves, given the
    accumulator [pre_a] before it and the operand [src]. *)
Definition alu_post (mnemonic : alu) (pre_a src : Z) (s' : CPU) : Prop :=
  match mnemonic with
  | ADD => a s' = (pre_a + src) mod 256 /\
           (z s' = true <-> a s' = 0) /\
           (c s' = true <-> pre_a + src >= 256)
  | SUB => a s' = (pre_a - src) mod 256 /\
           (z s' = true <-> (pre_a - src) mod 256 = 0) /\
           (c s' = true <-> pre_a >= src)
  | CMP => a s' = pre_a /\
           (z s' = true <-> (pre_a - src) mod 256 = 0) /\
           (c s' = true <-> pre_a >= src)
  | AND => a s' = Z.land pre_a src /\
           (z s' = true <-> a s' = 0) /\ c s' = false
  | OR  => a s' = Z.lor pre_a src /\
           (z s' = true <-> a s' = 0) /\ c s' = false
  | XOR => a s' = Z.lxor pre_a src /\
           (z s' = true <-> a s' = 0) /\ c s' = false
  end.

(** A bitwise operation whose result has a bit only where an operand has
    one keeps bytes bytes. *)
Lemma byte_bitwise (f : Z -> Z -> Z) x y :
  (forall n, 0 <= n ->
     Z.testbit (f x y) n = false \/ Z.testbit x n = true \/ Z.testbit y n = true) ->
  0 <= f x y -> byte x -> byte y -> byte (f x y).
Proof.
  intros Hbits Hnn Hx Hy. split; [assumption|].
  destruct (Z.eq_dec (f x y) 0) as [->|Hz]; [lia|].
  apply (Z.log2_lt_pow2 _ 8); [lia|].
  assert (Z.log2 (f x y) < 8 \/ 8 <= Z.log2 (f x y)) as [?|Hge] by lia;
    [assumption|].
  exfalso.
  pose proof (Z.bit_log2 (f x y) ltac:(lia)) as Hb.
  assert (Hhigh : forall w, byte w -> Z.testbit w (Z.log2 (f x y)) = false).
  { intros w Hw. destruct (Z.eq_dec w 0) as [->|]; [apply Z.bits_0|].
    apply Z.bits_above_log2; [apply Hw|].
    pose proof (proj1 (Z.log2_lt_pow2 w 8 ltac:(unfold byte in Hw; lia))
                  ltac:(apply Hw)). lia. }
  destruct (Hbits (Z.log2 (f x y)) ltac:(lia)) as [H|[H|H]].
  - congruence.
  - rewrite Hhigh in H by assumption. discriminate.
  - rewrite Hhigh in H by assumption. discriminate.
Qed.

Lemma alu_exec_spec mnemonic src s :
  byte (a s) -> byte src ->
  exists s', alu_exec mnemonic src s = Py.Ok tt s' /\
             alu_post mnemonic (a s) src s' /\ halted s' = halted s.
Proof.
  intros Ha Hsrc.
  destruct mnemonic;
    (eexists; split;
     [cbv [alu_exec Py.bind Py.gets Py.modify set_zc set_z_clear_c];
      reflexivity|]);
    (split; [|reflexivity]); cbn; rewrite ?land_255.
  - (* ADD *)
    split; [reflexivity|]. split; [apply Z.eqb_eq|].
    rewrite land_256, negb_true_iff, Z.eqb_neq.
    unfold byte in *. Z.div_mod_to_equations. lia.
  - (* SUB *)
    split; [reflexivity|]. split; [apply Z.eqb_eq|]. rewrite Z.leb_le. lia.
  - (* AND *)
    rewrite Z.mod_small.
    + split; [reflexivity|]. split; [apply Z.eqb_eq|reflexivity].
    + apply (byte_bitwise Z.land); try assumption.
      * intros n Hn. rewrite Z.land_spec.
        destruct (Z.testbit (a s) n); auto.
      * apply Z.land_nonneg. unfold byte in *. lia.
  - (* OR *)
    rewrite Z.mod_small.
    + split; [reflexivity|]. split; [apply Z.eqb_eq|reflexivity].
    + apply (byte_bitwise Z.lor); try assumption.
      * intros n Hn. rewrite Z.lor_spec.
        destruct (Z.testbit (a s) n), (Z.testbit src n); auto.
      * apply Z.lor_nonneg. unfold byte in *. lia.
  - (* XOR *)
    rewrite Z.mod_small.
    + split; [reflexivity|]. split; [apply Z.eqb_eq|reflexivity].
    + apply (byte_bitwise Z.lxor); try assumption.
      * intros n Hn. rewrite Z.lxor_spec.
        destruct (Z.testbit (a s) n), (Z.testbit src n); auto.
      * apply Z.lxor_nonneg. unfold byte in *. lia.
  - (* CMP *)
    split; [reflexivity|]. split; [apply Z.eqb_eq|]. rewrite Z.leb_le. lia.
Qed.

Lemma execute_alu opcode pc_before mnemonic :
  Py.dict_get ALU_OPCODES (Z.land (Z.shiftr opcode 3) 0x1F) = Some mnemonic ->
  execute opcode pc_before =
  Py.bind (resolve_source (Z.land opcode 3) (Z.land (Z.shiftr opcode 2) 1) A)
          (alu_exec mnemonic).
Proof.
  intros Hop. unfold execute.
  set (i := Z.land (Z.shiftr opcode 3) 31) in *. clearbody i.
  assert (Hld : Py.dict_get LD_OPCODES i = None /\
                Py.dict_get ST_OPCODES i = None).
  { cbn in Hop. repeat case_decide; try discriminate; subst i;
      split; reflexivity. }
  destruct Hld as [-> ->]. now rewrite Hop.
Qed.

(** C2.  An ALU instruction on a well-formed, running CPU always
    completes; with [src] the operand the addressing mode yields and the
    accumulator as it was before the step, ADD leaves Z iff the new A is 0
    and C iff the sum reaches 256; SUB and CMP leave C iff A was at least
    [src] and Z iff the difference is 0 modulo 256, CMP keeping A; AND, OR
    and XOR leave Z iff the result is 0 and clear C. *)
Theorem alu_flag_law s opcode mnemonic :
  wf s -> halted s = false -> pc s ∈ loaded s ->
  Py.getitem (mem s) (pc s) = Some opcode ->
  Py.dict_get ALU_OPCODES (Z.land (Z.shiftr opcode 3) 0x1F) = Some mnemonic ->
  exists src s1 s',
    resolve_source (Z.land opcode 3) (Z.land (Z.shiftr opcode 2) 1) A
      (set_pc (Z.land (pc s + 1) 0xFF) s) = Py.Ok src s1 /\
    byte src /\
    step s = Py.Ok true s' /\
    alu_post mnemonic (a s) src s'.
Proof.
  intros Hs Hh Hl Ho Hop.
  pose proof (wf_after_fetch s Hs) as Hs'.
  destruct (resolve_source_spec _ (Z.land opcode 3)
              (Z.land (Z.shiftr opcode 2) 1) A Hs' (mm_range _) (r_bit_range _))
    as (src & s1 & Hr & Hsrc & Hs1 & Heq).
  destruct (alu_exec_spec mnemonic src s1 (wf_a _ Hs1) Hsrc)
    as (s2 & He & Hpost & Hh2).
  exists src, s1, (set_cycles (cycles s2 + 1) s2).
  split; [assumption|]. split; [assumption|].
  assert (Ha : a s1 = a s) by (rewrite Heq; reflexivity).
  assert (Hh1 : halted s1 = false) by (rewrite Heq; assumption).
  split.
  - rewrite (step_fetched s opcode) by assumption.
    rewrite (execute_alu _ _ _ Hop), (bind_Ok _ _ _ _ _ Hr), He.
    cbn. now rewrite Hh2, Hh1.
  - rewrite <- Ha. destruct mnemonic; exact Hpost.
Qed.

(** *** Loading *)

Lemma setitem_insert {T} (l : list T) i v l' :
  Py.setitem l i v = Some l' -> exists n, l' = <[n := v]> l.
Proof. unfold Py.setitem. repeat case_match; intros [= <-]; eauto. Qed.

Definition stays_wf {T} (m : op T) : Prop :=
  forall s, wf s -> match m s with Py.Ok _ s' | Py.Raise _ s' => wf s' end.

Lemma load_item_wf kv : stays_wf (load_item kv).
Proof.
  intros s Hs. destruct kv as [addr val]. unfold load_item.
  destruct (addr <? 256); [|exact Hs].
  destruct ((0 <=? val) && (val <? 256)) eqn:Hval; [|exact Hs].
  mred. unfold store.
  destruct (Py.setitem (mem s) addr val) as [m'|] eqn:Hset; [|exact Hs].
  mred. apply setitem_insert in Hset as [n ->].
  apply wf_set_loaded, wf_set_mem; [assumption|]. unfold byte. lia.
Qed.

Lemma load_map_wf items : stays_wf (load_map items).
Proof.
  induction items as [|kv rest IH]; intros s Hs; [exact Hs|].
  cbn [load_map]. unfold Py.bind.
  pose proof (load_item_wf kv s Hs) as H.
  destruct (load_item kv s); [apply IH|]; assumption.
Qed.

(** A fresh CPU with one address map loaded, as [main] sets it up. *)
Definition boot (items : list (Z * Z)) : CPU :=
  match load_map items init with Py.Ok _ s | Py.Raise _ s => s end.

Lemma wf_boot items : wf (boot items).
Proof.
  unfold boot. pose proof (load_map_wf items init wf_init).
  destruct (load_map items init); assumption.
Qed.

Lemma alu_flag_law_witness :
  exists src s1 s',
    resolve_source (Z.land 0x30 3) (Z.land (Z.shiftr 0x30 2) 1) A
      (set_pc (Z.land (pc (set_a 0xFF (boot [(0, 0x30); (1, 1)])) + 1) 0xFF)
         (set_a 0xFF (boot [(0, 0x30); (1, 1)]))) = Py.Ok src s1 /\
    byte src /\
    step (set_a 0xFF (boot [(0, 0x30); (1, 1)])) = Py.Ok true s' /\
    alu_post ADD (a (set_a 0xFF (boot [(0, 0x30); (1, 1)]))) src s'.
Proof.
  apply (alu_flag_law (set_a 0xFF (boot [(0, 0x30); (1, 1)])) 0x30 ADD).
  - apply wf_set_a; [apply wf_boot|unfold byte; lia].
  - reflexivity.
  - vm_compute. set_solver.
  - reflexivity.
  - reflexivity.
Defined.

(** *** Which exceptions a computation can raise *)

(** [avoids P m]: [m] never raises an exception of class [P]. *)
Definition avoids {T} (P : Py.exn fault -> bool) (m : op T) : Prop :=
  forall s e s', m s = Py.Raise e s' -> P e = false.

Section Avoids.
Variable P : Py.exn fault -> bool.

Lemma avoids_ret {T} (v : T) : avoids P (Py.ret v).
Proof. intros s e s' H. discriminate. Qed.

Lemma avoids_gets {T} (f : CPU -> T) : avoids P (Py.gets f).
Proof. intros s e s' H. discriminate. Qed.

Lemma avoids_modify f : avoids P (Py.modify f).
Proof. intros s e s' H. discriminate. Qed.

Lemma avoids_raise {T} e : P e = false -> avoids P (@Py.raise _ _ T e).
Proof. intros He s e' s' [= <- _]. exact He. Qed.

Lemma avoids_bind {T U} (m : op T) (k : T -> op U) :
  avoids P m -> (forall v, avoids P (k v)) -> avoids P (Py.bind m k).
Proof.
  intros Hm Hk s e s' H.
  apply bind_inv_Raise in H as [H|(v & s1 & _ & H)].
  - eapply Hm; eassumption.
  - eapply Hk; eassumption.
Qed.
End Avoids.

Ltac avoids_tac :=
  repeat first
    [ apply avoids_ret | apply avoids_gets | apply avoids_modify
    | apply avoids_bind; [|intros ?]
    | apply avoids_raise; reflexivity
    | case_match
    | solve [auto] ].

Ltac unfold_cpu :=
  unfold resolve_source, resolve_dest, alu_exec, group_reg, push, pop,
    raise_formatted, mem_read, mem_write, fetch, _get_reg, _set_reg,
    reg_mode_lookup, set_zc, set_z_only, set_z_clear_c, index, store;
  cbv zeta.


(** The faults of an undecodable opcode. *)
Definition invalid_fault (e : Py.exn fault) : bool :=
  match e with
  | Py.RuntimeError (InvalidEncoding _ _ _) => true
  | Py.RuntimeError (InvalidOpcode _ _) => true
  | _ => false
  end.



(** *** What a computation reads and keeps *)











(** [steady m]: [m] leaves the cycle counter alone. *)
Definition steady {T} (m : op T) : Prop :=
  forall s v s', m s = Py.Ok v s' -> cycles s' = cycles s.

Lemma steady_ret {T} (v : T) : steady (Py.ret v).
Proof. now intros s w s' [= _ <-]. Qed.

Lemma steady_raise {T} e : steady (@Py.raise _ _ T e).
Proof. intros s w s' H. discriminate. Qed.

Lemma steady_gets {T} (f : CPU -> T) : steady (Py.gets f).
Proof. now intros s w s' [= _ <-]. Qed.

Lemma steady_modify f :
  (forall s, cycles (f s) = cycles s) -> steady (Py.modify f).
Proof. intros H s w s' [= _ <-]. apply H. Qed.

Lemma steady_bind {T U} (m : op T) (k : T -> op U) :
  steady m -> (forall v, steady (k v)) -> steady (Py.bind m k).
Proof.
  intros Hm Hk s w s2 H. apply bind_inv_Ok in H as (v & s1 & H1 & H2).
  rewrite (Hk _ _ _ _ H2). eapply Hm; eassumption.
Qed.

Ltac steady_tac :=
  repeat first
    [ apply steady_ret | apply steady_raise | apply steady_gets
    | apply steady_modify; reflexivity
    | apply steady_bind; [|intros ?]
    | case_match
    | solve [auto] ].

Lemma fetch_steady : steady fetch.
Proof. unfold_cpu. steady_tac. Qed.

Lemma execute_steady opcode pc_before : steady (execute opcode pc_before).
Proof. unfold execute. unfold_cpu. steady_tac. Qed.

(** *** Instructions that take an operand byte *)








(** *** The PUSH, POP, INC and DEC groups *)

Lemma group_not_variable i :
  16 <= i <= 19 ->
  Py.dict_get LD_OPCODES i = None /\ Py.dict_get ST_OPCODES i = None /\
  Py.dict_get ALU_OPCODES i = None.
Proof.
  intros Hi. cbn. repeat case_decide; try lia. repeat split.
Qed.

Lemma group_skips opcode :
  16 <= Z.land (Z.shiftr opcode 3) 0x1F <= 19 ->
  Py.dict_get LD_OPCODES (Z.land (Z.shiftr opcode 3) 0x1F) = None /\
  Py.dict_get ST_OPCODES (Z.land (Z.shiftr opcode 3) 0x1F) = None /\
  Py.dict_get ALU_OPCODES (Z.land (Z.shiftr opcode 3) 0x1F) = None /\
  opcode <> 0x60 /\ Py.dict_get BRANCH_CONDITION opcode = None /\
  opcode <> 0x70 /\ opcode <> 0x78.
Proof.
  intros Hi.
  destruct (group_not_variable _ Hi) as (Hld & Hst & Halu).
  split; [assumption|]. split; [assumption|]. split; [assumption|].
  assert (Hne : forall k v, Z.land (Z.shiftr k 3) 0x1F = v ->
                            ~ 16 <= v <= 19 -> opcode <> k).
  { intros k v <- Hk ->. contradiction. }
  split; [eapply Hne; [vm_compute; reflexivity|lia]|].
  split; [|split; (eapply Hne; [vm_compute; reflexivity|lia])].
  cbn. repeat case_decide; try reflexivity; exfalso;
    (eapply Hne; [| |eassumption]; [vm_compute; reflexivity|lia]).
Qed.

(** The dispatch chain on an opcode of the four groups, its first seven
    tests skipped. *)
Lemma execute_group opcode pc_before :
  16 <= Z.land (Z.shiftr opcode 3) 0x1F <= 19 ->
  execute opcode pc_before =
  let iiiii := Z.land (Z.shiftr opcode 3) 0x1F in
  let mm := Z.land opcode 0x03 in
  if decide (iiiii = 16) then
    Py.bind (group_reg "PUSH" opcode pc_before mm)
      (fun x => Py.bind (_get_reg x) push)
  else if decide (iiiii = 17) then
    Py.bind (group_reg "POP" opcode pc_before mm)
      (fun x => Py.bind pop (_set_reg x))
  else if decide (iiiii = 18) then
    Py.bind (group_reg "INC" opcode pc_before mm)
      (fun x => Py.bind (_get_reg x) (fun v =>
         Py.bind (_set_reg x (Z.land (v + 1) 0xFF))
                 (fun _ => set_z_only (Z.land (v + 1) 0xFF))))
  else
    Py.bind (group_reg "DEC" opcode pc_before mm)
      (fun x => Py.bind (_get_reg x) (fun v =>
         Py.bind (_set_reg x (Z.land (v - 1) 0xFF))
                 (fun _ => set_z_only (Z.land (v - 1) 0xFF)))).
Proof.
  intros Hi.
  destruct (group_skips opcode Hi) as (Hld & Hst & Halu & H60 & Hbr & H70 & H78).
  unfold execute. cbv zeta. rewrite Hld, Hst, Halu, Hbr.
  destruct (decide (opcode = 96)); [contradiction|].
  destruct (decide (opcode = 112)); [contradiction|].
  destruct (decide (opcode = 120)); [contradiction|].
  repeat case_decide; try reflexivity; exfalso; lia.
Qed.

Lemma group_reg_hit g opcode pc_before mm s :
  0 <= mm <= 2 ->
  exists x, Py.dict_get REG_ENCODING mm = Some x /\
            group_reg g opcode pc_before mm s = Py.Ok x s.
Proof.
  intros Hmm. unfold group_reg.
  assert (mm = 0 \/ mm = 1 \/ mm = 2) as [-> | [-> | ->]] by lia;
    eexists; split; reflexivity.
Qed.

Lemma group_reg_miss g opcode pc_before s :
  group_reg g opcode pc_before 3 s =
  Py.Raise (Py.RuntimeError (InvalidEncoding g opcode pc_before)) s.
Proof. reflexivity. Qed.

Lemma group_body_valid (k : reg -> op unit) g opcode pc_before mm :
  0 <= mm <= 2 ->
  (forall x, avoids invalid_fault (k x)) ->
  avoids invalid_fault (Py.bind (group_reg g opcode pc_before mm) k).
Proof.
  intros Hmm Hk s e s' H.
  destruct (group_reg_hit g opcode pc_before mm s Hmm) as (x & _ & Hx).
  rewrite (bind_Ok _ _ _ _ _ Hx) in H. eapply Hk, H.
Qed.

(** The claim of C6 fails on the code: opcode 0x84 lies in the PUSH group
    and has bit 2 set, and [step] executes it as PUSH A. *)
Lemma push_with_bit2_executes :
  Z.land (Z.shiftr 0x84 3) 0x1F = 16 /\ Z.testbit 0x84 2 = true /\
  Py.getitem (mem (set_a 0x5A (boot [(0, 0x84)])))
             (pc (set_a 0x5A (boot [(0, 0x84)]))) = Some 0x84 /\
  exists s', step (set_a 0x5A (boot [(0, 0x84)])) = Py.Ok true s' /\
             sp s' = 1 /\ stack s' = [0x5A; 0; 0; 0] /\ pc s' = 1.
Proof.
  repeat split. eexists. split; [vm_compute; reflexivity|].
  repeat split.
Qed.

(** C6, amended.  For an opcode of the PUSH, POP, INC and DEC groups
    (bits 7..3 from 10000 to 10011) fetched by a running CPU, [step]
    raises an invalid-opcode fault exactly when bits 1..0 are 11; bit 2 is
    not examined: two opcodes of these groups that agree on bits 7..3 and
    on bits 1..0, the latter not 11, execute alike. *)
Theorem group_invalid_iff_low_bits (s : CPU) (opcode : Z) :
  wf s -> halted s = false -> pc s ∈ loaded s ->
  Py.getitem (mem s) (pc s) = Some opcode ->
  16 <= Z.land (Z.shiftr opcode 3) 0x1F <= 19 ->
  ((exists e s', step s = Py.Raise e s' /\ invalid_fault e = true) <->
   Z.land opcode 0x03 = 3) /\
  (Z.land opcode 0x03 <> 3 ->
   forall opcode' pc_before pc_before',
     Z.land (Z.shiftr opcode' 3) 0x1F = Z.land (Z.shiftr opcode 3) 0x1F ->
     Z.land opcode' 0x03 = Z.land opcode 0x03 ->
     forall s0, execute opcode' pc_before' s0 = execute opcode pc_before s0).
Proof.
  intros Hs Hh Hl Ho Hi.
  pose proof (mm_range opcode) as Hmm.
  split.
  - rewrite (step_fetched s opcode) by assumption.
    rewrite (execute_group opcode (pc s) Hi). cbv zeta.
    set (s0 := set_pc (Z.land (pc s + 1) 255) s).
    split.
    + intros (e & s' & H & He).
      destruct (Z.eq_dec (Z.land opcode 3) 3) as [|Hne]; [assumption|].
      exfalso.
      assert (Hok : 0 <= Z.land opcode 3 <= 2) by lia.
      assert (Hav : forall m : op unit, avoids invalid_fault m ->
                    finish (m s0) = Py.Raise e s' -> False).
      { intros m Hm Hfin. destruct (m s0) eqn:Em; [discriminate|].
        injection Hfin as -> ->. rewrite (Hm _ _ _ Em) in He. discriminate. }
      repeat case_decide;
        (eapply Hav; [|exact H]); apply group_body_valid; try assumption;
        intros x; unfold_cpu; avoids_tac.
    + intros Hmm3. rewrite Hmm3.
      repeat case_decide; eexists _, _; (split; [reflexivity|reflexivity]).
  - intros Hne opcode' pcb pcb' Hi' Hmm' s0.
    rewrite (execute_group opcode pcb Hi).
    rewrite (execute_group opcode' pcb') by (rewrite Hi'; exact Hi).
    cbv zeta. rewrite Hi', Hmm'.
    assert (Hok : 0 <= Z.land opcode 3 <= 2) by lia.
    assert (Hreg : forall g, group_reg g opcode' pcb' (Z.land opcode 3) s0
                             = group_reg g opcode pcb (Z.land opcode 3) s0).
    { intros g.
      destruct (group_reg_hit g opcode' pcb' _ s0 Hok) as (x & Hx & ->).
      destruct (group_reg_hit g opcode pcb _ s0 Hok) as (y & Hy & ->).
      congruence. }
    repeat case_decide; unfold Py.bind at 1 3; rewrite Hreg; reflexivity.
Qed.

Lemma group_invalid_iff_low_bits_witness :
  ((exists e s', step (boot [(0, 0x87)]) = Py.Raise e s' /\
                 invalid_fault e = true) <-> Z.land 0x87 0x03 = 3) /\
  (Z.land 0x87 0x03 <> 3 ->
   forall opcode' pc_before pc_before',
     Z.land (Z.shiftr opcode' 3) 0x1F = Z.land (Z.shiftr 0x87 3) 0x1F ->
     Z.land opcode' 0x03 = Z.land 0x87 0x03 ->
     forall s0, execute opcode' pc_before' s0 = execute 0x87 pc_before s0).
Proof.
  apply (group_invalid_iff_low_bits (boot [(0, 0x87)]) 0x87).
  - apply wf_boot.
  - reflexivity.
  - vm_compute. set_solver.
  - reflexivity.
  - vm_compute. split; discriminate.
Defined.

(** *** The run loop *)

Lemma step_cycles s b s' :
  step s = Py.Ok b s' ->
  b = negb (halted s') /\
  cycles s' = (if halted s then cycles s else cycles s + 1).
Proof.
  intros H. destruct (halted s) eqn:Hh.
  { rewrite step_halted in H by assumption. injection H as <- <-.
    now rewrite Hh. }
  destruct (decide (pc s ∈ loaded s)) as [Hl|Hl].
  2:{ rewrite step_unloaded in H by assumption. discriminate. }
  rewrite step_running in H by assumption.
  destruct (fetch s) as [opcode s0|] eqn:Hf; [|discriminate].
  destruct (execute opcode (pc s) s0) as [[] s1|] eqn:He; [|discriminate].
  cbn in H. injection H as <- <-. split; [reflexivity|]. cbn.
  rewrite (execute_steady _ _ _ _ _ He), (fetch_steady _ _ _ Hf). reflexivity.
Qed.

(** [run] returns: the fuel it is given always suffices. *)
Lemma run_loop_total fuel max_cycles s :
  (Z.to_nat (max_cycles - cycles s) <= fuel)%nat ->
  exists x, run_loop fuel max_cycles s = Some x.
Proof.
  revert s. induction fuel as [|fuel IH]; intros s Hfuel; cbn [run_loop].
  - destruct (Z.ltb_spec (cycles s) max_cycles); [lia|eauto].
  - destruct (Z.ltb_spec (cycles s) max_cycles); [|eauto].
    destruct (step s) as [[] s'|[] s'] eqn:Hstep; eauto.
    apply IH. pose proof (step_cycles _ _ _ Hstep) as [Hb Hc].
    destruct (halted s) eqn:Hh.
    + rewrite step_halted in Hstep by assumption. discriminate.
    + lia.
Qed.

Lemma run_total max_cycles s : exists x, run max_cycles s = Some x.
Proof. apply run_loop_total. lia. Qed.

(** [steps n s]: the state after [n] instructions, none of them the last:
    each call of [step] returned [True]. *)
Fixpoint steps (n : nat) (s : CPU) : option CPU :=
  match n with
  | O => Some s
  | S n' =>
      match step s with
      | Py.Ok true s' => steps n' s'
      | _ => None
      end
  end.

Lemma steps_cycles n s s1 :
  steps n s = Some s1 -> cycles s1 = cycles s + Z.of_nat n.
Proof.
  revert s. induction n as [|n IH]; intros s H; cbn [steps] in H.
  - injection H as <-. lia.
  - destruct (step s) as [[] s'|] eqn:Hstep; try discriminate.
    rewrite (IH _ H).
    destruct (halted s) eqn:Hh.
    + rewrite step_halted in Hstep by assumption. discriminate.
    + apply step_cycles in Hstep as [_ Hc]. rewrite Hh in Hc. lia.
Qed.

Lemma run_loop_steps n max_cycles : forall s s1 fuel,
  steps n s = Some s1 -> cycles s + Z.of_nat n <= max_cycles ->
  run_loop (n + fuel) max_cycles s = run_loop fuel max_cycles s1.
Proof.
  induction n as [|n IH]; intros s s1 fuel H Hle; cbn [steps] in H.
  - now injection H as <-.
  - destruct (step s) as [[] s'|] eqn:Hstep; try discriminate.
    cbn [Nat.add run_loop].
    destruct (Z.ltb_spec (cycles s) max_cycles); [|lia].
    rewrite Hstep. apply IH; [assumption|].
    destruct (halted s) eqn:Hh.
    + rewrite step_halted in Hstep by assumption. discriminate.
    + apply step_cycles in Hstep as [_ Hc]. rewrite Hh in Hc. lia.
Qed.

(** What [run] returns when the program halts: [n] instructions, then a
    call of [step] that returns [False]. *)
Lemma run_halting n max_cycles s s1 s2 :
  steps n s = Some s1 -> step s1 = Py.Ok false s2 ->
  cycles s1 < max_cycles -> Z.abs max_cycles < Str.int_limit ->
  run max_cycles s =
  Some (Py.Ok (if max_cycles <=? cycles s2 then 1 else 0) s2).
Proof.
  intros Hn Hlast Hlt Hmax. unfold run.
  pose proof (steps_cycles _ _ _ Hn) as Hc.
  replace (Z.to_nat (max_cycles - cycles s))
    with (n + S (Z.to_nat (max_cycles - cycles s1 - 1)))%nat by lia.
  rewrite (run_loop_steps n max_cycles s s1) by (assumption || lia).
  cbn [run_loop].
  destruct (Z.ltb_spec (cycles s1) max_cycles); [|lia].
  rewrite Hlast. unfold run_exit, print_int. mred.
  rewrite (str_facts.str_within _ Hmax).
  now destruct (max_cycles <=? cycles s2).
Qed.

(** A program that halts with the cycle counter below the budget exits
    with code 0. *)
Lemma run_halts_within_budget n max_cycles s s1 s2 :
  steps n s = Some s1 -> step s1 = Py.Ok false s2 ->
  cycles s2 < max_cycles -> Z.abs max_cycles < Str.int_limit ->
  run max_cycles s = Some (Py.Ok 0 s2).
Proof.
  intros Hn Hlast Hlt Hmax.
  assert (cycles s1 <= cycles s2).
  { apply step_cycles in Hlast as [_ ->]. destruct (halted s1); lia. }
  rewrite (run_halting n max_cycles s s1 s2) by (assumption || lia).
  destruct (Z.leb_spec max_cycles (cycles s2)); [lia|reflexivity].
Qed.

(** A program whose HLT is instruction number [max_cycles] halts, and is
    reported as a failure. *)
Lemma run_halts_on_last_cycle n max_cycles s s1 s2 :
  steps n s = Some s1 -> step s1 = Py.Ok false s2 ->
  cycles s1 < max_cycles -> cycles s2 = max_cycles ->
  Z.abs max_cycles < Str.int_limit ->
  run max_cycles s = Some (Py.Ok 1 s2) /\ halted s2 = true.
Proof.
  intros Hn Hlast Hlt Heq Hmax.
  rewrite (run_halting n max_cycles s s1 s2) by assumption.
  destruct (Z.leb_spec max_cycles (cycles s2)); [|lia].
  split; [reflexivity|].
  apply step_cycles in Hlast as [Hb _]. now destruct (halted s2).
Qed.

(** The program of the failing run: 65535 instructions, then HLT.
<<
      LD R1,#151
  O:  LD R0,#215
      NOP
  I:  DEC R0
      BNZ I
      DEC R1
      BNZ O
      HLT
>> *)
Definition countdown : list (Z * Z) :=
  [ (0, 0x10); (1, 151); (2, 0x08); (3, 215); (4, 0xA0); (5, 0x99);
    (6, 0x69); (7, 0xFD); (8, 0x9A); (9, 0x69); (10, 0xF7); (11, 0xA8) ].

(** The exit code of a run, whether the CPU has halted, and the cycle
    counter. *)
Definition report (x : option (Py.res fault CPU Z)) : option (Z * bool * Z) :=
  match x with
  | Some (Py.Ok code s) => Some (code, halted s, cycles s)
  | _ => None
  end.

(** C5 fails on the code.  A lone HLT under a budget of one cycle, and the
    countdown program under the default budget, reach HLT without a fault
    on the last cycle the loop allows; [run] returns 1 for both, with the
    CPU halted.  One cycle more of budget and the exit code is 0. *)
Theorem run_reports_halt_on_last_cycle_as_failure :
  report (run 1 (boot [(0, 0xA8)])) = Some (1, true, 1) /\
  report (run 2 (boot [(0, 0xA8)])) = Some (0, true, 1) /\
  report (run 65536 (boot countdown)) = Some (1, true, 65536) /\
  report (run 65537 (boot countdown)) = Some (0, true, 65536).
Proof. split; [|split; [|split]]; vm_compute; reflexivity. Qed.

End simulator_facts.
(** * The simulator on a well-formed CPU *)

Module cpu_facts.
Import simulator simulator_facts.

Open Scope string_scope.
Open Scope Z_scope.
Open Scope list_scope.

(** *** What a method can end in *)

(** The exceptions [run] catches. *)
Definition runtime (e : Py.exn fault) : bool :=
  match e with Py.RuntimeError _ => true | _ => false end.

(** A method is safe when, on a well-formed CPU, it leaves a well-formed
    CPU, returns a value in [Q], and raises nothing but [RuntimeError]. *)
Definition safe {T} (Q : T -> Prop) (m : op T) : Prop :=
  forall s, wf s ->
    match m s with
    | Py.Ok v s' => wf s' /\ Q v
    | Py.Raise e s' => wf s' /\ runtime e = true
    end.

Definition any {T} (v : T) : Prop := True.

Lemma safe_ret {T} (Q : T -> Prop) v : Q v -> safe Q (Py.ret v).
Proof. intros Hv s Hs. now split. Qed.

Lemma safe_raise {T} (Q : T -> Prop) f :
  safe Q (Py.raise (Py.RuntimeError f)).
Proof. intros s Hs. now split. Qed.

Lemma safe_gets {T} (Q : T -> Prop) (f : CPU -> T) :
  (forall s, wf s -> Q (f s)) -> safe Q (Py.gets f).
Proof. intros Hf s Hs. split; auto. Qed.

Lemma safe_modify (f : CPU -> CPU) :
  (forall s, wf s -> wf (f s)) -> safe any (Py.modify f).
Proof. intros Hf s Hs. split; [auto|exact I]. Qed.

Lemma safe_bind {T U} (Q : T -> Prop) (R : U -> Prop) (m : op T)
    (k : T -> op U) :
  safe Q m -> (forall v, Q v -> safe R (k v)) -> safe R (Py.bind m k).
Proof.
  intros Hm Hk s Hs. unfold Py.bind. specialize (Hm s Hs).
  destruct (m s) as [v s'|e s']; [|assumption].
  destruct Hm as [Hs' Hv]. now apply Hk.
Qed.

Lemma safe_weaken {T} (Q R : T -> Prop) (m : op T) :
  safe Q m -> (forall v, Q v -> R v) -> safe R m.
Proof.
  intros Hm HQR s Hs. specialize (Hm s Hs).
  destruct (m s); [|assumption]. destruct Hm. split; auto.
Qed.

(** *** Lists of bytes *)

Definition bytes (n : nat) (l : list Z) : Prop :=
  length l = n /\ Forall byte l.

Lemma safe_index n (l : list Z) i :
  bytes n l -> 0 <= i < Z.of_nat n -> safe byte (index l i).
Proof.
  intros [Hn Hl] Hi s Hs. unfold index.
  destruct (getitem_in_range l i) as (v & Hv & _); [lia|].
  rewrite Hv. split; [assumption|]. eapply getitem_byte; eassumption.
Qed.

Lemma safe_store n (l : list Z) i v :
  bytes n l -> byte v -> 0 <= i < Z.of_nat n -> safe (bytes n) (store l i v).
Proof.
  intros [Hn Hl] Hv Hi s Hs. unfold store.
  rewrite setitem_in_range by lia. split; [assumption|]. split.
  - now rewrite length_insert.
  - now apply Forall_byte_insert.
Qed.

Lemma wf_mem_bytes s : wf s -> bytes 256 (mem s).
Proof. intros []. now split. Qed.

Lemma wf_r_bytes s : wf s -> bytes 2 (r s).
Proof. intros []. now split. Qed.

Lemma wf_stack_bytes s : wf s -> bytes 4 (stack s).
Proof. intros []. now split. Qed.

Lemma wf_with_mem s l : wf s -> bytes 256 l -> wf (set_mem l s).
Proof. intros [] []. constructor; assumption. Qed.

Lemma wf_with_r s l : wf s -> bytes 2 l -> wf (set_r l s).
Proof. intros [] []. constructor; assumption. Qed.

Lemma wf_with_stack s l : wf s -> bytes 4 l -> wf (set_stack l s).
Proof. intros [] []. constructor; assumption. Qed.

(** *** The methods of the CPU *)

Lemma safe_fetch : safe byte fetch.
Proof.
  unfold fetch.
  eapply safe_bind; [apply (safe_gets (bytes 256)), wf_mem_bytes|intros m Hm].
  eapply safe_bind; [apply (safe_gets byte); intros s Hs; apply (wf_pc s Hs)|].
  intros p Hp.
  eapply safe_bind; [apply (safe_index 256 m p Hm); unfold byte in Hp; lia|].
  intros v Hv.
  eapply safe_bind; [apply safe_modify|intros _ _; now apply safe_ret].
  intros s Hs. apply wf_set_pc; [assumption|apply byte_land].
Qed.

Lemma safe_mem_read addr : safe byte (mem_read addr).
Proof.
  unfold mem_read.
  eapply safe_bind; [apply (safe_gets (bytes 256)), wf_mem_bytes|intros m Hm].
  apply (safe_index 256 m _ Hm). pose proof (byte_land addr) as H.
  unfold byte in H. lia.
Qed.

Lemma safe_mem_write addr val : safe any (mem_write addr val).
Proof.
  unfold mem_write. cbv zeta.
  eapply safe_bind; [apply (safe_gets (bytes 256)), wf_mem_bytes|intros m Hm].
  eapply safe_bind.
  { apply (safe_store 256 m _ _ Hm); [apply byte_land|].
    pose proof (byte_land addr) as H. unfold byte in H. lia. }
  intros m' Hm'.
  eapply safe_bind.
  { apply safe_modify. intros s Hs. now apply wf_with_mem. }
  intros _ _. case_decide.
  - apply safe_modify. intros s Hs. now apply wf_set_stdout.
  - now apply safe_ret.
Qed.

Lemma safe_get_reg x : safe byte (_get_reg x).
Proof.
  destruct x; unfold _get_reg.
  - apply safe_gets. intros s Hs. apply (wf_a s Hs).
  - eapply safe_bind; [apply (safe_gets (bytes 2)), wf_r_bytes|intros l Hl].
    apply (safe_index 2 l 0 Hl). lia.
  - eapply safe_bind; [apply (safe_gets (bytes 2)), wf_r_bytes|intros l Hl].
    apply (safe_index 2 l 1 Hl). lia.
Qed.

Lemma safe_set_reg x v : safe any (_set_reg x v).
Proof.
  destruct x; unfold _set_reg; cbv zeta.
  - apply safe_modify. intros s Hs. apply wf_set_a; [assumption|apply byte_land].
  - eapply safe_bind; [apply (safe_gets (bytes 2)), wf_r_bytes|intros l Hl].
    eapply safe_bind; [apply (safe_store 2 l 0 _ Hl); [apply byte_land|lia]|].
    intros l' Hl'. apply safe_modify. intros s Hs. now apply wf_with_r.
  - eapply safe_bind; [apply (safe_gets (bytes 2)), wf_r_bytes|intros l Hl].
    eapply safe_bind; [apply (safe_store 2 l 1 _ Hl); [apply byte_land|lia]|].
    intros l' Hl'. apply safe_modify. intros s Hs. now apply wf_with_r.
Qed.

(** The stack pointer of a well-formed CPU is written in one digit. *)
Lemma raise_formatted_within {T} n f :
  Z.abs n < Str.int_limit ->
  @raise_formatted T n f = Py.raise (Py.RuntimeError f).
Proof.
  intros Hn. unfold raise_formatted. now rewrite str_facts.str_within.
Qed.

Lemma sp_within p : 0 <= p <= STACK_DEPTH -> Z.abs p < Str.int_limit.
Proof.
  intros Hp. pose proof str_facts.int_limit_large.
  unfold STACK_DEPTH in *. lia.
Qed.

Lemma safe_push val : safe any (push val).
Proof.
  unfold push.
  eapply safe_bind.
  { apply (safe_gets (fun p => 0 <= p <= STACK_DEPTH)).
    intros s Hs. apply (wf_sp s Hs). }
  intros p Hp. destruct (Z.leb_spec STACK_DEPTH p).
  { rewrite (raise_formatted_within _ _ (sp_within p Hp)). apply safe_raise. }
  eapply safe_bind; [apply (safe_gets (bytes 4)), wf_stack_bytes|intros l Hl].
  eapply safe_bind.
  { apply (safe_store 4 l p _ Hl); [apply byte_land|].
    unfold STACK_DEPTH in *. lia. }
  intros l' Hl'.
  eapply safe_bind.
  { apply safe_modify. intros s Hs. now apply wf_with_stack. }
  intros _ _. apply safe_modify. intros s Hs.
  apply wf_set_sp; [assumption|unfold STACK_DEPTH in *; lia].
Qed.

Lemma safe_pop : safe byte pop.
Proof.
  unfold pop.
  eapply safe_bind.
  { apply (safe_gets (fun p => 0 <= p <= STACK_DEPTH)).
    intros s Hs. apply (wf_sp s Hs). }
  intros p Hp. destruct (Z.leb_spec p 0).
  { rewrite (raise_formatted_within _ _ (sp_within p Hp)). apply safe_raise. }
  eapply safe_bind.
  { apply safe_modify. intros s Hs.
    apply wf_set_sp; [assumption|unfold STACK_DEPTH in *; lia]. }
  intros _ _.
  eapply safe_bind; [apply (safe_gets (bytes 4)), wf_stack_bytes|intros l Hl].
  apply (safe_index 4 l _ Hl). unfold STACK_DEPTH in *. lia.
Qed.

Lemma safe_flags_zc v : safe any (set_zc v).
Proof.
  unfold set_zc. cbv zeta.
  eapply safe_bind; [apply safe_modify; intros s Hs; now apply wf_set_z|].
  intros _ _. apply safe_modify. intros s Hs. now apply wf_set_c.
Qed.

Lemma safe_flags_z v : safe any (set_z_only v).
Proof. apply safe_modify. intros s Hs. now apply wf_set_z. Qed.

Lemma safe_flags_z_clear_c v : safe any (set_z_clear_c v).
Proof.
  unfold set_z_clear_c.
  eapply safe_bind; [apply safe_modify; intros s Hs; now apply wf_set_z|].
  intros _ _. apply safe_modify. intros s Hs. now apply wf_set_c.
Qed.

Lemma safe_reg_mode_lookup p rb :
  0 <= rb <= 1 -> safe any (reg_mode_lookup p rb).
Proof.
  intros Hrb s Hs.
  destruct (reg_mode_lookup_spec p rb s Hrb) as (x & _ & ->). now split.
Qed.

Lemma safe_resolve_source mm rb p :
  0 <= mm <= 3 -> 0 <= rb <= 1 -> safe byte (resolve_source mm rb p).
Proof.
  intros Hmm Hrb. unfold resolve_source.
  repeat case_decide; try lia.
  - apply safe_fetch.
  - eapply safe_bind; [now apply safe_reg_mode_lookup|intros x _].
    apply safe_get_reg.
  - eapply safe_bind; [apply safe_fetch|intros addr _]. apply safe_mem_read.
  - eapply safe_bind; [apply safe_fetch|intros offset _].
    eapply safe_bind; [apply (safe_gets (bytes 2)), wf_r_bytes|intros l Hl].
    eapply safe_bind; [apply (safe_index 2 l rb Hl); lia|intros base _].
    apply safe_mem_read.
Qed.

Lemma safe_resolve_dest mm rb p v :
  0 <= mm <= 3 -> 0 <= rb <= 1 -> safe any (resolve_dest mm rb p v).
Proof.
  intros Hmm Hrb. unfold resolve_dest.
  repeat case_decide; try lia.
  - apply safe_raise.
  - eapply safe_bind; [now apply safe_reg_mode_lookup|intros x _].
    apply safe_set_reg.
  - eapply safe_bind; [apply safe_fetch|intros addr _]. apply safe_mem_write.
  - eapply safe_bind; [apply safe_fetch|intros offset _].
    eapply safe_bind; [apply (safe_gets (bytes 2)), wf_r_bytes|intros l Hl].
    eapply safe_bind; [apply (safe_index 2 l rb Hl); lia|intros base _].
    apply safe_mem_write.
Qed.

Lemma byte_land_bytes x y : byte x -> byte y -> byte (Z.land x y).
Proof.
  intros Hx Hy. apply (byte_bitwise Z.land); try assumption.
  - intros n Hn. rewrite Z.land_spec. destruct (Z.testbit x n); auto.
  - apply Z.land_nonneg. unfold byte in *. lia.
Qed.

Lemma byte_lor_bytes x y : byte x -> byte y -> byte (Z.lor x y).
Proof.
  intros Hx Hy. apply (byte_bitwise Z.lor); try assumption.
  - intros n Hn. rewrite Z.lor_spec.
    destruct (Z.testbit x n), (Z.testbit y n); auto.
  - apply Z.lor_nonneg. unfold byte in *. lia.
Qed.

Lemma byte_lxor_bytes x y : byte x -> byte y -> byte (Z.lxor x y).
Proof.
  intros Hx Hy. apply (byte_bitwise Z.lxor); try assumption.
  - intros n Hn. rewrite Z.lxor_spec.
    destruct (Z.testbit x n), (Z.testbit y n); auto.
  - apply Z.lxor_nonneg. unfold byte in *. lia.
Qed.

Lemma safe_set_flag_z b : safe any (Py.modify (set_z b)).
Proof. apply safe_modify. intros s Hs. now apply wf_set_z. Qed.

Lemma safe_set_flag_c b : safe any (Py.modify (set_c b)).
Proof. apply safe_modify. intros s Hs. now apply wf_set_c. Qed.

Lemma safe_set_acc v : byte v -> safe any (Py.modify (set_a v)).
Proof. intros Hv. apply safe_modify. intros s Hs. now apply wf_set_a. Qed.

Lemma safe_acc : safe byte (Py.gets a).
Proof. apply safe_gets. intros s Hs. apply (wf_a s Hs). Qed.

Lemma safe_alu_exec mnemonic src : byte src -> safe any (alu_exec mnemonic src).
Proof.
  intros Hsrc. unfold alu_exec.
  eapply safe_bind; [apply safe_acc|intros acc Hacc].
  destruct mnemonic; cbv zeta.
  - eapply safe_bind; [apply safe_flags_zc|intros _ _].
    apply safe_set_acc, byte_land.
  - eapply safe_bind; [apply safe_set_flag_c|intros _ _].
    eapply safe_bind; [apply safe_set_acc, byte_land|intros _ _].
    eapply safe_bind; [apply safe_acc|intros acc' _]. apply safe_set_flag_z.
  - eapply safe_bind; [apply safe_set_acc; now apply byte_land_bytes|intros _ _].
    eapply safe_bind; [apply safe_acc|intros acc' _].
    apply safe_flags_z_clear_c.
  - eapply safe_bind; [apply safe_set_acc; now apply byte_lor_bytes|intros _ _].
    eapply safe_bind; [apply safe_acc|intros acc' _].
    apply safe_flags_z_clear_c.
  - eapply safe_bind; [apply safe_set_acc; now apply byte_lxor_bytes|intros _ _].
    eapply safe_bind; [apply safe_acc|intros acc' _].
    apply safe_flags_z_clear_c.
  - eapply safe_bind; [apply safe_set_flag_c|intros _ _]. apply safe_set_flag_z.
Qed.

Lemma safe_group_reg g opcode pc_before mm :
  safe any (group_reg g opcode pc_before mm).
Proof.
  unfold group_reg. destruct (Py.dict_get REG_ENCODING mm).
  - now apply safe_ret.
  - apply safe_raise.
Qed.

Lemma safe_set_pc v : byte v -> safe any (Py.modify (set_pc v)).
Proof. intros Hv. apply safe_modify. intros s Hs. now apply wf_set_pc. Qed.

Lemma safe_execute opcode pc_before : safe any (execute opcode pc_before).
Proof.
  unfold execute. cbv zeta.
  pose proof (mm_range opcode) as Hmm.
  pose proof (r_bit_range opcode) as Hrb.
  destruct (Py.dict_get LD_OPCODES _) as [[_ primary_reg]|].
  { eapply safe_bind; [now apply safe_resolve_source|intros v _].
    apply safe_set_reg. }
  destruct (Py.dict_get ST_OPCODES _) as [[_ primary_reg]|].
  { eapply safe_bind; [apply safe_get_reg|intros v _].
    now apply safe_resolve_dest. }
  destruct (Py.dict_get ALU_OPCODES _) as [mnemonic|].
  { eapply safe_bind; [now apply safe_resolve_source|intros v Hv].
    now apply safe_alu_exec. }
  case_decide.
  { eapply safe_bind; [apply safe_fetch|intros addr Haddr].
    now apply safe_set_pc. }
  destruct (Py.dict_get BRANCH_CONDITION opcode) as [[_ cond_fn]|].
  { eapply safe_bind; [apply safe_fetch|intros disp_byte _].
    eapply safe_bind; [apply (safe_gets any); now intros|intros zf _].
    eapply safe_bind; [apply (safe_gets any); now intros|intros cf _].
    destruct (cond_fn zf cf); [|now apply safe_ret].
    eapply safe_bind; [apply (safe_gets any); now intros|intros p _].
    apply safe_set_pc, byte_land. }
  case_decide.
  { eapply safe_bind; [apply safe_fetch|intros addr Haddr].
    eapply safe_bind; [apply (safe_gets any); now intros|intros p _].
    eapply safe_bind; [apply safe_push|intros _ _].
    now apply safe_set_pc. }
  case_decide.
  { eapply safe_bind; [apply safe_pop|intros p Hp]. now apply safe_set_pc. }
  case_decide.
  { eapply safe_bind; [apply safe_group_reg|intros x _].
    eapply safe_bind; [apply safe_get_reg|intros v _]. apply safe_push. }
  case_decide.
  { eapply safe_bind; [apply safe_group_reg|intros x _].
    eapply safe_bind; [apply safe_pop|intros v _]. apply safe_set_reg. }
  case_decide.
  { eapply safe_bind; [apply safe_group_reg|intros x _].
    eapply safe_bind; [apply safe_get_reg|intros v _].
    eapply safe_bind; [apply safe_set_reg|intros _ _]. apply safe_flags_z. }
  case_decide.
  { eapply safe_bind; [apply safe_group_reg|intros x _].
    eapply safe_bind; [apply safe_get_reg|intros v _].
    eapply safe_bind; [apply safe_set_reg|intros _ _]. apply safe_flags_z. }
  case_decide; [now apply safe_ret|].
  case_decide.
  { apply safe_modify. intros s Hs. now apply wf_set_halted. }
  apply safe_raise.
Qed.

Lemma safe_step : safe any step.
Proof.
  unfold step.
  eapply safe_bind; [apply (safe_gets any); now intros|intros h _].
  destruct h; [now apply safe_ret|].
  eapply safe_bind; [apply (safe_gets any); now intros|intros p _].
  eapply safe_bind; [apply (safe_gets any); now intros|intros l _].
  case_decide; [|apply safe_raise].
  eapply safe_bind; [apply safe_fetch|intros opcode _].
  eapply safe_bind; [apply safe_execute|intros _ _].
  eapply safe_bind.
  { apply safe_modify. intros s Hs. now apply wf_set_cycles. }
  intros _ _.
  eapply safe_bind; [apply (safe_gets any); now intros|intros h _].
  now apply safe_ret.
Qed.


(** *** Fields a method leaves alone *)

(** The method ends with field [f] as it found it, whether it returns or
    raises. *)
Definition keeps {T V} (f : CPU -> V) (m : op T) : Prop :=
  forall s, match m s with Py.Ok _ s' | Py.Raise _ s' => f s' = f s end.

Section Keeps.
Context {V : Type} (f : CPU -> V).

Lemma keeps_ret {T} (v : T) : keeps f (Py.ret v).
Proof. now intros s. Qed.

Lemma keeps_raise {T} e : keeps f (@Py.raise _ _ T e).
Proof. now intros s. Qed.

Lemma keeps_gets {T} (g : CPU -> T) : keeps f (Py.gets g).
Proof. now intros s. Qed.

Lemma keeps_modify g : (forall s, f (g s) = f s) -> keeps f (Py.modify g).
Proof. intros H s. apply H. Qed.

Lemma keeps_bind {T U} (m : op T) (k : T -> op U) :
  keeps f m -> (forall v, keeps f (k v)) -> keeps f (Py.bind m k).
Proof.
  intros Hm Hk s. unfold Py.bind. specialize (Hm s).
  destruct (m s) as [v s'|e s']; [|assumption].
  specialize (Hk v s'). destruct (k v s'); congruence.
Qed.

End Keeps.

Ltac keeps_tac :=
  repeat first
    [ apply keeps_ret | apply keeps_raise | apply keeps_gets
    | apply keeps_modify; reflexivity
    | apply keeps_bind; [|intros ?]
    | case_match
    | solve [auto] ].

Lemma fetch_keeps_cycles : keeps cycles fetch.
Proof. unfold fetch. unfold_cpu. keeps_tac. Qed.

Lemma execute_keeps_cycles opcode pc_before :
  keeps cycles (execute opcode pc_before).
Proof. unfold execute. unfold_cpu. keeps_tac. Qed.

(** A step that raises has not counted a cycle. *)
Lemma step_raise_cycles s e s' : step s = Py.Raise e s' -> cycles s' = cycles s.
Proof.
  intros H. destruct (halted s) eqn:Hh.
  { rewrite step_halted in H by assumption. discriminate. }
  destruct (decide (pc s ∈ loaded s)) as [Hl|Hl].
  2:{ rewrite step_unloaded in H by assumption. now injection H as _ <-. }
  rewrite step_running in H by assumption.
  pose proof (fetch_keeps_cycles s) as Hf.
  destruct (fetch s) as [opcode s0|]; [|injection H as _ <-; assumption].
  pose proof (execute_keeps_cycles opcode (pc s) s0) as He.
  destruct (execute opcode (pc s) s0) as [[] s1|]; [discriminate|].
  cbn in H. injection H as _ <-. congruence.
Qed.

(** *** The run loop on a well-formed CPU *)

(** What [run] promises about the exit code and the state it leaves. *)
Definition exit_ok (max_cycles : Z) (s : CPU) (code : Z) (s' : CPU) : Prop :=
  wf s' /\ (code = 0 \/ code = 1) /\
  (code = 0 -> halted s' = true /\ cycles s' < max_cycles) /\
  cycles s <= cycles s' <= Z.max (cycles s) max_cycles.

Lemma run_loop_exits fuel max_cycles : forall s,
  wf s -> (Z.to_nat (max_cycles - cycles s) <= fuel)%nat ->
  Z.abs max_cycles < Str.int_limit -> Z.abs (cycles s) < Str.int_limit ->
  exists code s', run_loop fuel max_cycles s = Some (Py.Ok code s') /\
                  exit_ok max_cycles s code s'.
Proof.
  intros s Hs Hfuel Hlimit. revert s Hs Hfuel.
  assert (Hexit : forall s s0, wf s0 -> cycles s <= cycles s0 ->
            cycles s0 <= Z.max (cycles s) max_cycles ->
            (cycles s0 < max_cycles -> halted s0 = true) ->
            exists code s', Some (run_exit max_cycles s0) = Some (Py.Ok code s') /\
                            exit_ok max_cycles s code s').
  { intros s s0 Hs0 Hle Hmax Hh. unfold run_exit, print_int. mred.
    rewrite (str_facts.str_within _ Hlimit).
    destruct (Z.leb_spec max_cycles (cycles s0)).
    - exists 1, s0. split; [reflexivity|].
      split; [assumption|]. split; [auto|]. split; [discriminate|lia].
    - exists 0, s0. split; [reflexivity|].
      split; [assumption|]. split; [auto|]. split; [auto|lia]. }
  induction fuel as [|fuel IH]; intros s Hs Hfuel Hcycles; cbn [run_loop].
  - destruct (Z.ltb_spec (cycles s) max_cycles); [lia|].
    apply Hexit; [assumption|lia|lia|lia].
  - destruct (Z.ltb_spec (cycles s) max_cycles) as [Hlt|Hge].
    2:{ apply Hexit; [assumption|lia|lia|lia]. }
    pose proof (safe_step s Hs) as Hsafe.
    destruct (step s) as [b s'|e s'] eqn:Hstep.
    + destruct Hsafe as [Hs' _].
      pose proof (step_cycles _ _ _ Hstep) as [Hb Hc].
      destruct (halted s) eqn:Hh.
      * rewrite step_halted in Hstep by assumption.
        injection Hstep as <- <-.
        apply Hexit; [assumption|lia|lia|auto].
      * destruct b.
        -- destruct (IH s' Hs') as (code & s2 & Hrun & Hs2 & Hcode & Hzero & Hcyc);
             [lia|lia|].
           exists code, s2. split; [assumption|].
           split; [assumption|]. split; [assumption|]. split; [assumption|lia].
        -- apply Hexit; [assumption|lia|lia|].
           intros _. now destruct (halted s').
    + destruct Hsafe as [Hs' He].
      destruct e; try discriminate.
      pose proof (step_raise_cycles _ _ _ Hstep) as Hsame.
      exists 1, s'. split.
      { unfold run_error, print_int. mred.
        rewrite str_facts.str_within by (rewrite Hsame; assumption).
        reflexivity. }
      split; [assumption|]. split; [auto|]. split; [discriminate|lia].
Qed.

(** X1.  [run] on a well-formed CPU returns, when [max_cycles] and the
    cycle counter are numbers of at most 4300 digits (those that Python
    can print): it does not raise and does not loop for ever.  The exit
    code is 0 or 1; it is 0 only when the CPU has halted with fewer than
    [max_cycles] cycles counted; and the cycle counter never decreases
    and never passes [max_cycles] (or its value at the call when that was
    already larger). *)
Theorem run_always_returns_exit_code (max_cycles : Z) (s : CPU) :
  wf s ->
  Z.abs max_cycles < Str.int_limit -> Z.abs (cycles s) < Str.int_limit ->
  exists code s',
    run max_cycles s = Some (Py.Ok code s') /\
    wf s' /\ (code = 0 \/ code = 1) /\
    (code = 0 -> halted s' = true /\ cycles s' < max_cycles) /\
    cycles s <= cycles s' <= Z.max (cycles s) max_cycles.
Proof.
  intros Hs Hmax Hcycles. apply run_loop_exits; [assumption|lia|assumption..].
Qed.

Lemma run_always_returns_exit_code_witness :
  exists code s',
    run 100 (boot [(0, 0x90); (1, 0x60); (2, 0x00)]) = Some (Py.Ok code s') /\
    wf s' /\ (code = 0 \/ code = 1) /\
    (code = 0 -> halted s' = true /\ cycles s' < 100) /\
    cycles (boot [(0, 0x90); (1, 0x60); (2, 0x00)]) <= cycles s'
      <= Z.max (cycles (boot [(0, 0x90); (1, 0x60); (2, 0x00)])) 100.
Proof.
  apply (run_always_returns_exit_code 100 (boot [(0, 0x90); (1, 0x60); (2, 0x00)])).
  - apply wf_boot.
  - vm_compute. reflexivity.
  - vm_compute. reflexivity.
Defined.

(** X2.  One step keeps the CPU well formed (the registers, the stack and
    the 256 memory cells hold bytes, PC is a byte, SP is between 0 and
    the stack depth), and the only exception it can raise is
    [RuntimeError]: no subscript goes out of range. *)
Theorem step_keeps_cpu_well_formed (s : CPU) :
  wf s ->
  match step s with
  | Py.Ok _ s' => wf s'
  | Py.Raise e s' => wf s' /\ exists f, e = Py.RuntimeError f
  end.
Proof.
  intros Hs. pose proof (safe_step s Hs) as H.
  destruct (step s) as [b s'|e s']; [apply H|].
  destruct H as [Hs' He]. split; [assumption|].
  destruct e; try discriminate. eauto.
Qed.

Lemma step_keeps_cpu_well_formed_witness :
  match step (boot [(0, 0x78)]) with
  | Py.Ok _ s' => wf s'
  | Py.Raise e s' => wf s' /\ exists f, e = Py.RuntimeError f
  end.
Proof. apply (step_keeps_cpu_well_formed (boot [(0, 0x78)])), wf_boot. Defined.

(** *** Subroutine call and return *)

Ltac mrun :=
  cbv beta iota zeta delta [Py.bind Py.gets Py.modify Py.ret Py.raise].

Lemma getitem_nonneg {T} (l : list T) i :
  0 <= i -> Py.getitem l i = l !! Z.to_nat i.
Proof. intros Hi. unfold Py.getitem. now destruct (Z.leb_spec 0 i); [|lia]. Qed.

(** Two CPUs with the same fields are the same. *)
Lemma cpu_ext (s s' : CPU) :
  a s = a s' -> r s = r s' -> pc s = pc s' -> z s = z s' -> c s = c s' ->
  sp s = sp s' -> stack s = stack s' -> mem s = mem s' ->
  loaded s = loaded s' -> halted s = halted s' -> cycles s = cycles s' ->
  stdout s = stdout s' -> s = s'.
Proof. destruct s, s'. cbn. intros. congruence. Qed.

Lemma fetch_at s v :
  wf s -> Py.getitem (mem s) (pc s) = Some v ->
  fetch s = Py.Ok v (set_pc (Z.land (pc s + 1) 0xFF) s).
Proof.
  intros Hs Hv. destruct (fetch_spec s Hs) as (w & Hw & _ & ->). congruence.
Qed.

Lemma execute_call pc_before :
  execute 0x70 pc_before
  = Py.bind fetch (fun addr => Py.bind (Py.gets pc) (fun p =>
      Py.bind (push p) (fun _ => Py.modify (set_pc addr)))).
Proof. reflexivity. Qed.

Lemma execute_ret pc_before :
  execute 0x78 pc_before = Py.bind pop (fun p => Py.modify (set_pc p)).
Proof. reflexivity. Qed.

Lemma next_next x : Z.land (Z.land (x + 1) 0xFF + 1) 0xFF = Z.land (x + 2) 0xFF.
Proof. rewrite !land_255. Z.div_mod_to_equations. lia. Qed.

Lemma land_byte_id x : byte x -> Z.land x 0xFF = x.
Proof. intros Hx. rewrite land_255. apply Z.mod_small. apply Hx. Qed.

(** X3.  CALL and RET pair up.  When the stack is not full, CALL jumps to
    its operand and pushes the address of the next instruction; a RET
    executed there comes back to that address with the stack pointer as it
    was.  Nothing else of the CPU changes, but the cycle count, which grows
    by two, and the stack cell used. *)
Theorem call_then_ret_returns (s : CPU) (target : Z) :
  wf s -> halted s = false -> pc s ∈ loaded s ->
  Py.getitem (mem s) (pc s) = Some 0x70 ->
  Py.getitem (mem s) (Z.land (pc s + 1) 0xFF) = Some target ->
  sp s < STACK_DEPTH ->
  target ∈ loaded s ->
  Py.getitem (mem s) target = Some 0x78 ->
  exists s1 s2,
    step s = Py.Ok true s1 /\ pc s1 = target /\ sp s1 = sp s + 1 /\
    step s1 = Py.Ok true s2 /\
    s2 = set_cycles (cycles s + 2)
           (set_pc (Z.land (pc s + 2) 0xFF)
              (set_stack (<[Z.to_nat (sp s) := Z.land (pc s + 2) 0xFF]> (stack s))
                 s)).
Proof.
  intros Hs Hh Hl Hop Harg Hsp Htl Htop.
  pose proof (wf_after_fetch s Hs) as Hs0.
  set (s0 := set_pc (Z.land (pc s + 1) 0xFF) s) in *.
  assert (Htarget : byte target).
  { eapply getitem_byte; [apply (wf_mem s Hs)|eassumption]. }
  assert (Hstack : (Z.to_nat (sp s) < length (stack s))%nat).
  { rewrite (wf_stack_len s Hs). pose proof (wf_sp s Hs).
    unfold STACK_DEPTH in *. lia. }
  (* the CALL *)
  assert (Hcall : execute 0x70 (pc s) s0 =
                  Py.Ok tt (set_pc target
                    (set_sp (sp s + 1)
                       (set_stack (<[Z.to_nat (sp s) := Z.land (pc s + 2) 0xFF]>
                                     (stack s))
                          (set_pc (Z.land (pc s + 2) 0xFF) s))))).
  { rewrite execute_call.
    rewrite (bind_Ok _ _ _ _ _ (fetch_at s0 target Hs0 Harg)). mred.
    unfold push, store. mrun. cbn [sp stack pc set_pc]. subst s0. cbn [sp stack pc set_pc].
    destruct (Z.leb_spec STACK_DEPTH (sp s)); [lia|].
    mrun. cbn [sp stack pc set_pc].
    rewrite setitem_in_range
      by (rewrite (wf_stack_len s Hs); pose proof (wf_sp s Hs);
          unfold STACK_DEPTH in *; lia).
    mrun.
    rewrite next_next.
    rewrite (land_byte_id (Z.land (pc s + 2) 255)) by apply byte_land.
    reflexivity. }
  eexists _, _.
  rewrite (step_fetched s 0x70 Hs Hh Hl Hop). fold s0. rewrite Hcall.
  cbn [finish halted set_pc set_sp set_stack set_cycles cycles].
  rewrite Hh. cbn [negb].
  split; [reflexivity|]. split; [reflexivity|]. split; [reflexivity|].
  (* the RET *)
  match goal with |- step ?x = _ /\ _ => set (s1 := x) end.
  assert (Hs1 : wf s1).
  { subst s1. apply wf_set_cycles, wf_set_pc; [|assumption].
    replace (Z.land (pc s + 2) 255) with (Z.land (pc s + 2) 0xFF) by reflexivity.
    pose proof (wf_push (set_pc (Z.land (pc s + 2) 0xFF) s)
                  (Z.land (pc s + 2) 0xFF)) as H.
    cbn [sp stack set_pc] in H. apply H; [|apply byte_land|assumption].
    apply wf_set_pc; [assumption|apply byte_land]. }
  rewrite (step_fetched s1 0x78 Hs1); try assumption; try reflexivity.
  rewrite execute_ret. unfold pop, index. mrun. subst s1. cbn [sp set_cycles set_pc set_sp stack set_stack].
  destruct (Z.leb_spec (sp s + 1) 0); [pose proof (wf_sp s Hs); lia|].
  mrun. cbn [sp pc stack set_cycles set_pc set_sp set_stack].
  replace (sp s + 1 - 1) with (sp s) by lia.
  rewrite getitem_nonneg by (pose proof (wf_sp s Hs); lia).
  rewrite list_lookup_insert_eq by assumption.
  cbn [finish halted cycles set_cycles set_pc set_sp set_stack].
  rewrite Hh. cbn [negb]. split; [reflexivity|].
  apply cpu_ext;
    cbn [a r pc z c sp stack mem loaded halted cycles stdout
         set_cycles set_pc set_sp set_stack];
    try reflexivity; lia.
Qed.

Lemma call_then_ret_returns_witness :
  exists s1 s2,
    step (boot [(0, 0x70); (1, 5); (5, 0x78)]) = Py.Ok true s1 /\
    pc s1 = 5 /\ sp s1 = sp (boot [(0, 0x70); (1, 5); (5, 0x78)]) + 1 /\
    step s1 = Py.Ok true s2 /\
    s2 = set_cycles (cycles (boot [(0, 0x70); (1, 5); (5, 0x78)]) + 2)
           (set_pc (Z.land (pc (boot [(0, 0x70); (1, 5); (5, 0x78)]) + 2) 0xFF)
              (set_stack
                 (<[Z.to_nat (sp (boot [(0, 0x70); (1, 5); (5, 0x78)])) :=
                      Z.land (pc (boot [(0, 0x70); (1, 5); (5, 0x78)]) + 2) 0xFF]>
                    (stack (boot [(0, 0x70); (1, 5); (5, 0x78)])))
                 (boot [(0, 0x70); (1, 5); (5, 0x78)]))).
Proof.
  apply (call_then_ret_returns (boot [(0, 0x70); (1, 5); (5, 0x78)]) 5).
  - apply wf_boot.
  - reflexivity.
  - vm_compute. set_solver.
  - reflexivity.
  - reflexivity.
  - vm_compute. reflexivity.
  - vm_compute. set_solver.
  - reflexivity.
Defined.

(** *** Memory and the I/O port *)

Lemma mem_read_lookup s addr :
  mem_read addr s =
  match mem s !! Z.to_nat (Z.land addr 0xFF) with
  | Some v => Py.Ok v s
  | None => Py.Raise Py.IndexError s
  end.
Proof.
  unfold mem_read, index. mred.
  rewrite getitem_nonneg by (pose proof (byte_land addr) as H; apply H).
  now destruct (mem s !! _).
Qed.

(** X4.  [mem_write] stores the low byte of the value in the cell
    [addr mod 256] and in no other cell: a later [mem_read] of that cell
    gives the byte back, and of any other cell gives what it gave before.
    The byte is also appended to the output stream exactly when the cell
    is the I/O port 0xFF; otherwise the output stream is unchanged. *)
Theorem mem_write_then_read (s : CPU) (addr val : Z) :
  wf s ->
  exists s',
    mem_write addr val s = Py.Ok tt s' /\
    (forall addr',
        mem_read addr' s' =
        if decide (Z.land addr' 0xFF = Z.land addr 0xFF)
        then Py.Ok (Z.land val 0xFF) s'
        else match mem_read addr' s with
             | Py.Ok v _ => Py.Ok v s'
             | Py.Raise e _ => Py.Raise e s'
             end) /\
    stdout s' = (if decide (Z.land addr 0xFF = IO_ADDR)
                 then stdout s ++ [Z.land val 0xFF] else stdout s).
Proof.
  intros Hs.
  pose proof (byte_land addr) as Haddr. unfold byte in Haddr.
  assert (Hmem : forall s', mem s' = <[Z.to_nat (Z.land addr 0xFF) := Z.land val 0xFF]> (mem s) ->
            forall addr',
              mem_read addr' s' =
              if decide (Z.land addr' 0xFF = Z.land addr 0xFF)
              then Py.Ok (Z.land val 0xFF) s'
              else match mem_read addr' s with
                   | Py.Ok v _ => Py.Ok v s'
                   | Py.Raise e _ => Py.Raise e s'
                   end).
  { intros s' Hs' addr'. rewrite !mem_read_lookup, Hs'.
    pose proof (byte_land addr') as Haddr'. unfold byte in Haddr'.
    case_decide as Heq.
    - rewrite Heq, list_lookup_insert_eq; [reflexivity|].
      rewrite (wf_mem_len s Hs). lia.
    - rewrite list_lookup_insert_ne by lia. now destruct (mem s !! _). }
  unfold mem_write, store. cbv zeta. mred.
  rewrite setitem_in_range by (rewrite (wf_mem_len s Hs); lia). mred.
  case_decide; mred; eexists; (split; [reflexivity|]);
    (split; [now apply Hmem|reflexivity]).
Qed.

Lemma mem_write_then_read_witness :
  exists s',
    mem_write 0x1FF 0x141 (boot []) = Py.Ok tt s' /\
    (forall addr',
        mem_read addr' s' =
        if decide (Z.land addr' 0xFF = Z.land 0x1FF 0xFF)
        then Py.Ok (Z.land 0x141 0xFF) s'
        else match mem_read addr' (boot []) with
             | Py.Ok v _ => Py.Ok v s'
             | Py.Raise e _ => Py.Raise e s'
             end) /\
    stdout s' = (if decide (Z.land 0x1FF 0xFF = IO_ADDR)
                 then stdout (boot []) ++ [Z.land 0x141 0xFF]
                 else stdout (boot [])).
Proof. apply (mem_write_then_read (boot []) 0x1FF 0x141), wf_boot. Defined.

(** *** The flags *)

Ltac keeps_or_absurd :=
  repeat first
    [ apply keeps_ret | apply keeps_raise | apply keeps_gets
    | apply keeps_modify; reflexivity
    | apply keeps_bind; [|intros ?]
    | contradiction
    | case_match
    | solve [auto] ].

Lemma execute_keeps_c opcode pc_before :
  Py.dict_get ALU_OPCODES (Z.land (Z.shiftr opcode 3) 0x1F) = None ->
  keeps c (execute opcode pc_before).
Proof.
  intros Halu. unfold execute. cbv zeta. rewrite Halu.
  unfold_cpu. keeps_or_absurd.
Qed.

Lemma execute_keeps_z opcode pc_before :
  Py.dict_get ALU_OPCODES (Z.land (Z.shiftr opcode 3) 0x1F) = None ->
  Z.land (Z.shiftr opcode 3) 0x1F <> 18 ->
  Z.land (Z.shiftr opcode 3) 0x1F <> 19 ->
  keeps z (execute opcode pc_before).
Proof.
  intros Halu H18 H19. unfold execute. cbv zeta. rewrite Halu.
  unfold_cpu. keeps_or_absurd.
Qed.

Lemma fetch_keeps_flags : keeps c fetch /\ keeps z fetch.
Proof. split; unfold fetch; unfold_cpu; keeps_tac. Qed.

Lemma step_keeps {V} (f : CPU -> V) s :
  keeps f fetch ->
  (forall opcode, Py.getitem (mem s) (pc s) = Some opcode ->
                  keeps f (execute opcode (pc s))) ->
  (forall s0 v, f (set_cycles v s0) = f s0) ->
  match step s with Py.Ok _ s' | Py.Raise _ s' => f s' = f s end.
Proof.
  intros Hf He Hc. destruct (halted s) eqn:Hh.
  { now rewrite step_halted. }
  destruct (decide (pc s ∈ loaded s)) as [Hl|Hl].
  2:{ now rewrite step_unloaded. }
  rewrite step_running by assumption.
  specialize (Hf s).
  destruct (fetch s) as [opcode s0|] eqn:Hfetch; [|assumption].
  assert (Hop : Py.getitem (mem s) (pc s) = Some opcode).
  { revert Hfetch. unfold fetch, index. mrun.
    destruct (Py.getitem (mem s) (pc s)); [|discriminate].
    now intros [= -> _]. }
  specialize (He opcode Hop s0).
  destruct (execute opcode (pc s) s0) as [[] s1|]; cbn [finish].
  - rewrite Hc. congruence.
  - congruence.
Qed.

(** X5.  Only the ALU instructions change the carry flag, and only the
    ALU instructions and INC and DEC change the zero flag: when the byte
    at PC is not the opcode of ADD, SUB, AND, OR, XOR or CMP, the step
    ends, by return or by a fault, with C as it was; and with Z as it was
    too unless the opcode is of the INC or DEC group. *)
Theorem flags_change_only_in_alu_inc_dec (s : CPU) (opcode : Z) :
  Py.getitem (mem s) (pc s) = Some opcode ->
  Py.dict_get ALU_OPCODES (Z.land (Z.shiftr opcode 3) 0x1F) = None ->
  match step s with
  | Py.Ok _ s' | Py.Raise _ s' =>
      c s' = c s /\
      (Z.land (Z.shiftr opcode 3) 0x1F <> 18 ->
       Z.land (Z.shiftr opcode 3) 0x1F <> 19 -> z s' = z s)
  end.
Proof.
  intros Hop Halu.
  pose proof (step_keeps c s (proj1 fetch_keeps_flags)) as Hc.
  pose proof (step_keeps z s (proj2 fetch_keeps_flags)) as Hz.
  destruct (step s) as [b s'|e s'];
    (split; [apply Hc; [|reflexivity]|intros H18 H19; apply Hz; [|reflexivity]]);
    intros opcode' Hop'; assert (opcode' = opcode) as -> by congruence;
    try (now apply execute_keeps_c); now apply execute_keeps_z.
Qed.

Lemma flags_change_only_in_alu_inc_dec_witness :
  match step (set_c true (set_z true (boot [(0, 0x88)]))) with
  | Py.Ok _ s' | Py.Raise _ s' =>
      c s' = c (set_c true (set_z true (boot [(0, 0x88)]))) /\
      (Z.land (Z.shiftr 0x88 3) 0x1F <> 18 ->
       Z.land (Z.shiftr 0x88 3) 0x1F <> 19 ->
       z s' = z (set_c true (set_z true (boot [(0, 0x88)]))))
  end.
Proof.
  apply (flags_change_only_in_alu_inc_dec
           (set_c true (set_z true (boot [(0, 0x88)]))) 0x88);
    reflexivity.
Defined.

(** *** INC and DEC *)

Lemma r_pair s : wf s -> exists r0 r1, r s = [r0; r1] /\ byte r0 /\ byte r1.
Proof.
  intros Hs. pose proof (wf_r_len s Hs) as Hl. pose proof (wf_r s Hs) as Hb.
  destruct (r s) as [|r0 [|r1 [|]]]; try discriminate.
  exists r0, r1. split; [reflexivity|].
  inversion Hb as [|? ? H0 Hb']. inversion Hb'. auto.
Qed.

Lemma getitem_pair_0 {T} (x y : T) : Py.getitem [x; y] 0 = Some x.
Proof. reflexivity. Qed.

Lemma getitem_pair_1 {T} (x y : T) : Py.getitem [x; y] 1 = Some y.
Proof. reflexivity. Qed.

Lemma setitem_pair_0 {T} (x y v : T) : Py.setitem [x; y] 0 v = Some [v; y].
Proof. reflexivity. Qed.

Lemma setitem_pair_1 {T} (x y v : T) : Py.setitem [x; y] 1 v = Some [x; v].
Proof. reflexivity. Qed.

(** X6.  INC and DEC count modulo 256.  An opcode of the INC group
    (bits 7..3 = 10010) or of the DEC group (10011) whose low two bits
    name register [x] replaces the value [v] of [x] by [(v + 1) mod 256],
    or [(v - 1) mod 256]: 0xFF + 1 wraps to 0 and 0 - 1 to 0xFF.  Z is set
    exactly when the new value is 0, C keeps its value, and PC moves to
    the next byte. *)
Theorem inc_dec_wrap_around (s : CPU) (opcode : Z) (x : reg) :
  wf s -> halted s = false -> pc s ∈ loaded s ->
  Py.getitem (mem s) (pc s) = Some opcode ->
  18 <= Z.land (Z.shiftr opcode 3) 0x1F <= 19 ->
  Py.dict_get REG_ENCODING (Z.land opcode 0x03) = Some x ->
  exists v s',
    _get_reg x s = Py.Ok v s /\
    step s = Py.Ok true s' /\
    _get_reg x s' =
      Py.Ok ((if decide (Z.land (Z.shiftr opcode 3) 0x1F = 18)
              then v + 1 else v - 1) mod 256) s' /\
    (z s' = true <->
     (if decide (Z.land (Z.shiftr opcode 3) 0x1F = 18)
      then v + 1 else v - 1) mod 256 = 0) /\
    c s' = c s /\ pc s' = Z.land (pc s + 1) 0xFF /\ cycles s' = cycles s + 1.
Proof.
  intros Hs Hh Hl Hop Hi Hx.
  rewrite (step_fetched s opcode) by assumption.
  rewrite (execute_group opcode (pc s)) by lia. cbv zeta.
  destruct (decide (_ = 16)); [lia|]. destruct (decide (_ = 17)); [lia|].
  unfold group_reg. rewrite Hx.
  destruct (r_pair s Hs) as (r0 & r1 & Hr & Hr0 & Hr1).
  assert (Hland : forall w, Z.land (Z.land w 255) 255 = w mod 256).
  { intros w. rewrite !land_255. apply Z.mod_mod. lia. }
  destruct (decide (_ = 18)), x;
    unfold _get_reg, _set_reg, set_z_only, index, store;
    repeat (progress
      (mrun;
       cbn [r a z c pc cycles halted finish
            set_r set_z set_a set_pc set_cycles];
       rewrite ?Hr, ?getitem_pair_0, ?getitem_pair_1, ?setitem_pair_0,
         ?setitem_pair_1));
    rewrite Hh;
    eexists _, _; (split; [reflexivity|]); (split; [reflexivity|]);
    cbn [r a z c pc cycles set_r set_z set_a set_pc set_cycles];
    rewrite ?getitem_pair_0, ?getitem_pair_1, !Hland;
    (split; [reflexivity|]); (split; [apply Z.eqb_eq|]); auto.
Qed.

Lemma inc_dec_wrap_around_witness :
  exists v s',
    _get_reg R1 (boot [(0, 0x9A)]) = Py.Ok v (boot [(0, 0x9A)]) /\
    step (boot [(0, 0x9A)]) = Py.Ok true s' /\
    _get_reg R1 s' =
      Py.Ok ((if decide (Z.land (Z.shiftr 0x9A 3) 0x1F = 18)
              then v + 1 else v - 1) mod 256) s' /\
    (z s' = true <->
     (if decide (Z.land (Z.shiftr 0x9A 3) 0x1F = 18)
      then v + 1 else v - 1) mod 256 = 0) /\
    c s' = c (boot [(0, 0x9A)]) /\
    pc s' = Z.land (pc (boot [(0, 0x9A)]) + 1) 0xFF /\
    cycles s' = cycles (boot [(0, 0x9A)]) + 1.
Proof.
  apply (inc_dec_wrap_around (boot [(0, 0x9A)]) 0x9A R1).
  - apply wf_boot.
  - reflexivity.
  - vm_compute. set_solver.
  - reflexivity.
  - vm_compute. split; discriminate.
  - reflexivity.
Defined.

End cpu_facts.

(** * Properties of the assembler *)

Module assembler_facts.
Import assembler.

Open Scope string_scope.
Open Scope Z_scope.
Open Scope list_scope.

(** *** The register-mode tables *)

(** The R bit of an opcode, as [step] extracts it. *)
Definition r_bit_field (opcode : Z) : Z := Z.land (Z.shiftr opcode 2) 1.

(** The IIIII field of an opcode, as [step] extracts it. *)
Definition iiiii_field (opcode : Z) : Z := Z.land (Z.shiftr opcode 3) 0x1F.

(** The row of the simulator's table for a primary register. *)
Definition sim_row (p : simulator.reg) (r_bit : Z) : option simulator.reg :=
  match Py.dict_get simulator.REG_MODE_MAP p with
  | Some row => Py.dict_get row r_bit
  | None => None
  end.

(** C1.  The register names of the assembler are those of the simulator.
    In register mode the R bit selects, per the cross table, one of the
    two registers that are not the primary one.  For a primary register
    [p] and another register [o], the assembler's table has an R bit for
    the pair, the simulator's table sends that bit back to [o], and the
    opcode [encode_ld_st] emits for LD or ST in register mode decodes in
    the simulator to the same primary register, mode 01 and register
    [o]. *)
Theorem reg_mode_tables_agree :
  REGISTER_NAMES = map simulator.reg_name [simulator.A; simulator.R0; simulator.R1] /\
  (sim_row simulator.A 0 = Some simulator.R0 /\
   sim_row simulator.A 1 = Some simulator.R1 /\
   sim_row simulator.R0 0 = Some simulator.A /\
   sim_row simulator.R0 1 = Some simulator.R1 /\
   sim_row simulator.R1 0 = Some simulator.A /\
   sim_row simulator.R1 1 = Some simulator.R0) /\
  (forall p r_bit, r_bit = 0 \/ r_bit = 1 ->
     exists o, sim_row p r_bit = Some o /\ o <> p) /\
  (forall p o, o <> p ->
     exists r_bit,
       Py.dict_get REG_MODE_R_BIT (simulator.reg_name p, simulator.reg_name o)
         = Some r_bit /\
       sim_row p r_bit = Some o) /\
  (forall (is_store : bool) p o value, o <> p ->
     exists opcode name,
       encode_ld_st is_store (simulator.reg_name p) Reg
         (Some (simulator.reg_name o)) value = Py.Return (opcode, None) /\
       Z.land opcode 0x03 = 1 /\
       Py.dict_get (if is_store then simulator.ST_OPCODES
                    else simulator.LD_OPCODES) (iiiii_field opcode)
         = Some (name, p) /\
       sim_row p (r_bit_field opcode) = Some o /\
       forall s, simulator.reg_mode_lookup p (r_bit_field opcode) s
                 = Py.Ok o s).
Proof.
  split; [reflexivity|]. split; [repeat split|]. split; [|split].
  - intros p r_bit [-> | ->]; destruct p; eexists; (split; [reflexivity|]);
      discriminate.
  - intros p o Hne. destruct p, o; try contradiction;
      eexists; split; reflexivity.
  - intros is_store p o value Hne.
    destruct is_store, p, o; try contradiction;
      eexists _, _; repeat split; reflexivity.
Qed.

Lemma reg_mode_tables_agree_witness :
  exists r_bit,
    Py.dict_get REG_MODE_R_BIT
      (simulator.reg_name simulator.R0, simulator.reg_name simulator.R1)
      = Some r_bit /\
    sim_row simulator.R0 r_bit = Some simulator.R1.
Proof.
  destruct reg_mode_tables_agree as (_ & _ & _ & H & _).
  apply (H simulator.R0 simulator.R1). discriminate.
Defined.

(** *** The monad *)


Ltac mred := cbn [Py.bind Py.gets Py.modify Py.ret Py.raise Py.lift].


(** *** Branch displacements *)



Lemma branch_cases mnemonic :
  mnemonic ∈ BRANCH_INSTRUCTIONS ->
  mnemonic = "BZ" \/ mnemonic = "BNZ" \/ mnemonic = "BC" \/ mnemonic = "BNC".
Proof.
  unfold BRANCH_INSTRUCTIONS. rewrite !elem_of_cons, elem_of_nil. tauto.
Qed.





(** *** Whole programs *)

(** A source text of the given lines. *)
Definition source (lines : list string) : string :=
  String.append (Str.join newline lines) newline.

(** What [assemble] leaves behind: the listing, the symbol table and the
    diagnostics; [None] when it ends in an uncaught exception. *)
Definition outcome_of
    (x : Py.res message Assembler (option (gmap Z Z * list entry)))
  : option (list entry * list (string * Z) * list (Z * message)) :=
  match x with
  | Py.Ok (Some (_, listing)) s =>
      Some (listing, map_to_list (symbols s), errors s)
  | Py.Ok None s => Some ([], map_to_list (symbols s), errors s)
  | Py.Raise _ _ => None
  end.

(** The bytes [emit] returns and the diagnostics it adds, from a fresh
    assembler. *)
Definition emitted_of (x : Py.res message Assembler (list Z))
  : option (list Z * list (Z * message)) :=
  match x with
  | Py.Ok bytes s => Some (bytes, errors s)
  | Py.Raise _ _ => None
  end.

(** *** Sizes in the two passes *)

(** C7 fails on the code.  For [ST A, #5] pass 1 predicts two bytes and
    pass 2 emits the single placeholder; the same for [LD X, [R0]], whose
    first operand is no register.  The label after such a line gets
    address 2 in pass 1 and its code lands at address 1 in pass 2.  The
    error arms of JMP and of the branches do keep the predicted size. *)
Theorem store_immediate_emits_less_than_predicted :
  instruction_size "ST" (Some "A, #5") = Py.Return 2 /\
  emitted_of (emit 1 "ST" (Some "A, #5") 0 init)
    = Some ([0], [(1, STNoImmediate)]) /\
  instruction_size "LD" (Some "X, [R0]") = Py.Return 2 /\
  emitted_of (emit 1 "LD" (Some "X, [R0]") 0 init)
    = Some ([0], [(1, FirstOperand "LD" (Some "X"))]) /\
  outcome_of (assemble (source ["ST A, #5"; "L: HLT"; "JMP L"]) init)
    = Some ([ (Some 0, [0], "ST A, #5");
              (Some 1, [0xA8], "L: HLT");
              (Some 2, [0x60; 2], "JMP L") ],
            [("L", 2)], [(1, STNoImmediate)]) /\
  instruction_size "JMP" None = Py.Return 2 /\
  emitted_of (emit 1 "JMP" None 0 init)
    = Some ([0x60; 0], [(1, RequiresAddress "JMP")]) /\
  instruction_size "BZ" None = Py.Return 2 /\
  emitted_of (emit 1 "BZ" None 0 init)
    = Some ([0x68; 0], [(1, RequiresTarget "BZ")]).
Proof. repeat split; vm_compute; reflexivity. Qed.

(** *** Duplicate definitions *)

(** C8 fails on the code.  A second [.EQU] of a name, and an [.EQU] of a
    name that is already a label, are accepted without a diagnostic and
    replace the value; a label that repeats a label or an [.EQU] name is
    reported. *)
Theorem equ_redefinition_is_silent :
  outcome_of (assemble (source [".EQU X, 1"; ".EQU X, 2"]) init)
    = Some ([ (None, [], ".EQU X, 1"); (None, [], ".EQU X, 2") ],
            [("X", 2)], []) /\
  outcome_of (assemble (source ["X: NOP"; ".EQU X, 5"; "JMP X"]) init)
    = Some ([ (Some 0, [0xA0], "X: NOP"); (None, [], ".EQU X, 5");
              (Some 1, [0x60; 5], "JMP X") ],
            [("X", 5)], []) /\
  outcome_of (assemble (source [".EQU X, 5"; "X: NOP"]) init)
    = Some ([], [("X", 5)], [(2, DuplicateLabel "X")]) /\
  outcome_of (assemble (source ["X: NOP"; "X: NOP"]) init)
    = Some ([], [("X", 0)], [(2, DuplicateLabel "X")]).
Proof. repeat split; vm_compute; reflexivity. Qed.

(** *** What a computation does to the diagnostics *)

(** [grows m]: [m] only appends to the diagnostics. *)
Definition grows {T} (m : asm T) : Prop :=
  forall s, match m s with
            | Py.Ok _ s' | Py.Raise _ s' => exists l, errors s' = errors s ++ l
            end.

Lemma grows_ret {T} (v : T) : grows (Py.ret v).
Proof. intros s. exists []. cbn. now rewrite app_nil_r. Qed.
Lemma grows_raise {T} e : grows (@Py.raise _ _ T e).
Proof. intros s. exists []. cbn. now rewrite app_nil_r. Qed.
Lemma grows_lift {T} (x : try T) : grows (Py.lift x).
Proof. intros s. destruct x; exists []; cbn; now rewrite app_nil_r. Qed.
Lemma grows_gets {T} (f : Assembler -> T) : grows (Py.gets f).
Proof. intros s. exists []. cbn. now rewrite app_nil_r. Qed.
Lemma grows_modify f :
  (forall s, errors (f s) = errors s) -> grows (Py.modify f).
Proof. intros H s. exists []. cbn. now rewrite H, app_nil_r. Qed.
Lemma grows_error line msg : grows (error line msg).
Proof. intros s. eexists. reflexivity. Qed.
Lemma grows_bind {T U} (m : asm T) (k : T -> asm U) :
  grows m -> (forall v, grows (k v)) -> grows (Py.bind m k).
Proof.
  intros Hm Hk s. unfold Py.bind. specialize (Hm s).
  destruct (m s) as [v s1|e s1]; [|assumption].
  destruct Hm as [l1 Hl1]. specialize (Hk v s1).
  destruct (k v s1); destruct Hk as [l2 Hl2]; exists (l1 ++ l2);
    now rewrite Hl2, Hl1, app_assoc.
Qed.

Ltac grows_tac :=
  repeat first
    [ apply grows_ret | apply grows_raise | apply grows_lift
    | apply grows_gets | apply grows_error
    | apply grows_modify; reflexivity
    | apply grows_bind; [|intros ?]
    | case_match
    | solve [auto] ].

(** The label arm of [pass1] does report every name that is taken,
    however it was defined. *)
Lemma label_of_taken_name_is_reported line_num raw_line label mnemonic
    operand_text s v :
  parse_line raw_line = Py.Return (Some label, mnemonic, operand_text) ->
  label <> "" ->
  symbols s !! label = Some v ->
  match pass1_line line_num raw_line s with
  | Py.Ok _ s' | Py.Raise _ s' =>
      exists l, errors s' = errors s ++ (line_num, DuplicateLabel label) :: l
  end.
Proof.
  intros Hparse Hne Hsym.
  unfold pass1_line. unfold Py.bind at 1, Py.lift at 1.
  rewrite Hparse. cbn [is_some_nonempty default from_option]. unfold id.
  assert (Hnz : nonempty label = true)
    by (destruct label; [contradiction|reflexivity]).
  rewrite Hnz. unfold Py.bind at 1. unfold Py.bind at 1, Py.gets at 1.
  rewrite Hsym. unfold error at 1, Py.modify at 1.
  set (s1 := set_errors (errors s ++ [(line_num, DuplicateLabel label)]) s).
  match goal with |- match ?m s1 with _ => _ end =>
    assert (Hg : grows m) by grows_tac; specialize (Hg s1);
    destruct (m s1); destruct Hg as [l Hl]; exists l; rewrite Hl; subst s1;
    cbn; now rewrite <- app_assoc
  end.
Qed.

(** An [.EQU] line whose value parses is never reported, whatever the
    symbol table holds for its name. *)
Lemma equ_is_never_reported line_num raw_line operand_text name text s v :
  parse_line raw_line = Py.Return (None, Some ".EQU", Some operand_text) ->
  operand_text <> "" ->
  map Str.strip (Str.split1 "," operand_text) = [name; text] ->
  parse_number text (Some (symbols s)) = Py.Return (Some v) ->
  pass1_line line_num raw_line s
  = Py.Ok tt (set_symbols (<[name := v]> (symbols s)) s).
Proof.
  intros Hparse Hne Hsplit Hnum.
  unfold pass1_line. unfold Py.bind at 1, Py.lift at 1.
  rewrite Hparse. cbn [is_some_nonempty default from_option]. unfold id.
  mred.
  assert (Hnz : nonempty operand_text = true)
    by (destruct operand_text; [contradiction|reflexivity]).
  destruct (decide (".EQU" = ".ORG")); [discriminate|].
  destruct (decide (".EQU" = ".EQU")); [|contradiction].
  rewrite Hnz, Hsplit. mred. rewrite Hnum. reflexivity.
Qed.

(** *** Strings in data directives *)

(** C9 fails on the code.  [.DS] decodes the five escapes and reports a
    character above 0x7F; [.DB] does neither: it emits the two characters
    of an escape as they stand, and emits a character above 0x7F as its
    code point without a diagnostic.  In pass 1 the same [.DS] line ends
    the run with an uncaught [ValueError]. *)
Theorem db_strings_are_not_decoded :
  decode_string "\n\t\r\0\\" = Py.Return [0x0A; 0x09; 0x0D; 0x00; 0x5C] /\
  emitted_of (emit 1 ".DS" (Some "'a\n'") 0 init) = Some ([0x61; 0x0A; 0], []) /\
  emitted_of (emit 1 ".DB" (Some "'a\n'") 0 init) = Some ([0x61; 0x5C; 0x6E], []) /\
  emitted_of (emit 1 ".DS"
                (Some (String "'" (String (ascii_of_nat 233) "'"))) 0 init)
    = Some ([0], [(1, NonAscii (ascii_of_nat 233))]) /\
  emitted_of (emit 1 ".DB"
                (Some (String "'" (String (ascii_of_nat 233) "'"))) 0 init)
    = Some ([233], []) /\
  outcome_of (assemble
                (source [String.append ".DB '"
                           (String (ascii_of_nat 233) "'")]) init)
    = Some ([ (Some 0, [233],
               String.append ".DB '" (String (ascii_of_nat 233) "'")) ],
            [], []) /\
  outcome_of (assemble
                (source [String.append ".DS '"
                           (String (ascii_of_nat 233) "'")]) init)
    = None.
Proof. repeat split; vm_compute; reflexivity. Qed.

(** [decode_string] itself never lets a character above 0x7F through. *)
Lemma decode_string_ascii s bytes :
  decode_string s = Py.Return bytes -> Forall (fun b => 0 <= b <= 0x7F) bytes.
Proof.
  remember (String.length s) as n eqn:Hn.
  revert s bytes Hn.
  induction n as [n IH] using lt_wf_ind. intros s bytes Hn.
  destruct s as [|ch s']; cbn [decode_string].
  { intros [= <-]. constructor. }
  assert (Hplain :
    (if 0x7F <? Str.ord ch
     then Py.Throw (Py.ValueError (NonAscii ch))
     else Py.obind (decode_string s')
            (fun result => Py.Return (Str.ord ch :: result)))
    = Py.Return bytes -> Forall (fun b => 0 <= b <= 0x7F) bytes).
  { destruct (Z.ltb_spec 0x7F (Str.ord ch)); [discriminate|].
    destruct (decode_string s') as [result|] eqn:Hd; [|discriminate].
    intros [= <-]. constructor.
    - unfold Str.ord in *. lia.
    - eapply (IH (String.length s')); [|reflexivity|exact Hd].
      subst n. cbn. lia. }
  destruct (Str.is_char Str.backslash ch); [|exact Hplain].
  destruct s' as [|ch2 s'']; [exact Hplain|].
  clear Hplain.
  destruct (Py.dict_get ESCAPE_MAP ch2) as [b|] eqn:Hb; [|discriminate].
  destruct (decode_string s'') as [result|] eqn:Hd; [|discriminate].
  intros [= <-]. constructor.
  - cbn in Hb. repeat case_decide; try discriminate;
      injection Hb as <-; lia.
  - eapply (IH (String.length s'')); [|reflexivity|exact Hd].
    subst n. cbn. lia.
Qed.

End assembler_facts.
(** * Sizes in the two passes *)

Module size_facts.
Import assembler assembler_facts.
Open Scope string_scope.
Open Scope Z_scope.
Open Scope list_scope.

(** *** Operands in the two passes *)

Lemma number_or_text_returns text d v :
  number_or_text text None = Py.Return v ->
  exists v', number_or_text text (Some d) = Py.Return v'.
Proof.
  unfold number_or_text, parse_number. cbv zeta.
  destruct (d !! Str.strip text) as [n|]; [intros _; eexists; reflexivity|].
  intros H. exists v. exact H.
Qed.

(** The mode and the register of an operand do not depend on the symbol
    table, and an operand that parses without one parses with any. *)
Lemma parse_operand_mode text d m r v :
  parse_operand text None = Py.Return (m, r, v) ->
  exists v', parse_operand text (Some d) = Py.Return (m, r, v').
Proof.
  unfold parse_operand. cbv zeta.
  destruct (mem_str _ _); [intros [= <- <- <-]; eauto|].
  assert (Hnum : forall X (k : opval -> mode * option string * opval),
            (forall w w', fst (k w) = fst (k w')) ->
            Py.obind (number_or_text X None) (fun w => Py.Return (k w))
              = Py.Return (m, r, v) ->
            exists v', Py.obind (number_or_text X (Some d))
                         (fun w => Py.Return (k w)) = Py.Return (m, r, v')).
  { intros X k Hk H.
    destruct (number_or_text X None) as [w|] eqn:Hw; [|discriminate].
    destruct (number_or_text_returns X d w Hw) as [w' ->].
    cbn [Py.obind] in *. injection H as H. exists (snd (k w')).
    f_equal. specialize (Hk w w'). rewrite H in Hk. cbn [fst] in Hk.
    destruct (k w') as [[m' r'] v']. cbn in *. now injection Hk as <- <-. }
  repeat case_match; subst;
    try (intros [= <- <- <-]; eauto);
    try (apply (Hnum _ (fun w => (_, _, w))); reflexivity).
Qed.


(** *** The number of bytes of a line, arm by arm *)

Ltac inv_bind H :=
  let v := fresh "v" in
  let s1 := fresh "s" in
  let H1 := fresh "Hm" in
  apply simulator_facts.bind_inv_Ok in H as (v & s1 & H1 & H).

Lemma db_item_length line_num item s bytes s' :
  db_item line_num item s = Py.Ok bytes s' ->
  Z.of_nat (length bytes)
  = (if quoted item then Z.of_nat (String.length (strip_quotes item)) else 1).
Proof.
  unfold db_item. destruct (quoted item).
  - intros [= <- _]. rewrite length_map.
    f_equal. generalize (strip_quotes item) as t.
    induction t as [|ch t IH]; cbn; congruence.
  - intros H. inv_bind H. inv_bind H. inv_bind H.
    injection H as <- _. reflexivity.
Qed.

Lemma db_items_length line_num : forall items s bytes s' acc,
  db_items line_num items s = Py.Ok bytes s' ->
  acc + Z.of_nat (length bytes)
  = fold_left
      (fun count item =>
         if quoted item
         then count + Z.of_nat (String.length (strip_quotes item))
         else count + 1)
      items acc.
Proof.
  induction items as [|item rest IH]; intros s bytes s' acc; cbn [db_items fold_left].
  - intros [= <- _]. cbn. lia.
  - intros H. inv_bind H. inv_bind H. injection H as <- _.
    apply db_item_length in Hm. rewrite <- (IH _ _ _ _ Hm0).
    rewrite length_app. destruct (quoted item); lia.
Qed.

Lemma emit_encoded_length line_num enc s bytes s' :
  emit_encoded line_num enc s = Py.Ok bytes s' ->
  match enc with
  | Py.Return (_, Some _) => length bytes = 2%nat /\ s' = s
  | Py.Return (_, None) => length bytes = 1%nat /\ s' = s
  | Py.Throw e =>
      length bytes = 1%nat /\
      exists msg, e = Py.ValueError msg /\
                  errors s' = errors s ++ [(line_num, msg)]
  end.
Proof.
  unfold emit_encoded.
  destruct enc as [[opcode [operand|]]|[msg|msg| | |]]; cbn;
    try discriminate; intros [= <- <-]; split; try reflexivity.
  eexists. split; reflexivity.
Qed.

Lemma grows_resolved_or_zero line_num val : grows (resolved_or_zero line_num val).
Proof. unfold resolved_or_zero, resolve, as_int. grows_tac. Qed.

Lemma grew {T} (m : asm T) s v s' :
  grows m -> m s = Py.Ok v s' -> exists l, errors s' = errors s ++ l.
Proof. intros Hg Hm. specialize (Hg s). now rewrite Hm in Hg. Qed.

Lemma not_grown {T} (l1 l2 : list T) e : l1 ++ l2 ++ [e] <> l1.
Proof.
  intros H. apply (f_equal length) in H. rewrite !length_app in H.
  cbn in H. lia.
Qed.

Ltac decide_modes H :=
  repeat match type of H with
         | context [decide (?a = ?b)] =>
             destruct (decide (a = b)); try discriminate; try contradiction
         end;
  repeat match goal with
         | |- context [decide (?a = ?b)] =>
             destruct (decide (a = b)); try discriminate; try contradiction
         end.

Lemma operand_size_mode text n :
  _operand_size (Some text) = Py.Return n ->
  exists m r v, parse_operand text None = Py.Return (m, r, v) /\
                n = (if decide (m = Reg) then 1 else 2).
Proof.
  unfold _operand_size.
  destruct (parse_operand text None) as [[[m r] v]|]; [|discriminate].
  cbn. intros [= <-]. eauto.
Qed.

Lemma alu_arm_length line_num mnemonic text s bytes s' n :
  _operand_size (Some text) = Py.Return n ->
  Py.bind (Py.gets symbols) (fun d =>
    Py.bind (Py.lift (parse_operand text (Some d))) (fun parsed =>
      let '(m, reg, val) := parsed in
      let m := if decide (m = Value) then Imm else m in
      Py.bind (resolved_or_zero line_num val) (fun v =>
        emit_encoded line_num (encode_alu mnemonic m reg v)))) s
  = Py.Ok bytes s' ->
  Z.of_nat (length bytes) = n.
Proof.
  intros Hsize H.
  apply operand_size_mode in Hsize as (m & r & v & Hparse & ->).
  destruct (parse_operand_mode text (symbols s) m r v Hparse) as [v' Hparse'].
  inv_bind H. injection Hm as <- <-.
  rewrite Hparse' in H. cbn [Py.bind Py.lift] in H.
  inv_bind H. apply emit_encoded_length in H.
  unfold encode_alu, subscript in H.
  destruct (Py.dict_get ALU_INSTRUCTIONS mnemonic); cbn [Py.obind] in H;
    [|destruct H as [_ (msg & Hmsg & _)]; discriminate].
  destruct m; decide_modes H; cbn [Py.obind] in H;
    try (destruct (_ || _));
    destruct H as [-> _]; reflexivity.
Qed.

Lemma ld_st_arm_length line_num (is_store : bool) (reg : string) text s
    bytes s' n :
  _operand_size (Some text) = Py.Return n ->
  Py.bind (Py.gets symbols) (fun d =>
    Py.bind (Py.lift (parse_operand text (Some d))) (fun parsed =>
      let '(m, other_reg, val) := parsed in
      let m := if decide (m = Value)
               then (if is_store then Direct else Imm) else m in
      Py.bind (resolved_or_zero line_num val) (fun v =>
        emit_encoded line_num (encode_ld_st is_store reg m other_reg v)))) s
  = Py.Ok bytes s' ->
  errors s' = errors s ->
  Z.of_nat (length bytes) = n.
Proof.
  intros Hsize H Herr.
  apply operand_size_mode in Hsize as (m & r & v & Hparse & ->).
  destruct (parse_operand_mode text (symbols s) m r v Hparse) as [v' Hparse'].
  inv_bind H. injection Hm as <- <-.
  rewrite Hparse' in H. cbn [Py.bind Py.lift] in H.
  inv_bind H.
  destruct (grew _ _ _ _ (grows_resolved_or_zero line_num v') Hm) as [l Hl].
  apply emit_encoded_length in H.
  assert (Hthrow : forall e,
            length bytes = 1%nat /\
            (exists msg, e = Py.ValueError msg /\
                         errors s' = errors s0 ++ [(line_num, msg)]) -> False).
  { intros e [_ (msg & _ & He')].
    rewrite He', Hl, <- app_assoc in Herr. eapply not_grown, Herr. }
  unfold encode_ld_st, subscript in H.
  destruct (Py.dict_get _ reg); cbn [Py.obind] in H;
    [|exfalso; exact (Hthrow _ H)].
  destruct m; decide_modes H; cbn [Py.obind] in H;
    try (destruct is_store);
    try (destruct r as [o|]; [destruct (Py.dict_get REG_MODE_R_BIT _)|]);
    first [ exfalso; exact (Hthrow _ H) | destruct H as [-> _]; reflexivity ].
Qed.


Lemma error_then_zero line_num msg s bytes s' :
  Py.bind (error line_num msg) (fun _ => Py.ret [0]) s = Py.Ok bytes s' ->
  bytes = [0] /\ errors s' = errors s ++ [(line_num, msg)].
Proof. cbn. intros [= <- <-]. split; reflexivity. Qed.

Lemma fixed_names mnemonic :
  in_table mnemonic FIXED_OPCODES = true ->
  mem_str mnemonic NO_OPERAND = true \/
  mnemonic = "JMP" \/ mnemonic = "CALL" \/ mnemonic ∈ BRANCH_INSTRUCTIONS.
Proof.
  unfold in_table, FIXED_OPCODES. cbn [Py.dict_get].
  repeat (case_decide;
          [subst mnemonic; intros _;
           first [ left; reflexivity
                 | right; left; reflexivity
                 | right; right; left; reflexivity
                 | right; right; right; unfold BRANCH_INSTRUCTIONS; set_solver ]
          |]).
  discriminate.
Qed.

Lemma no_operand_fixed mnemonic :
  mem_str mnemonic NO_OPERAND = true -> in_table mnemonic FIXED_OPCODES = true.
Proof.
  unfold mem_str, NO_OPERAND. intros H. apply bool_decide_eq_true in H.
  rewrite !elem_of_cons, elem_of_nil in H.
  repeat (destruct H as [->|H]; [reflexivity|]). contradiction.
Qed.

Lemma branch_fixed mnemonic :
  mnemonic ∈ BRANCH_INSTRUCTIONS ->
  in_table mnemonic FIXED_OPCODES = true /\ mem_str mnemonic NO_OPERAND = false /\
  mnemonic <> "JMP" /\ mnemonic <> "CALL".
Proof.
  intros H. apply branch_cases in H as [-> | [-> | [-> | ->]]];
    repeat split; discriminate.
Qed.

(** X7.  The two passes agree on the size of a line wherever pass 2
    reports nothing.  For a mnemonic other than [.ORG] and [.EQU], when
    [instruction_size] predicts [n] bytes and [emit] returns, the bytes
    emitted are [n] in number if the line is no LD or ST, or if [emit] has
    added no diagnostic.  (For LD and ST with a diagnostic the sizes can
    differ.) *)
Theorem sizes_agree_without_diagnostic (line_num : Z) (mnemonic : string)
    (operand_text : option string) (start_pc n : Z) (s s' : Assembler)
    (bytes : list Z) :
  mnemonic <> ".ORG" -> mnemonic <> ".EQU" ->
  instruction_size mnemonic operand_text = Py.Return n ->
  emit line_num mnemonic operand_text start_pc s = Py.Ok bytes s' ->
  (mnemonic = "LD" \/ mnemonic = "ST" -> errors s' = errors s) ->
  Z.of_nat (length bytes) = n.
Proof.
  intros Horg Hequ Hsize Hemit Herr.
  unfold instruction_size in Hsize. unfold emit in Hemit.
  destruct (decide (mnemonic = ".ORG")); [contradiction|].
  destruct (decide (mnemonic = ".EQU")); [contradiction|].
  destruct (decide (mnemonic = ".DB")).
  { destruct operand_text as [text|]; cbn [is_some_nonempty default from_option] in *.
    - unfold id in *. destruct (nonempty text).
      + injection Hsize as <-.
        now rewrite <- (db_items_length _ _ _ _ _ 0 Hemit).
      + injection Hsize as <-. now injection Hemit as <- _.
    - injection Hsize as <-. now injection Hemit as <- _. }
  destruct (decide (mnemonic = ".DS")).
  { inv_bind Hemit. injection Hemit as <- _. rewrite length_app. cbn [length].
    destruct operand_text as [text|]; cbn [is_some_nonempty default from_option] in *.
    - unfold id in *. destruct (nonempty text).
      + destruct (quoted_both (Str.strip text)).
        * destruct (decode_string _) as [decoded|]; [|discriminate].
          cbn in Hsize, Hm. injection Hsize as <-. injection Hm as <- _. lia.
        * injection Hsize as <-. cbn in Hm. injection Hm as <- _. reflexivity.
      + injection Hsize as <-. cbn in Hm. injection Hm as <- _. reflexivity.
    - injection Hsize as <-. cbn in Hm. injection Hm as <- _. reflexivity. }
  destruct (bool_decide (mnemonic = "LD") || bool_decide (mnemonic = "ST")) eqn:Hldst.
  { assert (Hsame : errors s' = errors s).
    { apply Herr. apply orb_true_iff in Hldst as [H|H];
        apply bool_decide_eq_true in H; auto. }
    destruct (_parse_ld_st_operand operand_text) as [[reg|] [src_text|]].
    - destruct (mem_str reg REGISTER_NAMES).
      + eapply ld_st_arm_length; eassumption.
      + apply error_then_zero in Hemit as [_ He]. exfalso.
        rewrite He in Hsame. eapply (not_grown _ []), Hsame.
    - injection Hsize as <-.
      destruct (mem_str reg REGISTER_NAMES);
        apply error_then_zero in Hemit as [-> _]; reflexivity.
    - apply error_then_zero in Hemit as [_ He]. exfalso.
      rewrite He in Hsame. eapply (not_grown _ []), Hsame.
    - injection Hsize as <-.
      apply error_then_zero in Hemit as [-> _]. reflexivity. }
  destruct (is_some_nonempty operand_text && _) eqn:Hcomb.
  { injection Hsize as <-. inv_bind Hemit. now injection Hemit as <- _. }
  destruct (in_table mnemonic FIXED_OPCODES) eqn:Hfix.
  - destruct (fixed_names mnemonic Hfix) as [Hno|Hjump].
    + rewrite Hno in *. cbn [andb] in Hemit. injection Hsize as <-.
      inv_bind Hemit. now injection Hemit as <- _.
    + assert (Hno : mem_str mnemonic NO_OPERAND = false).
      { destruct Hjump as [->|[->|Hbr]]; [reflexivity|reflexivity|].
        apply (branch_fixed _ Hbr). }
      rewrite Hno in *. cbn [andb] in Hemit. injection Hsize as <-.
      destruct (bool_decide (mnemonic = "JMP") || bool_decide (mnemonic = "CALL"))
        eqn:Hjc.
      * inv_bind Hemit. destruct operand_text.
        -- inv_bind Hemit. inv_bind Hemit. inv_bind Hemit. inv_bind Hemit.
           now injection Hemit as <- _.
        -- cbn in Hemit. now injection Hemit as <- _.
      * destruct (mem_str mnemonic BRANCH_INSTRUCTIONS) eqn:Hbr.
        -- inv_bind Hemit. destruct operand_text.
           ++ inv_bind Hemit. inv_bind Hemit. inv_bind Hemit. inv_bind Hemit.
              inv_bind Hemit. now injection Hemit as <- _.
           ++ cbn in Hemit. now injection Hemit as <- _.
        -- exfalso. destruct Hjump as [->|[->|Hin]]; try discriminate Hjc.
           unfold mem_str in Hbr. apply bool_decide_eq_false in Hbr. contradiction.
  - assert (Hno : mem_str mnemonic NO_OPERAND = false).
    { destruct (mem_str mnemonic NO_OPERAND) eqn:H; [|reflexivity].
      apply no_operand_fixed in H. congruence. }
    rewrite Hno in Hemit. cbn [andb] in Hemit.
    destruct (bool_decide (mnemonic = "JMP")) eqn:Hjmp.
    { apply bool_decide_eq_true in Hjmp. subst. discriminate. }
    destruct (bool_decide (mnemonic = "CALL")) eqn:Hcall.
    { apply bool_decide_eq_true in Hcall. subst. discriminate. }
    cbn [orb] in Hemit.
    destruct (mem_str mnemonic BRANCH_INSTRUCTIONS) eqn:Hbr.
    { unfold mem_str in Hbr. apply bool_decide_eq_true in Hbr.
      apply branch_fixed in Hbr as [H _]. congruence. }
    destruct (in_table mnemonic ALU_INSTRUCTIONS).
    + destruct operand_text as [text|].
      * eapply alu_arm_length; eassumption.
      * injection Hsize as <-. apply error_then_zero in Hemit as [-> _].
        reflexivity.
    + injection Hsize as <-. apply error_then_zero in Hemit as [-> _].
      reflexivity.
Qed.


Lemma sizes_agree_without_diagnostic_witness :
  Z.of_nat (length [0x07; 2]) = 2.
Proof.
  apply (sizes_agree_without_diagnostic 1 "LD" (Some "A, [R1+2]") 0 2 init init
           [0x07; 2]).
  - discriminate.
  - discriminate.
  - vm_compute. reflexivity.
  - vm_compute. reflexivity.
  - intros _. reflexivity.
Defined.

End size_facts.
(** * Lines and pass 2 *)

Module line_facts.
Import assembler assembler_facts.
Open Scope string_scope.
Open Scope Z_scope.
Open Scope list_scope.

(** *** Lines *)

Lemma lstrip_head p s ch t :
  Str.lstrip_by p s = String ch t -> p ch = false.
Proof.
  induction s as [|x s IH]; cbn [Str.lstrip_by]; [discriminate|].
  destruct (p x) eqn:Hx; [assumption|]. now intros [= <- _].
Qed.

Lemma rstrip_head p s ch t :
  Str.rstrip_by p s = String ch t -> exists t', s = String ch t'.
Proof.
  destruct s as [|x s]; cbn [Str.rstrip_by]; [discriminate|].
  destruct (Str.rstrip_by p s); [destruct (p x); [discriminate|]|];
    intros [= <- _]; eauto.
Qed.

(** A stripped string that is not empty starts with a character that is
    no white space. *)
Lemma strip_head s ch t : Str.strip s = String ch t -> Str.isspace ch = false.
Proof.
  unfold Str.strip, Str.strip_by. intros H.
  apply rstrip_head in H as [t' H]. eapply lstrip_head, H.
Qed.

Lemma split_ws1_stripped s ch t :
  Str.strip s = String ch t -> Str.split_ws1 (Str.strip s) <> [].
Proof.
  intros H. rewrite H. pose proof (strip_head _ _ _ H) as Hch.
  unfold Str.split_ws1. cbn [Str.lstrip_by]. rewrite Hch.
  destruct (Str.break Str.isspace (String ch t)) as [tok rest].
  destruct (Str.lstrip_by Str.isspace rest); discriminate.
Qed.

(** The end of [parse_line], once the label is cut off. *)
Definition split_line (label : option string) (line : string)
  : try (option string * option string * option string) :=
  if negb (nonempty line) then Py.Return (label, None, None)
  else match Str.split_ws1 line with
       | [] => Py.Throw Py.IndexError
       | [p0] => Py.Return (label, Some (Str.upper p0), None)
       | p0 :: p1 :: _ =>
           Py.Return (label, Some (Str.upper p0), Some (Str.strip p1))
       end.

Lemma split_line_returns label line :
  (exists text, line = Str.strip text) ->
  exists mnemonic operand_text,
    split_line label line = Py.Return (label, mnemonic, operand_text) /\
    (mnemonic = None -> operand_text = None).
Proof.
  intros [text Hstripped]. unfold split_line.
  destruct line as [|c l] eqn:Hl; cbn [nonempty negb].
  { eexists _, _. split; [reflexivity|auto]. }
  assert (Hne : Str.split_ws1 (String c l) <> []).
  { rewrite Hstripped. eapply split_ws1_stripped. symmetry. exact Hstripped. }
  destruct (Str.split_ws1 (String c l)) as [|p0 [|p1 ps]]; [contradiction| |];
    eexists _, _; (split; [reflexivity|discriminate]).
Qed.

(** X8.  [parse_line] never raises: the subscript [parts[0]] is always in
    range, since the text it splits is stripped and not empty.  A line
    without a mnemonic has no operand text, and a line that is empty once
    its comment is cut off has no label either. *)
Theorem parse_line_never_raises (raw_line : string) :
  exists label mnemonic operand_text,
    parse_line raw_line = Py.Return (label, mnemonic, operand_text) /\
    (mnemonic = None -> operand_text = None) /\
    (Str.strip (strip_comment raw_line) = "" ->
     label = None /\ mnemonic = None).
Proof.
  unfold parse_line. cbv zeta.
  destruct (Str.strip (strip_comment raw_line)) as [|ch t] eqn:Hline;
    cbn [nonempty negb].
  { eexists _, _, _. split; [reflexivity|auto]. }
  rewrite <- Hline.
  assert (Hfold : forall label line,
            (if negb (nonempty line) then Py.Return (label, None, None)
             else match Str.split_ws1 line with
                  | [] => Py.Throw Py.IndexError
                  | [p0] => Py.Return (label, Some (Str.upper p0), None)
                  | p0 :: p1 :: _ =>
                      Py.Return (label, Some (Str.upper p0), Some (Str.strip p1))
                  end) = split_line label line) by reflexivity.
  destruct (Str.re_match RE_LABEL _) as [[[[g1|] g2] rest]|];
    rewrite Hfold;
    match goal with
    | |- context [split_line ?label ?line] =>
        destruct (split_line_returns label line) as (m & o & -> & Hm);
          [eauto|]
    end;
    eexists _, _, _; (split; [reflexivity|]); (split; [assumption|]);
    rewrite Hline; discriminate.
Qed.


(** *** The output and the listing of pass 2 *)

Ltac inv_bind H :=
  let v := fresh "v" in
  let s1 := fresh "s" in
  let H1 := fresh "Hm" in
  apply simulator_facts.bind_inv_Ok in H as (v & s1 & H1 & H).

Definition below_256 (output : gmap Z Z) : Prop :=
  forall addr, is_Some (output !! addr) -> addr <= 255.

Lemma write_output_below line_num start_pc : forall emitted i output s output' s',
  write_output line_num start_pc i emitted output s = Py.Ok output' s' ->
  below_256 output -> below_256 output'.
Proof.
  induction emitted as [|b rest IH]; intros i output s output' s';
    cbn [write_output].
  - now intros [= <- _].
  - destruct (Z.ltb_spec 255 (start_pc + i)) as [Hgt|Hle].
    + cbn. now intros [= <- _].
    + intros Hw Hout. eapply IH; [exact Hw|].
      intros addr. rewrite lookup_insert. case_decide; [lia|apply Hout].
Qed.

Lemma pass2_line_spec line_num raw_line output listing s output' listing' s' :
  pass2_line line_num raw_line output listing s = Py.Ok (output', listing') s' ->
  (exists addr bytes, listing' = listing ++ [(addr, bytes, raw_line)]) /\
  (below_256 output -> below_256 output').
Proof.
  unfold pass2_line. intros H. inv_bind H.
  destruct v as [[label mnemonic] operand_text].
  destruct mnemonic as [mnemonic|].
  2:{ injection H as <- <- _. eauto. }
  destruct (decide (mnemonic = ".ORG")).
  { inv_bind H. inv_bind H. inv_bind H. inv_bind H.
    injection H as <- <- _. eauto. }
  destruct (decide (mnemonic = ".EQU")).
  { injection H as <- <- _. eauto. }
  inv_bind H. inv_bind H. inv_bind H. inv_bind H.
  injection H as <- <- _. split; [eauto|].
  eapply write_output_below; eassumption.
Qed.

Lemma pass2_from_spec : forall lines line_num output listing s output' listing' s',
  pass2_from line_num lines output listing s = Py.Ok (output', listing') s' ->
  map (fun e : entry => snd e) listing'
    = map (fun e : entry => snd e) listing ++ lines /\
  (below_256 output -> below_256 output').
Proof.
  induction lines as [|raw_line rest IH];
    intros line_num output listing s output' listing' s'; cbn [pass2_from].
  - intros [= <- <- _]. now rewrite app_nil_r.
  - intros H. inv_bind H. destruct v as [output1 listing1]. cbn [fst snd] in H.
    apply pass2_line_spec in Hm as [(addr & bytes & ->) Hout].
    apply IH in H as [Hlist Hbelow]. split; [|auto].
    rewrite Hlist, map_app, <- app_assoc. reflexivity.
Qed.

(** X9.  What pass 2 returns.  The listing has one entry per source
    line, in the order of the lines, each carrying its line as it was
    read; and no address above 0xFF is ever written to the output: bytes
    that would go there are dropped. *)
Theorem pass2_listing_and_output (lines : list string) (s s' : Assembler)
    (output : gmap Z Z) (listing : list entry) :
  pass2 lines s = Py.Ok (output, listing) s' ->
  map (fun e : entry => snd e) listing = lines /\
  forall addr, is_Some (output !! addr) -> addr <= 255.
Proof.
  unfold pass2. intros H. inv_bind H.
  apply pass2_from_spec in H as [Hlist Hbelow]. split; [exact Hlist|].
  apply Hbelow. intros addr. rewrite lookup_empty. now intros [? ?].
Qed.

Lemma pass2_listing_and_output_witness :
  map (fun e : entry => snd e)
      [(Some 254, [], ".ORG 254"); (Some 254, [0x60; 0], "JMP 0");
       (Some 256, [0xA8], "HLT")]
    = [".ORG 254"; "JMP 0"; "HLT"] /\
  forall addr, is_Some (({[254 := 0x60; 255 := 0]} : gmap Z Z) !! addr) ->
               addr <= 255.
Proof.
  apply (pass2_listing_and_output [".ORG 254"; "JMP 0"; "HLT"] init
           (set_errors [(3, AddressExceeds 256)] (set_pc 257 init))).
  vm_compute. reflexivity.
Defined.

End line_facts.
(** * Labels *)

Module label_facts.
Import assembler assembler_facts.
Open Scope string_scope.
Open Scope Z_scope.
Open Scope list_scope.

(** *** The symbol table through pass 1 *)

(** From [s] to [s'] no name leaves the symbol table and no diagnostic
    leaves the list of errors. *)
Definition extends (s s' : Assembler) : Prop :=
  (forall name, is_Some (symbols s !! name) -> is_Some (symbols s' !! name)) /\
  exists l, errors s' = errors s ++ l.

Lemma extends_refl s : extends s s.
Proof. split; [auto|]. exists []. now rewrite app_nil_r. Qed.

Lemma extends_trans s1 s2 s3 : extends s1 s2 -> extends s2 s3 -> extends s1 s3.
Proof.
  intros [Hn1 [l1 Hl1]] [Hn2 [l2 Hl2]]. split; [auto|].
  exists (l1 ++ l2). now rewrite Hl2, Hl1, app_assoc.
Qed.

Lemma extends_pc v s : extends s (set_pc v s).
Proof. split; [auto|]. exists []. cbn. now rewrite app_nil_r. Qed.

Lemma extends_error line msg s :
  extends s (set_errors (errors s ++ [(line, msg)]) s).
Proof. split; [auto|]. now exists [(line, msg)]. Qed.

Lemma extends_insert name v s :
  extends s (set_symbols (<[name := v]> (symbols s)) s).
Proof.
  split.
  - intros other Ho. cbn. rewrite lookup_insert. case_decide; eauto.
  - exists []. cbn. now rewrite app_nil_r.
Qed.

Definition run_extends {T} (s : Assembler) (m : asm T) : Prop :=
  match m s with Py.Ok _ s' | Py.Raise _ s' => extends s s' end.

(** The part of the loop body after the label. *)
Definition pass1_rest (line_num : Z) (mnemonic operand_text : option string)
  : asm unit :=
  match mnemonic with
  | None => Py.ret tt
  | Some mnemonic =>
      if decide (mnemonic = ".ORG") then
        let* d := Py.gets symbols in
        let* val :=
          if is_some_nonempty operand_text
          then Py.lift (parse_number (default "" operand_text) (Some d))
          else Py.ret None in
        match val with
        | None => error line_num InvalidOrg
        | Some v => Py.modify (set_pc v)
        end
      else if decide (mnemonic = ".EQU") then
        if is_some_nonempty operand_text then
          match map Str.strip (Str.split1 "," (default "" operand_text)) with
          | [name; text] =>
              let* d := Py.gets symbols in
              let* val := Py.lift (parse_number text (Some d)) in
              match val with
              | None => error line_num (InvalidEquValue text)
              | Some v => Py.modify (set_symbols (<[name := v]> d))
              end
          | _ => error line_num InvalidEquSyntax
          end
        else Py.ret tt
      else
        let* size := Py.lift (instruction_size mnemonic operand_text) in
        let* p := Py.gets pc in
        Py.modify (set_pc (p + size))
  end.

Ltac run_monad :=
  cbv beta iota zeta delta
    [Py.bind Py.gets Py.modify Py.ret Py.raise Py.lift error].

Ltac extends_leaf :=
  first [ apply extends_refl | apply extends_pc | apply extends_error
        | apply extends_insert ].

Lemma pass1_rest_extends line_num mnemonic operand_text s :
  run_extends s (pass1_rest line_num mnemonic operand_text).
Proof.
  unfold run_extends, pass1_rest.
  destruct mnemonic as [mnemonic|]; [|apply extends_refl].
  destruct (decide (mnemonic = ".ORG")).
  { run_monad. destruct (is_some_nonempty operand_text).
    - destruct (parse_number _ _) as [[v|]|]; extends_leaf.
    - extends_leaf. }
  destruct (decide (mnemonic = ".EQU")).
  { destruct (is_some_nonempty operand_text); [|apply extends_refl].
    destruct (map Str.strip _) as [|name [|text [|]]]; run_monad;
      try extends_leaf.
    destruct (parse_number _ _) as [[v|]|]; extends_leaf. }
  run_monad. destruct (instruction_size _ _); extends_leaf.
Qed.

Lemma pass1_line_unfold line_num raw_line label mnemonic operand_text s :
  parse_line raw_line = Py.Return (label, mnemonic, operand_text) ->
  pass1_line line_num raw_line s
  = ((if is_some_nonempty label then
        let label := default "" label in
        let* d := Py.gets symbols in
        match d !! label with
        | Some _ => error line_num (DuplicateLabel label)
        | None =>
            let* p := Py.gets pc in
            Py.modify (set_symbols (<[label := p]> d))
        end
      else Py.ret tt) ;;
     pass1_rest line_num mnemonic operand_text) s.
Proof.
  intros Hparse. unfold pass1_line.
  unfold Py.bind at 1, Py.lift at 1. rewrite Hparse. reflexivity.
Qed.

Lemma pass1_line_extends line_num raw_line s :
  run_extends s (pass1_line line_num raw_line).
Proof.
  unfold run_extends.
  destruct (parse_line raw_line) as [[[label mnemonic] operand_text]|e]
    eqn:Hparse.
  2:{ unfold pass1_line. unfold Py.bind at 1, Py.lift at 1. rewrite Hparse.
      apply extends_refl. }
  rewrite (pass1_line_unfold _ _ _ _ _ _ Hparse).
  pose proof (pass1_rest_extends line_num mnemonic operand_text) as Hrest.
  unfold run_extends in Hrest.
  destruct (is_some_nonempty label).
  - unfold Py.bind at 1. unfold Py.bind at 1, Py.gets at 1.
    destruct (symbols s !! default "" label).
    + unfold error at 1, Py.modify at 1.
      match goal with |- context [pass1_rest _ _ _ ?s1] =>
        specialize (Hrest s1); destruct (pass1_rest _ _ _ s1);
        (eapply extends_trans; [apply extends_error|exact Hrest]) end.
    + unfold Py.bind at 1, Py.gets at 1, Py.modify at 1.
      match goal with |- context [pass1_rest _ _ _ ?s1] =>
        specialize (Hrest s1); destruct (pass1_rest _ _ _ s1);
        (eapply extends_trans; [apply extends_insert|exact Hrest]) end.
  - unfold Py.bind at 1, Py.ret at 1. apply Hrest.
Qed.

(** The line carries the label [name]. *)
Definition labelled (raw_line name : string) : Prop :=
  exists mnemonic operand_text,
    parse_line raw_line = Py.Return (Some name, mnemonic, operand_text).

Lemma nonempty_true name : name <> "" -> nonempty name = true.
Proof. now destruct name. Qed.

Lemma pass1_line_label line_num raw_line name s :
  labelled raw_line name -> name <> "" ->
  match pass1_line line_num raw_line s with
  | Py.Ok _ s' | Py.Raise _ s' =>
      is_Some (symbols s' !! name) /\
      (is_Some (symbols s !! name) ->
       (line_num, DuplicateLabel name) ∈ errors s')
  end.
Proof.
  intros (mnemonic & operand_text & Hparse) Hne.
  rewrite (pass1_line_unfold _ _ _ _ _ _ Hparse).
  pose proof (pass1_rest_extends line_num mnemonic operand_text) as Hrest.
  unfold run_extends in Hrest.
  cbn [is_some_nonempty default from_option]. unfold id.
  rewrite (nonempty_true _ Hne).
  unfold Py.bind at 1. unfold Py.bind at 1, Py.gets at 1.
  destruct (symbols s !! name) as [v|] eqn:Hsym.
  - unfold error at 1, Py.modify at 1.
    match goal with |- context [pass1_rest _ _ _ ?s1] =>
      specialize (Hrest s1); destruct (pass1_rest _ _ _ s1);
      destruct Hrest as [Hnames [l Hl]];
      (split; [apply Hnames; cbn; rewrite Hsym; eauto|]);
      intros _; rewrite Hl; cbn; set_solver end.
  - unfold Py.bind at 1, Py.gets at 1, Py.modify at 1.
    match goal with |- context [pass1_rest _ _ _ ?s1] =>
      specialize (Hrest s1); destruct (pass1_rest _ _ _ s1);
      destruct Hrest as [Hnames [l Hl]];
      (split; [apply Hnames; cbn; rewrite lookup_insert_eq; eauto|]);
      intros [? [=]] end.
Qed.

Lemma pass1_from_extends : forall lines line_num s,
  run_extends s (pass1_from line_num lines).
Proof.
  induction lines as [|raw_line rest IH]; intros line_num s;
    unfold run_extends; cbn [pass1_from].
  - apply extends_refl.
  - unfold Py.bind.
    pose proof (pass1_line_extends line_num raw_line s) as H1.
    unfold run_extends in H1.
    destruct (pass1_line line_num raw_line s) as [[] s1|e s1]; [|exact H1].
    specialize (IH (line_num + 1) s1). unfold run_extends in IH.
    destruct (pass1_from (line_num + 1) rest s1);
      eapply extends_trans; eassumption.
Qed.

Lemma reported_stays line msg s s' :
  extends s s' -> (line, msg) ∈ errors s -> (line, msg) ∈ errors s'.
Proof. intros [_ [l ->]] Hin. set_solver. Qed.

(** A line whose label is in the table when the loop reaches it is
    reported. *)
Lemma taken_label_is_reported : forall lines (j : nat) line_num raw_line name s s',
  lines !! j = Some raw_line -> labelled raw_line name -> name <> "" ->
  is_Some (symbols s !! name) ->
  pass1_from line_num lines s = Py.Ok tt s' ->
  (line_num + Z.of_nat j, DuplicateLabel name) ∈ errors s'.
Proof.
  induction lines as [|first rest IH];
    intros j line_num raw_line name s s' Hj Hlab Hne Hsym; [discriminate|].
  cbn [pass1_from]. unfold Py.bind.
  destruct j as [|j]; cbn in Hj.
  - injection Hj as ->.
    pose proof (pass1_line_label line_num raw_line name s Hlab Hne) as H1.
    destruct (pass1_line line_num raw_line s) as [[] s1|]; [|discriminate].
    intros Hrest. destruct H1 as [_ H1].
    pose proof (pass1_from_extends rest (line_num + 1) s1) as Hext.
    unfold run_extends in Hext. rewrite Hrest in Hext.
    rewrite Z.add_0_r. eapply reported_stays; eauto.
  - pose proof (pass1_line_extends line_num first s) as H1.
    unfold run_extends in H1.
    destruct (pass1_line line_num first s) as [[] s1|]; [|discriminate].
    intros Hrest.
    replace (line_num + Z.of_nat (S j)) with (line_num + 1 + Z.of_nat j) by lia.
    apply (IH j (line_num + 1) raw_line name s1 s'); auto.
    apply H1, Hsym.
Qed.

Lemma second_label_is_reported : forall lines (i j : nat) line_num first second name s s',
  (i < j)%nat ->
  lines !! i = Some first -> lines !! j = Some second ->
  labelled first name -> labelled second name -> name <> "" ->
  pass1_from line_num lines s = Py.Ok tt s' ->
  (line_num + Z.of_nat j, DuplicateLabel name) ∈ errors s'.
Proof.
  induction lines as [|head rest IH];
    intros i j line_num first second name s s' Hij Hi Hj Hf Hs Hne;
    [discriminate|].
  destruct j as [|j]; [lia|].
  cbn [pass1_from]. unfold Py.bind.
  replace (line_num + Z.of_nat (S j)) with (line_num + 1 + Z.of_nat j) by lia.
  destruct i as [|i]; cbn in Hi, Hj.
  - injection Hi as ->.
    pose proof (pass1_line_label line_num first name s Hf Hne) as H1.
    destruct (pass1_line line_num first s) as [[] s1|]; [|discriminate].
    intros Hrest. destruct H1 as [H1 _].
    eapply taken_label_is_reported; eauto.
  - destruct (pass1_line line_num head s) as [[] s1|]; [|discriminate].
    intros Hrest. eapply (IH i j); eauto. lia.
Qed.

(** X10.  A label defined twice is always reported.  When two lines of a
    program carry the same label and pass 1 runs to its end, the list of
    errors holds [Duplicate label] with the number of the second line
    (lines are counted from 1). *)
Theorem repeated_label_is_reported (lines : list string) (i j : nat)
    (first second name : string) (s s' : Assembler) :
  (i < j)%nat ->
  lines !! i = Some first -> lines !! j = Some second ->
  labelled first name -> labelled second name -> name <> "" ->
  pass1 lines s = Py.Ok tt s' ->
  (Z.of_nat j + 1, DuplicateLabel name) ∈ errors s'.
Proof.
  intros Hij Hi Hj Hf Hs Hne. unfold pass1.
  unfold Py.bind at 1, Py.modify at 1. intros Hrun.
  rewrite Z.add_comm.
  eapply second_label_is_reported; eauto.
Qed.

Lemma repeated_label_is_reported_witness :
  (Z.of_nat 2 + 1, DuplicateLabel "L")
    ∈ errors (set_errors [(3, DuplicateLabel "L")]
                (set_symbols {["L" := 0]} (set_pc 3 init))).
Proof.
  apply (repeated_label_is_reported ["L: NOP"; " NOP"; "L: HLT"] 0 2
           "L: NOP" "L: HLT" "L" init).
  - lia.
  - reflexivity.
  - reflexivity.
  - exists (Some "NOP"), None. vm_compute. reflexivity.
  - exists (Some "HLT"), None. vm_compute. reflexivity.
  - discriminate.
  - vm_compute. reflexivity.
Defined.

End label_facts.
(** * Strings in data *)

Module data_facts.
Import assembler assembler_facts.
Open Scope string_scope.
Open Scope Z_scope.
Open Scope list_scope.

(** *** Decoded strings *)

Lemma decode_string_length : forall n s bytes,
  (String.length s <= n)%nat ->
  decode_string s = Py.Return bytes ->
  (length bytes <= String.length s)%nat.
Proof.
  induction n as [|n IH]; intros s bytes Hn.
  { destruct s; [|cbn in Hn; lia]. now intros [= <-]. }
  destruct s as [|ch s']; cbn [decode_string].
  { now intros [= <-]. }
  cbn [String.length] in Hn.
  assert (Hplain :
    (if 0x7F <? Str.ord ch
     then Py.Throw (Py.ValueError (NonAscii ch))
     else Py.obind (decode_string s')
            (fun result => Py.Return (Str.ord ch :: result)))
    = Py.Return bytes -> (length bytes <= String.length (String ch s'))%nat).
  { destruct (0x7F <? Str.ord ch); [discriminate|].
    destruct (decode_string s') as [result|] eqn:Hd; [|discriminate].
    intros [= <-]. apply IH in Hd; [|lia]. cbn. lia. }
  destruct (Str.is_char Str.backslash ch); [|exact Hplain].
  destruct s' as [|ch2 s'']; [exact Hplain|]. clear Hplain.
  destruct (Py.dict_get ESCAPE_MAP ch2) as [b|]; [|discriminate].
  destruct (decode_string s'') as [result|] eqn:Hd; [|discriminate].
  intros [= <-]. apply IH in Hd; [|cbn in Hn; lia]. cbn. lia.
Qed.

Lemma decode_string_plain : forall s bytes,
  Forall (fun ch => ch <> Str.backslash) (list_ascii_of_string s) ->
  decode_string s = Py.Return bytes ->
  bytes = map Str.ord (list_ascii_of_string s).
Proof.
  induction s as [|ch s' IH]; intros bytes Hs; cbn [decode_string].
  { now intros [= <-]. }
  cbn [list_ascii_of_string] in Hs. inversion Hs as [|? ? Hch Hs']; subst.
  assert (Hb : Str.is_char Str.backslash ch = false).
  { unfold Str.is_char. apply Ascii.eqb_neq. congruence. }
  rewrite Hb. destruct (0x7F <? Str.ord ch); [discriminate|].
  destruct (decode_string s') as [result|] eqn:Hd; [|discriminate].
  intros [= <-]. cbn [list_ascii_of_string map]. f_equal. now apply IH.
Qed.

(** X11.  What [decode_string] returns.  Every byte it returns is an ASCII
    code (0 to 0x7F), and it returns no more bytes than the string has
    characters; on a string without a backslash the bytes are the codes
    of the characters, one for one. *)
Theorem decode_string_returns_ascii (s : string) (bytes : list Z) :
  decode_string s = Py.Return bytes ->
  Forall (fun b => 0 <= b <= 0x7F) bytes /\
  (length bytes <= String.length s)%nat /\
  (Forall (fun ch => ch <> Str.backslash) (list_ascii_of_string s) ->
   bytes = map Str.ord (list_ascii_of_string s)).
Proof.
  intros Hd. split; [|split].
  - now apply (decode_string_ascii s).
  - now apply (decode_string_length (String.length s)).
  - intros Hs. now apply decode_string_plain.
Qed.

Lemma decode_string_returns_ascii_witness :
  Forall (fun b => 0 <= b <= 0x7F) [0x48; 0x69; 0x0A] /\
  (length [0x48; 0x69; 0x0A] <= String.length "Hi\n")%nat /\
  (Forall (fun ch => ch <> Str.backslash) (list_ascii_of_string "Hi\n") ->
   [0x48; 0x69; 0x0A] = map Str.ord (list_ascii_of_string "Hi\n")).
Proof.
  apply (decode_string_returns_ascii "Hi\n" [0x48; 0x69; 0x0A]).
  reflexivity.
Defined.

End data_facts.
(** * The object-file codecs: generate, then parse *)

Module codec_facts.

Open Scope string_scope.
Open Scope Z_scope.
Open Scope list_scope.

(** *** Lines of text *)


(** Characters that are neither white space nor line boundaries. *)
Definition plain (ch : ascii) : bool :=
  negb (Str.isspace ch) && negb (Str.is_linebreak ch).

Fixpoint all_plain (s : string) : bool :=
  match s with
  | EmptyString => true
  | String ch s' => plain ch && all_plain s'
  end.

Lemma append_cons ch s t :
  String.append (String ch s) t = String ch (String.append s t).
Proof. reflexivity. Qed.

Lemma append_nil t : String.append EmptyString t = t.
Proof. reflexivity. Qed.

Lemma all_plain_app s t :
  all_plain (String.append s t) = all_plain s && all_plain t.
Proof.
  induction s as [|ch s IH]; [reflexivity|].
  rewrite append_cons. cbn [all_plain]. now rewrite IH, andb_assoc.
Qed.

Lemma lstrip_plain s : all_plain s = true -> Str.lstrip_by Str.isspace s = s.
Proof.
  destruct s as [|ch s]; [reflexivity|]. cbn. unfold plain.
  destruct (Str.isspace ch); [discriminate|reflexivity].
Qed.

Lemma rstrip_plain s : all_plain s = true -> Str.rstrip_by Str.isspace s = s.
Proof.
  induction s as [|ch s IH]; [reflexivity|]. cbn. unfold plain.
  intros H. apply andb_prop in H as [Hch Hs]. rewrite (IH Hs).
  destruct s; [|reflexivity].
  destruct (Str.isspace ch); [discriminate|reflexivity].
Qed.

Lemma strip_plain s : all_plain s = true -> Str.strip s = s.
Proof.
  intros H. unfold Str.strip, Str.strip_by.
  rewrite lstrip_plain by assumption. now apply rstrip_plain.
Qed.

Lemma splitlines_line l rest :
  all_plain l = true ->
  Str.splitlines (String.append l (String Str.newline rest))
  = l :: Str.splitlines rest.
Proof.
  induction l as [|ch l IH]; intros H.
  - rewrite append_nil. cbn [Str.splitlines].
    change (Str.is_linebreak Str.newline) with true. cbv iota.
    destruct rest as [|ch' s'']; [reflexivity|].
    change (Str.ord Str.newline =? 13) with false. reflexivity.
  - cbn in H. apply andb_prop in H as [Hch Hl].
    rewrite append_cons. cbn [Str.splitlines]. rewrite (IH Hl).
    unfold plain in Hch. destruct (Str.is_linebreak ch); [|reflexivity].
    now rewrite andb_false_r in Hch.
Qed.

(** The text of the lines, each ended by a newline. *)
Fixpoint text_of (lines : list string) : string :=
  match lines with
  | [] => EmptyString
  | l :: ls => String.append l (String Str.newline (text_of ls))
  end.

(** [splitlines] gives back the lines of a text made of plain lines. *)
Lemma splitlines_text_of lines :
  Forall (fun l => all_plain l = true) lines ->
  Str.splitlines (text_of lines) = lines.
Proof.
  induction 1 as [|l ls Hl _ IH]; [reflexivity|].
  cbn [text_of]. rewrite splitlines_line by assumption. now rewrite IH.
Qed.

Lemma append_assoc s t u :
  String.append (String.append s t) u = String.append s (String.append t u).
Proof. induction s; rewrite ?append_cons, ?append_nil; congruence. Qed.

Lemma join_newline_text_of l ls :
  String.append (Str.join assembler.newline (l :: ls)) assembler.newline
  = text_of (l :: ls).
Proof.
  revert l. induction ls as [|l' ls IH]; intros l.
  - reflexivity.
  - change (Str.join assembler.newline (l :: l' :: ls))
      with (String.append l (String.append assembler.newline
              (Str.join assembler.newline (l' :: ls)))).
    rewrite !append_assoc. rewrite IH. reflexivity.
Qed.

(** *** Hexadecimal text *)

Definition is_byte (v : Z) : Prop := 0 <= v < 256.

(** A property checked on each value below [n]. *)
Lemma check_below (n : nat) (P : Z -> bool) :
  forallb P (map Z.of_nat (seq 0 n)) = true ->
  forall b, 0 <= b < Z.of_nat n -> P b = true.
Proof.
  intros H b Hb. rewrite forallb_forall in H. apply H.
  apply in_map_iff. exists (Z.to_nat b). split; [lia|].
  apply in_seq. lia.
Qed.

Definition two_digits (b : Z) : string :=
  String (Str.hex_digit (b / 16)) (String (Str.hex_digit (b mod 16)) EmptyString).

Lemma format_02X_byte b : is_byte b -> Str.format_02X b = two_digits b.
Proof.
  intros Hb.
  apply (check_below 256
           (fun b => bool_decide (Str.format_02X b = two_digits b))) in Hb.
  - now apply bool_decide_eq_true in Hb.
  - vm_compute. reflexivity.
Qed.

Lemma hex_digit_value d :
  0 <= d < 16 ->
  Str.digit_value (Str.hex_digit d) = d /\
  Str.ascii_space (Str.hex_digit d) = false /\
  plain (Str.hex_digit d) = true.
Proof.
  intros Hd.
  apply (check_below 16
           (fun d => (Str.digit_value (Str.hex_digit d) =? d)
                     && negb (Str.ascii_space (Str.hex_digit d))
                     && plain (Str.hex_digit d))) in Hd.
  - apply andb_prop in Hd as [Hd H3]. apply andb_prop in Hd as [H1 H2].
    apply Z.eqb_eq in H1. apply negb_true_iff in H2. auto.
  - vm_compute. reflexivity.
Qed.

Lemma fromhex_byte b rest :
  is_byte b ->
  Str.fromhex (String.append (Str.format_02X b) rest)
  = match Str.fromhex rest with Some l => Some (b :: l) | None => None end.
Proof.
  intros Hb. rewrite format_02X_byte by assumption. unfold two_digits.
  rewrite !append_cons, append_nil. cbn [Str.fromhex].
  unfold is_byte in Hb.
  destruct (hex_digit_value (b / 16)) as (H1 & H2 & _).
  { split; [apply Z.div_pos; lia|apply Z.div_lt_upper_bound; lia]. }
  destruct (hex_digit_value (b mod 16)) as (H3 & H4 & _).
  { apply Z.mod_pos_bound. lia. }
  rewrite H2, H1, H3.
  destruct (Z.ltb_spec (b / 16) 16) as [_|Hx];
    [|exfalso; assert (b / 16 < 16) by (apply Z.div_lt_upper_bound; lia); lia].
  destruct (Z.ltb_spec (b mod 16) 16) as [_|Hx];
    [|pose proof (Z.mod_pos_bound b 16); lia].
  cbn [andb].
  replace (b / 16 * 16 + b mod 16) with b
    by (rewrite (Z.div_mod b 16) at 1; lia).
  reflexivity.
Qed.

Lemma format_02X_plain b : is_byte b -> all_plain (Str.format_02X b) = true.
Proof.
  intros Hb. rewrite format_02X_byte by assumption. unfold two_digits.
  unfold is_byte in Hb. cbn [all_plain].
  destruct (hex_digit_value (b / 16)) as (_ & _ & ->).
  { split; [apply Z.div_pos; lia|apply Z.div_lt_upper_bound; lia]. }
  destruct (hex_digit_value (b mod 16)) as (_ & _ & ->).
  { apply Z.mod_pos_bound. lia. }
  reflexivity.
Qed.

Lemma hex_bytes_nil : assembler.hex_bytes [] = EmptyString.
Proof. reflexivity. Qed.

Lemma hex_bytes_cons b bs :
  assembler.hex_bytes (b :: bs)
  = String.append (Str.format_02X b) (assembler.hex_bytes bs).
Proof. reflexivity. Qed.

Lemma hex_bytes_app bs cs :
  assembler.hex_bytes (bs ++ cs)
  = String.append (assembler.hex_bytes bs) (assembler.hex_bytes cs).
Proof.
  induction bs as [|b bs IH]; [reflexivity|].
  rewrite <- app_comm_cons, !hex_bytes_cons, IH. now rewrite append_assoc.
Qed.

(** [bytes.fromhex] reads back what the generators print for bytes. *)
Lemma fromhex_hex_bytes bs rest :
  Forall is_byte bs ->
  Str.fromhex (String.append (assembler.hex_bytes bs) rest)
  = match Str.fromhex rest with Some l => Some (bs ++ l) | None => None end.
Proof.
  induction 1 as [|b bs Hb _ IH].
  - rewrite hex_bytes_nil, append_nil. now destruct (Str.fromhex rest).
  - rewrite hex_bytes_cons, append_assoc, fromhex_byte by assumption.
    rewrite IH. now destruct (Str.fromhex rest).
Qed.

Lemma hex_bytes_plain bs :
  Forall is_byte bs -> all_plain (assembler.hex_bytes bs) = true.
Proof.
  induction 1 as [|b bs Hb _ IH]; [reflexivity|].
  rewrite hex_bytes_cons, all_plain_app, format_02X_plain, IH; auto.
Qed.

(** *** Runs of consecutive addresses *)

Import assembler.

(** The inner loop of the generators collects the cells of consecutive
    addresses, at most sixteen of them. *)
Lemma gather_spec output base : forall addrs data data' rest,
  gather output base addrs data = (data', rest) ->
  exists taken,
    addrs = taken ++ rest /\
    taken = seqZ (base + Z.of_nat (length data)) (Z.of_nat (length taken)) /\
    data' = data ++ map (fun a => output !!! a) taken /\
    (length data <= 16 -> length data' <= 16)%nat.
Proof.
  induction addrs as [|addr addrs IH]; intros data data' rest H; cbn [gather] in H.
  - injection H as <- <-. exists []. rewrite app_nil_r.
    repeat split; auto; cbn; now rewrite app_nil_r.
  - destruct (Z.eqb_spec addr (base + Z.of_nat (length data))) as [->|Hne];
      cbn [andb] in H.
    2:{ injection H as <- <-. exists []. rewrite app_nil_r.
        repeat split; auto; cbn; now rewrite app_nil_r. }
    destruct (Z.ltb_spec (Z.of_nat (length data)) 16) as [Hlt|Hge].
    2:{ injection H as <- <-. exists []. rewrite app_nil_r.
        repeat split; auto; cbn; now rewrite app_nil_r. }
    apply IH in H as (taken & -> & Htaken & -> & Hlen).
    rewrite length_app in Htaken, Hlen. cbn [length] in Htaken, Hlen.
    exists ((base + Z.of_nat (length data)) :: taken).
    split; [reflexivity|]. split; [|split].
    + cbn [length]. rewrite Nat2Z.inj_succ, seqZ_cons by lia.
      f_equal. rewrite Htaken at 1. f_equal; lia.
    + cbn [map]. now rewrite <- app_assoc.
    + intros _. apply Hlen. lia.
Qed.

(** One record: where it starts, and the addresses it covers. *)
Definition run_ok (output : gmap Z Z) (addrs : list Z) (run : Z * list Z) : Prop :=
  exists taken,
    taken = seqZ (fst run) (Z.of_nat (length taken)) /\
    snd run = map (fun a => output !!! a) taken /\
    (1 <= length taken <= 16)%nat /\
    taken ⊆ addrs.

(** The outer loop cuts the sorted addresses into records, in order. *)
Lemma runs_spec output : forall fuel addrs,
  (length addrs <= fuel)%nat ->
  concat (map (fun run => seqZ (fst run) (Z.of_nat (length (snd run))))
              (runs fuel output addrs)) = addrs /\
  Forall (run_ok output addrs) (runs fuel output addrs).
Proof.
  induction fuel as [|fuel IH]; intros addrs Hfuel.
  - destruct addrs; [|cbn in Hfuel; lia]. split; [reflexivity|constructor].
  - destruct addrs as [|base tl]; [split; [reflexivity|constructor]|].
    cbn [runs].
    destruct (gather output base (base :: tl) []) as [data rest] eqn:Hg.
    cbn [gather length] in Hg.
    rewrite Z.add_0_r, Z.eqb_refl in Hg. cbn in Hg.
    apply gather_spec in Hg as (taken & -> & Htaken & -> & Hlen).
    cbn [length] in Htaken, Hlen.
    assert (Hrest : (length rest <= fuel)%nat).
    { cbn [length] in Hfuel. rewrite length_app in Hfuel. lia. }
    destruct (IH rest Hrest) as [Hcat Hok].
    specialize (Hlen ltac:(lia)).
    cbn [app length] in Hlen. rewrite length_map in Hlen.
    split.
    + cbn [map concat fst snd app length]. rewrite length_map, Hcat.
      rewrite Nat2Z.inj_succ, seqZ_cons by lia.
      cbn [app]. f_equal. f_equal.
      rewrite Htaken at 2. f_equal; lia.
    + constructor.
      * exists (base :: taken). cbn [fst snd length].
        split; [|split; [|split]].
        -- rewrite Nat2Z.inj_succ, seqZ_cons by lia. f_equal.
           rewrite Htaken at 1. f_equal; lia.
        -- reflexivity.
        -- lia.
        -- intros x Hx. rewrite app_comm_cons. apply elem_of_app. now left.
      * eapply Forall_impl; [exact Hok|].
        intros run (tk & H1 & H2 & H3 & H4). exists tk.
        repeat split; try assumption; try lia.
        intros x Hx. apply elem_of_cons. right. apply elem_of_app. right.
        now apply H4.
Qed.

(** *** What the parsers store *)

(** The cells of [addrs] copied from [output], below address 256. *)
Definition put_all (output : gmap Z Z) (addrs : list Z) (result : gmap Z Z)
  : gmap Z Z :=
  fold_left (fun r a => if a <? 256 then <[a := output !!! a]> r else r)
            addrs result.

Lemma store_data_seq output : forall taken base i result,
  taken = seqZ (base + i) (Z.of_nat (length taken)) ->
  simulator.store_data base i (map (fun a => output !!! a) taken) result
  = put_all output taken result.
Proof.
  induction taken as [|a tl IH]; intros base i result H; [reflexivity|].
  cbn [length] in H. rewrite Nat2Z.inj_succ, seqZ_cons in H by lia.
  injection H as Ha Htl.
  cbn [map simulator.store_data put_all fold_left].
  rewrite <- Ha. apply IH.
  rewrite Htl at 1. f_equal; lia.
Qed.

Lemma put_all_app output xs ys result :
  put_all output (xs ++ ys) result
  = put_all output ys (put_all output xs result).
Proof. apply fold_left_app. Qed.

Lemma put_all_lookup output : forall addrs result k,
  Forall (fun a => a < 256) addrs ->
  put_all output addrs result !! k
  = if decide (k ∈ addrs) then Some (output !!! k) else result !! k.
Proof.
  induction addrs as [|a tl IH]; intros result k Hlt.
  - cbn. destruct (decide (k ∈ [])) as [Hin|]; [|reflexivity].
    now apply elem_of_nil in Hin.
  - inversion Hlt as [|? ? Ha Htl]; subst.
    cbn [put_all fold_left].
    destruct (Z.ltb_spec a 256); [|lia].
    fold (put_all output tl (<[a := output !!! a]> result)).
    rewrite IH by assumption.
    destruct (decide (k ∈ tl)) as [Hin|Hnin].
    + destruct (decide (k ∈ a :: tl)) as [|Hn]; [reflexivity|].
      exfalso. apply Hn. now right.
    + destruct (decide (k = a)) as [->|Hne].
      * rewrite lookup_insert_eq.
        destruct (decide (a ∈ a :: tl)) as [|Hn]; [reflexivity|].
        exfalso. apply Hn. now left.
      * rewrite lookup_insert_ne by congruence.
        destruct (decide (k ∈ a :: tl)) as [Hin|]; [|reflexivity].
        apply elem_of_cons in Hin as [|]; contradiction.
Qed.

Lemma elem_of_sorted_keys (output : gmap Z Z) k :
  k ∈ sorted_keys output <-> is_Some (output !! k).
Proof.
  unfold sorted_keys. rewrite merge_sort_Permutation.
  change (map fst (map_to_list output)) with (fst <$> map_to_list output). rewrite list_elem_of_fmap. split.
  - intros ([k' v] & -> & Hin). apply elem_of_map_to_list in Hin. eauto.
  - intros [v Hv]. exists (k, v). split; [reflexivity|].
    now apply elem_of_map_to_list.
Qed.

Lemma put_all_sorted_keys (output : gmap Z Z) :
  (forall k v, output !! k = Some v -> k < 256) ->
  put_all output (sorted_keys output) ∅ = output.
Proof.
  intros Hk. apply map_eq. intros k.
  rewrite put_all_lookup.
  2:{ apply Forall_forall. intros a Ha.
      apply elem_of_sorted_keys in Ha as [v Hv]. eauto. }
  destruct (decide (k ∈ sorted_keys output)) as [Hin|Hnin].
  - apply elem_of_sorted_keys in Hin as [v Hv].
    rewrite Hv. f_equal. now apply lookup_total_correct.
  - rewrite lookup_empty. symmetry. apply eq_None_not_Some.
    intros H. apply Hnin. now apply elem_of_sorted_keys.
Qed.

(** *** One record through the parser *)

Lemma append_empty_r s : String.append s EmptyString = s.
Proof. induction s; rewrite ?append_cons, ?append_nil; congruence. Qed.

Lemma getitem_last {T} (l : list T) x : Py.getitem (l ++ [x]) (-1) = Some x.
Proof.
  unfold Py.getitem. rewrite length_app. cbn [length].
  destruct (Z.leb_spec 0 (-1)); [lia|].
  destruct (Z.leb_spec (- Z.of_nat (length l + 1)) (-1)); [|lia].
  replace (Z.to_nat (Z.of_nat (length l + 1) + -1)) with (length l) by lia.
  rewrite lookup_app_r by lia. now rewrite Nat.sub_diag.
Qed.

Lemma address_bytes base :
  0 <= base < 256 ->
  Z.land (Z.shiftr base 8) 0xFF = 0 /\ Z.land base 0xFF = base.
Proof.
  intros Hb.
  apply (check_below 256
           (fun b => (Z.land (Z.shiftr b 8) 0xFF =? 0)
                     && (Z.land b 0xFF =? b))) in Hb.
  - apply andb_prop in Hb as [H1 H2]. split; now apply Z.eqb_eq.
  - vm_compute. reflexivity.
Qed.

Lemma land_byte x : is_byte (Z.land x 0xFF).
Proof.
  unfold is_byte. change 0xFF with (Z.ones 8). rewrite Z.land_ones by lia.
  apply Z.mod_pos_bound. lia.
Qed.

Lemma startswith_empty s : Str.startswith s EmptyString = true.
Proof. now destruct s. Qed.

Lemma at_head x0 x1 x2 x3 (tl : list Z) :
  simulator.at_ (x0 :: x1 :: x2 :: x3 :: tl) 0 = Py.Return x0 /\
  simulator.at_ (x0 :: x1 :: x2 :: x3 :: tl) 1 = Py.Return x1 /\
  simulator.at_ (x0 :: x1 :: x2 :: x3 :: tl) 2 = Py.Return x2 /\
  simulator.at_ (x0 :: x1 :: x2 :: x3 :: tl) 3 = Py.Return x3.
Proof. repeat split. Qed.

Lemma at_last (l : list Z) x : simulator.at_ (l ++ [x]) (-1) = Py.Return x.
Proof. unfold simulator.at_. now rewrite getitem_last. Qed.

Lemma sum_eq l : simulator.sum l = assembler.sum l.
Proof. reflexivity. Qed.

(** What [parse_hex_line] does with the bytes of a data record. *)
Lemma parse_hex_record line_num base data result :
  0 <= base < 256 -> (length data <= 16)%nat -> Forall is_byte data ->
  simulator.parse_hex_line line_num (hex_record (base, data)) result
  = Py.Return (simulator.Continue (simulator.store_data base 0 data result)).
Proof.
  intros Hbase Hlen Hdata.
  destruct (address_bytes base Hbase) as [Hhi Hlo].
  unfold hex_record. rewrite Hhi, Hlo.
  set (record := [Z.of_nat (length data); 0; base; 0] ++ data).
  set (ck := Z.land (Z.lnot (sum record) + 1) 255).
  assert (Hrec : Forall is_byte record).
  { subst record. repeat constructor; unfold is_byte; try lia. assumption. }
  assert (Hck : is_byte ck) by apply land_byte.
  unfold simulator.parse_hex_line.
  rewrite strip_plain.
  2:{ rewrite append_cons, append_nil. cbn [all_plain].
      rewrite all_plain_app, hex_bytes_plain, format_02X_plain by assumption.
      reflexivity. }
  rewrite append_cons, append_nil.
  cbn [Str.startswith Ascii.eqb Bool.eqb andb Str.drop].
  rewrite startswith_empty. cbn [negb andb].
  unfold simulator.fromhex.
  rewrite <- (append_empty_r (Str.format_02X ck)).
  rewrite fromhex_hex_bytes, fromhex_byte by assumption.
  cbn [Str.fromhex Py.obind].
  destruct (Z.ltb_spec (Z.of_nat (length (record ++ [ck]))) 5) as [Hshort|_].
  { rewrite length_app in Hshort. subst record. cbn [length app] in Hshort. lia. }
  rewrite at_last, removelast_last.
  assert (Hraw : record ++ [ck]
                 = Z.of_nat (length data) :: 0 :: base :: 0 :: (data ++ [ck]))
    by reflexivity.
  rewrite Hraw.
  destruct (at_head (Z.of_nat (length data)) 0 base 0 (data ++ [ck]))
    as (-> & -> & -> & ->).
  cbn [Py.obind drop]. rewrite drop_0, removelast_last.
  rewrite sum_eq. fold ck. rewrite !Z.eqb_refl. cbn [negb].
  change (0 =? 1) with false. cbv iota.
  change (Z.shiftl 0 8) with 0. rewrite Z.lor_0_l.
  reflexivity.
Qed.

Lemma at_head3 x0 x1 x2 (tl : list Z) :
  simulator.at_ (x0 :: x1 :: x2 :: tl) 0 = Py.Return x0 /\
  simulator.at_ (x0 :: x1 :: x2 :: tl) 1 = Py.Return x1 /\
  simulator.at_ (x0 :: x1 :: x2 :: tl) 2 = Py.Return x2.
Proof. repeat split. Qed.

(** What [parse_srec_line] does with the bytes of an S1 record. *)
Lemma parse_srec_record line_num base data result :
  0 <= base < 256 -> (length data <= 16)%nat -> Forall is_byte data ->
  simulator.parse_srec_line line_num (s1_record (base, data)) result
  = Py.Return (simulator.Continue (simulator.store_data base 0 data result)).
Proof.
  intros Hbase Hlen Hdata.
  destruct (address_bytes base Hbase) as [Hhi Hlo].
  unfold s1_record, srec_record. rewrite Hhi, Hlo.
  set (count := 2 + Z.of_nat (length data) + 1).
  set (rec_bytes := [count; 0; base] ++ data).
  set (ck := Z.land (Z.lnot (sum rec_bytes)) 255).
  assert (Hrec : Forall is_byte rec_bytes).
  { subst rec_bytes count. repeat constructor; unfold is_byte; try lia.
    assumption. }
  assert (Hck : is_byte ck) by apply land_byte.
  unfold simulator.parse_srec_line.
  rewrite strip_plain.
  2:{ rewrite !append_cons, append_nil. cbn [all_plain].
      rewrite all_plain_app, hex_bytes_plain, format_02X_plain by assumption.
      reflexivity. }
  rewrite !append_cons, append_nil.
  cbn [Str.startswith Ascii.eqb Bool.eqb andb Str.drop Str.char_at].
  rewrite ?startswith_empty. cbn [negb andb].
  unfold simulator.fromhex.
  rewrite <- (append_empty_r (Str.format_02X ck)).
  rewrite fromhex_hex_bytes, fromhex_byte by assumption.
  cbn [Str.fromhex Py.obind].
  destruct (Z.ltb_spec (Z.of_nat (length (rec_bytes ++ [ck]))) 1) as [Hshort|_].
  { rewrite length_app in Hshort. cbn [length] in Hshort. lia. }
  rewrite at_last, removelast_last.
  assert (Hraw : rec_bytes ++ [ck] = count :: 0 :: base :: (data ++ [ck]))
    by reflexivity.
  rewrite Hraw.
  destruct (at_head3 count 0 base (data ++ [ck])) as (-> & -> & ->).
  cbn [Py.obind drop]. rewrite drop_0, removelast_last.
  destruct (Z.eqb_spec
              (Z.of_nat (length (count :: 0 :: base :: data ++ [ck])))
              (count + 1)) as [_|Hbad].
  2:{ exfalso. apply Hbad. cbn [length]. rewrite length_app. cbn [length].
      subst count. lia. }
  cbn [negb]. rewrite sum_eq. fold ck. rewrite Z.eqb_refl. cbn [negb].
  change (Str.is_char "0" "1") with false.
  change (Str.is_char "1" "1") with true. cbv iota.
  change (Z.shiftl 0 8) with 0. rewrite Z.lor_0_l.
  reflexivity.
Qed.

(** *** All records through the parser *)

Definition store_run (result : gmap Z Z) (run : Z * list Z) : gmap Z Z :=
  simulator.store_data (fst run) 0 (snd run) result.

(** A record the generators can produce from a map of bytes. *)
Definition record_ok (run : Z * list Z) : Prop :=
  0 <= fst run < 256 /\ (length (snd run) <= 16)%nat /\ Forall is_byte (snd run).

(** The parser loop over the rendered records and a final line that
    ends it. *)
Lemma parse_lines_records body render last :
  (forall n run result, record_ok run ->
     body n (render run) result = Py.Return (simulator.Continue (store_run result run))) ->
  (forall n result, body n last result = Py.Return (simulator.Break result)) ->
  forall rs n result,
    Forall record_ok rs ->
    simulator.parse_lines body n (map render rs ++ [last]) result
    = Py.Return (fold_left store_run rs result).
Proof.
  intros Hbody Hlast. induction rs as [|run rs IH]; intros n result Hok.
  - cbn. now rewrite Hlast.
  - inversion Hok as [|? ? Hrun Hrs]; subst.
    cbn [map app simulator.parse_lines fold_left].
    rewrite (Hbody _ _ _ Hrun). cbn [Py.obind]. now apply IH.
Qed.

Lemma fold_store_runs output addrs : forall rs result,
  Forall (run_ok output addrs) rs ->
  fold_left store_run rs result
  = put_all output
      (concat (map (fun run => seqZ (fst run) (Z.of_nat (length (snd run)))) rs))
      result.
Proof.
  induction rs as [|run rs IH]; intros result Hok; [reflexivity|].
  inversion Hok as [|? ? (taken & Ht & Hd & Hlen & Hsub) Hrs]; subst.
  cbn [fold_left map concat]. rewrite put_all_app, IH by assumption.
  f_equal. unfold store_run. rewrite Hd, length_map, <- Ht.
  apply store_data_seq. now rewrite Z.add_0_r.
Qed.

(** The maps the round trip is claimed for: addresses and values are
    bytes. *)
Definition byte_map (m : gmap Z Z) : Prop :=
  forall k v, m !! k = Some v -> 0 <= k <= 255 /\ 0 <= v <= 255.

Lemma run_ok_record_ok m run :
  byte_map m -> run_ok m (sorted_keys m) run -> record_ok run.
Proof.
  intros Hm (taken & Ht & Hd & Hlen & Hsub).
  assert (Hkeys : forall a, a ∈ taken -> 0 <= a < 256 /\ is_byte (m !!! a)).
  { intros a Ha. apply Hsub, elem_of_sorted_keys in Ha as [v Hv].
    destruct (Hm _ _ Hv). rewrite (lookup_total_correct _ _ _ Hv).
    unfold is_byte. lia. }
  split; [|split].
  - destruct taken as [|a tl]; [cbn in Hlen; lia|].
    cbn [length] in Ht. rewrite Nat2Z.inj_succ, seqZ_cons in Ht by lia.
    injection Ht as Ha _. rewrite <- Ha. apply Hkeys. now left.
  - rewrite Hd, length_map. lia.
  - rewrite Hd. apply Forall_forall. intros b Hb.
    apply list_elem_of_fmap in Hb as (a & -> & Ha). now apply Hkeys.
Qed.

(** The records of a map of bytes are well formed and store the map. *)
Lemma runs_of_byte_map m :
  byte_map m ->
  let rs := runs (length (sorted_keys m)) m (sorted_keys m) in
  Forall record_ok rs /\ fold_left store_run rs ∅ = m.
Proof.
  intros Hm rs.
  destruct (runs_spec m (length (sorted_keys m)) (sorted_keys m) ltac:(lia))
    as [Hcat Hok].
  fold rs in Hcat, Hok. split.
  - eapply Forall_impl; [exact Hok|]. intros run. now apply run_ok_record_ok.
  - rewrite (fold_store_runs m (sorted_keys m)) by assumption.
    rewrite Hcat. apply put_all_sorted_keys.
    intros k v Hv. destruct (Hm _ _ Hv). lia.
Qed.

Lemma hex_record_plain run : record_ok run -> all_plain (hex_record run) = true.
Proof.
  destruct run as [base data]. intros (Hbase & Hlen & Hdata). cbn [fst snd] in *.
  unfold hex_record. rewrite append_cons, append_nil. cbn [all_plain].
  rewrite all_plain_app, hex_bytes_plain, format_02X_plain; try reflexivity.
  - apply land_byte.
  - repeat constructor; try apply land_byte; try assumption; unfold is_byte; lia.
Qed.

Lemma s1_record_plain run : record_ok run -> all_plain (s1_record run) = true.
Proof.
  destruct run as [base data]. intros (Hbase & Hlen & Hdata). cbn [fst snd] in *.
  unfold s1_record, srec_record. rewrite !append_cons, append_nil.
  cbn [all_plain].
  rewrite all_plain_app, hex_bytes_plain, format_02X_plain; try reflexivity.
  - apply land_byte.
  - repeat constructor; try apply land_byte; try assumption; unfold is_byte; lia.
Qed.

Lemma snoc_is_cons {T} (xs : list T) (e : T) : exists l ls, xs ++ [e] = l :: ls.
Proof. destruct xs; cbn; eauto. Qed.

Lemma generated_text (xs : list string) (e : string) :
  String.append (Str.join newline (xs ++ [e])) newline = text_of (xs ++ [e]).
Proof.
  destruct (snoc_is_cons xs e) as (l & ls & ->). apply join_newline_text_of.
Qed.

Definition hex_eof : string := ":00000001FF".

Lemma parse_hex_eof n result :
  simulator.parse_hex_line n hex_eof result = Py.Return (simulator.Break result).
Proof. reflexivity. Qed.

(** Intel HEX: parsing the generated text gives the map back. *)
Lemma parse_hex_generated m :
  byte_map m -> simulator.parse_hex (generate_hex m) = Py.Return m.
Proof.
  intros Hm. unfold generate_hex.
  destruct (decide (m = ∅)) as [->|Hne]; [reflexivity|].
  destruct (runs_of_byte_map m Hm) as [Hok Hfold].
  set (rs := runs (length (sorted_keys m)) m (sorted_keys m)) in *.
  fold hex_eof. rewrite generated_text.
  unfold simulator.parse_hex. rewrite splitlines_text_of.
  2:{ apply Forall_app. split.
      - apply Forall_forall. intros l Hl.
        apply list_elem_of_fmap in Hl as (run & -> & Hrun).
        apply hex_record_plain. rewrite Forall_forall in Hok. now apply Hok.
      - repeat constructor. }
  rewrite (parse_lines_records simulator.parse_hex_line hex_record hex_eof).
  - now rewrite Hfold.
  - intros n [base data] result (Hbase & Hlen & Hdata).
    now apply parse_hex_record.
  - apply parse_hex_eof.
  - assumption.
Qed.

Definition srec_header : string :=
  srec_record "S0"
    ([2 + 1 + Z.of_nat (length (map Str.ord (list_ascii_of_string "EDU-CPU")));
      0x00; 0x00] ++ map Str.ord (list_ascii_of_string "EDU-CPU")).

Definition srec_end : string := srec_record "S9" [0x03; 0x00; 0x00].

Lemma parse_srec_header n result :
  simulator.parse_srec_line n srec_header result
  = Py.Return (simulator.Continue result).
Proof. reflexivity. Qed.

Lemma parse_srec_end n result :
  simulator.parse_srec_line n srec_end result
  = Py.Return (simulator.Break result).
Proof. reflexivity. Qed.

(** S-records: parsing the generated text gives the map back. *)
Lemma parse_srec_generated m :
  byte_map m -> simulator.parse_srec (generate_srec m) = Py.Return m.
Proof.
  intros Hm. unfold generate_srec. cbv zeta.
  fold srec_header. fold srec_end.
  set (rs := if decide (m = ∅) then []
             else runs (length (sorted_keys m)) m (sorted_keys m)).
  assert (Hrs : Forall record_ok rs /\ fold_left store_run rs ∅ = m).
  { subst rs. destruct (decide (m = ∅)) as [->|Hne].
    - split; [constructor|reflexivity].
    - now apply runs_of_byte_map. }
  destruct Hrs as [Hok Hfold].
  replace (if decide (m = ∅) then []
           else map s1_record (runs (length (sorted_keys m)) m (sorted_keys m)))
    with (map s1_record rs) by (subst rs; now destruct (decide (m = ∅))).
  rewrite app_assoc, generated_text, <- app_assoc.
  unfold simulator.parse_srec. rewrite splitlines_text_of.
  2:{ apply Forall_app. split; [repeat constructor|].
      apply Forall_app. split; [|repeat constructor].
      apply Forall_forall. intros l Hl.
      apply list_elem_of_fmap in Hl as (run & -> & Hrun).
      apply s1_record_plain. rewrite Forall_forall in Hok. now apply Hok. }
  cbn [app simulator.parse_lines]. rewrite parse_srec_header. cbn [Py.obind].
  rewrite (parse_lines_records simulator.parse_srec_line s1_record srec_end).
  - now rewrite Hfold.
  - intros n [base data] result (Hbase & Hlen & Hdata).
    now apply parse_srec_record.
  - apply parse_srec_end.
  - assumption.
Qed.

(** A map with two runs of addresses, one of them at the top of memory. *)
Definition sample : gmap Z Z := list_to_map [(0, 1); (1, 255); (200, 7)].

Lemma sample_bytes : byte_map sample.
Proof.
  apply (bool_decide_unpack
           (map_Forall (fun k v => 0 <= k <= 255 /\ 0 <= v <= 255) sample)).
  vm_compute. reflexivity.
Qed.

(** C4.  Round trip of the object files.  For every map [m] whose
    addresses lie in [0,255] and whose values are bytes, the Intel HEX
    text that [generate_hex] writes for [m] is parsed by [parse_hex]
    without an error and gives exactly [m], and the S-record text that
    [generate_srec] writes for [m] is parsed by [parse_srec] without an
    error and gives exactly [m].  Maps are compared extensionally, as
    Python compares dicts. *)
Theorem object_file_round_trip (m : gmap Z Z) :
  (forall k v, m !! k = Some v -> 0 <= k <= 255 /\ 0 <= v <= 255) ->
  simulator.parse_hex (generate_hex m) = Py.Return m /\
  simulator.parse_srec (generate_srec m) = Py.Return m.
Proof.
  intros Hm. split.
  - now apply parse_hex_generated.
  - now apply parse_srec_generated.
Qed.

Lemma object_file_round_trip_witness :
  (forall k v, sample !! k = Some v -> 0 <= k <= 255 /\ 0 <= v <= 255) /\
  simulator.parse_hex (generate_hex sample) = Py.Return sample /\
  simulator.parse_srec (generate_srec sample) = Py.Return sample.
Proof.
  split; [exact sample_bytes|].
  apply (object_file_round_trip sample). exact sample_bytes.
Defined.

End codec_facts.
(** * Loading object files *)

Module loader_facts.
Import simulator simulator_facts cpu_facts codec_facts.
Open Scope string_scope.
Open Scope Z_scope.
Open Scope list_scope.

(** *** Loading an address map *)

(** Two CPUs that differ at most in memory and in the loaded set. *)
Definition same_but_memory (s s' : CPU) : Prop :=
  set_loaded (loaded s) (set_mem (mem s) s') = s.

Lemma load_item_spec s k v :
  wf s -> 0 <= k <= 255 -> 0 <= v <= 255 ->
  load_item (k, v) s
  = Py.Ok tt (set_loaded ({[k]} ∪ loaded s)
                (set_mem (<[Z.to_nat k := v]> (mem s)) s)).
Proof.
  intros Hs Hk Hv. unfold load_item, store.
  destruct (Z.ltb_spec k 256); [|lia].
  destruct (Z.leb_spec 0 v); [|lia]. destruct (Z.ltb_spec v 256); [|lia].
  cbn [andb]. mrun.
  rewrite setitem_in_range by (rewrite (wf_mem_len s Hs); lia).
  reflexivity.
Qed.

Lemma load_map_spec : forall (items : list (Z * Z)) (s : CPU),
  wf s -> NoDup (map fst items) ->
  Forall (fun kv => 0 <= fst kv <= 255 /\ 0 <= snd kv <= 255) items ->
  exists s',
    load_map items s = Py.Ok tt s' /\ wf s' /\
    (forall k, 0 <= k <= 255 ->
       Py.getitem (mem s') k =
       match (list_to_map items : gmap Z Z) !! k with
       | Some v => Some v
       | None => Py.getitem (mem s) k
       end) /\
    loaded s' = list_to_set (map fst items) ∪ loaded s /\
    same_but_memory s s'.
Proof.
  intros kvs. induction kvs as [|[k v] rest IH]; intros s Hs Hnd Hall.
  - exists s. split; [reflexivity|]. split; [assumption|].
    split; [intros k _; cbn [list_to_map foldr]; now rewrite lookup_empty|].
    split; [cbn [map list_to_set]; now rewrite (left_id_L ∅ (∪))|].
    unfold same_but_memory. now destruct s.
  - cbn [map fst] in Hnd. apply NoDup_cons in Hnd as [Hnotin Hnd'].
    apply Forall_cons in Hall as [[Hk Hv] Hall']. cbn [fst snd] in *.
    set (s1 := set_loaded ({[k]} ∪ loaded s)
                 (set_mem (<[Z.to_nat k := v]> (mem s)) s)).
    assert (Hs1 : wf s1).
    { apply wf_set_loaded, wf_set_mem; [assumption|]. unfold byte. lia. }
    destruct (IH s1 Hs1 Hnd' Hall') as (s' & Hload & Hs' & Hmem & Hloaded & Hsame).
    exists s'. cbn [load_map].
    rewrite (bind_Ok _ _ _ _ _ (load_item_spec s k v Hs Hk Hv)). fold s1.
    split; [assumption|]. split; [assumption|]. split; [|split].
    + intros j Hj. rewrite (Hmem j Hj), list_to_map_cons.
      destruct (decide (k = j)) as [->|Hne].
      * rewrite lookup_insert_eq.
        assert (Hnone : (list_to_map rest : gmap Z Z) !! j = None).
        { now apply not_elem_of_list_to_map_1. }
        rewrite Hnone. subst s1. cbn [mem set_loaded set_mem].
        rewrite getitem_nonneg by lia. apply list_lookup_insert_eq.
        rewrite (wf_mem_len s Hs). lia.
      * rewrite lookup_insert_ne by assumption.
        destruct (list_to_map rest !! j); [reflexivity|].
        subst s1. cbn [mem set_loaded set_mem].
        rewrite !getitem_nonneg by lia. apply list_lookup_insert_ne. lia.
    + rewrite Hloaded. subst s1. cbn [loaded set_loaded set_mem map fst list_to_set].
      apply set_eq. intros x. rewrite !elem_of_union. tauto.
    + unfold same_but_memory in *. subst s1.
      pose proof (f_equal a Hsame) as Ha. pose proof (f_equal r Hsame) as Hr.
      pose proof (f_equal pc Hsame) as Hpc. pose proof (f_equal z Hsame) as Hz.
      pose proof (f_equal c Hsame) as Hc. pose proof (f_equal sp Hsame) as Hsp.
      pose proof (f_equal stack Hsame) as Hst.
      pose proof (f_equal halted Hsame) as Hh.
      pose proof (f_equal cycles Hsame) as Hcy.
      pose proof (f_equal stdout Hsame) as Hout.
      apply cpu_ext; cbn [a r pc z c sp stack mem loaded halted cycles stdout
                          set_loaded set_mem] in *; try reflexivity; assumption.
Qed.


(** *** What the parsers can return *)

Lemma digit_value_nonneg ch : 0 <= Str.digit_value ch.
Proof.
  unfold Str.digit_value, Str.between.
  repeat match goal with
         | |- context [?x <=? ?y] => destruct (Z.leb_spec x y)
         end; cbn [andb]; lia.
Qed.

Lemma fromhex_bytes : forall n s l,
  (String.length s <= n)%nat -> Str.fromhex s = Some l -> Forall byte l.
Proof.
  induction n as [|n IH]; intros s l Hn.
  - destruct s; [|cbn in Hn; lia]. intros [= <-]. constructor.
  - destruct s as [|ch s']; [intros [= <-]; constructor|].
    cbn [Str.fromhex]. cbn [String.length] in Hn.
    destruct (Str.ascii_space ch); [apply IH; lia|].
    destruct s' as [|ch2 s'']; [discriminate|].
    destruct (Z.ltb_spec (Str.digit_value ch) 16); [|discriminate].
    destruct (Z.ltb_spec (Str.digit_value ch2) 16); [|discriminate].
    cbn [andb]. destruct (Str.fromhex s'') as [l'|] eqn:Hl'; [|discriminate].
    intros [= <-]. constructor.
    + pose proof (digit_value_nonneg ch). pose proof (digit_value_nonneg ch2).
      unfold byte. lia.
    + apply (IH s''); [cbn [String.length] in Hn; lia|assumption].
Qed.

Lemma store_data_byte_map : forall data addr i result,
  0 <= addr + i -> Forall byte data -> byte_map result ->
  byte_map (store_data addr i data result).
Proof.
  induction data as [|b rest IH]; intros addr i result Hi Hdata Hres;
    [assumption|].
  apply Forall_cons in Hdata as [Hb Hrest]. cbn [store_data].
  apply IH; [lia|assumption|].
  destruct (Z.ltb_spec (addr + i) 256); [|assumption].
  intros k v. rewrite lookup_insert.
  case_decide; [|apply Hres]. intros [= <-]. unfold byte in Hb. lia.
Qed.

Lemma Forall_removelast {T} (P : T -> Prop) l :
  Forall P l -> Forall P (removelast l).
Proof.
  induction 1 as [|x l Hx Hl IH]; [constructor|]. cbn [removelast].
  destruct l; [constructor|]. now constructor.
Qed.

Lemma at_byte raw i v : Forall byte raw -> at_ raw i = Py.Return v -> byte v.
Proof.
  intros Hraw. unfold at_. destruct (Py.getitem raw i) eqn:Hg; [|discriminate].
  intros [= <-]. eapply getitem_byte; eassumption.
Qed.

Lemma address_nonneg hi lo : byte hi -> byte lo -> 0 <= Z.lor (Z.shiftl hi 8) lo.
Proof.
  intros Hhi Hlo. apply Z.lor_nonneg. split; [|apply Hlo].
  apply Z.shiftl_nonneg. apply Hhi.
Qed.

Definition flow_map (f : flow) : gmap Z Z :=
  match f with Continue m | Break m => m end.

Ltac parse_case :=
  match goal with
  | |- context [Py.obind (at_ ?raw ?i) _] =>
      let H := fresh "Hat" in
      destruct (at_ raw i) eqn:H; cbn [Py.obind]; [|discriminate]
  | |- context [if ?b then _ else _] => destruct b
  | |- Py.Throw _ = Py.Return _ -> _ => discriminate
  | |- Py.Return _ = Py.Return _ -> _ =>
      let H := fresh in intros H; injection H as <-; cbn [flow_map]
  end.

Lemma parse_hex_line_byte_map n line result f :
  byte_map result -> parse_hex_line n line result = Py.Return f ->
  byte_map (flow_map f).
Proof.
  intros Hres. unfold parse_hex_line.
  destruct (Str.strip line) as [|ch rest] eqn:Hline.
  { intros [= <-]. assumption. }
  destruct (negb _); [discriminate|]. unfold fromhex.
  destruct (Str.fromhex _) as [raw|] eqn:Hraw; cbn [Py.obind]; [|discriminate].
  apply (fromhex_bytes _ _ _ (le_n _)) in Hraw.
  repeat parse_case; try assumption.
  apply store_data_byte_map; [|now apply Forall_removelast, Forall_drop|assumption].
  pose proof (address_nonneg _ _ (at_byte _ _ _ Hraw Hat0) (at_byte _ _ _ Hraw Hat1)).
  lia.
Qed.

Lemma parse_srec_line_byte_map n line result f :
  byte_map result -> parse_srec_line n line result = Py.Return f ->
  byte_map (flow_map f).
Proof.
  intros Hres. unfold parse_srec_line.
  destruct (Str.strip line) as [|ch rest] eqn:Hline.
  { intros [= <-]. assumption. }
  destruct (negb _); [discriminate|].
  destruct (Str.char_at _ _) as [rec_type|]; [|discriminate]. unfold fromhex.
  destruct (Str.fromhex _) as [raw|] eqn:Hraw; cbn [Py.obind]; [|discriminate].
  apply (fromhex_bytes _ _ _ (le_n _)) in Hraw.
  repeat parse_case; try assumption.
  apply store_data_byte_map; [|now apply Forall_removelast, Forall_drop|assumption].
  pose proof (address_nonneg _ _ (at_byte _ _ _ Hraw Hat1) (at_byte _ _ _ Hraw Hat2)).
  lia.
Qed.

Lemma parse_lines_byte_map body :
  (forall n line result f, byte_map result ->
     body n line result = Py.Return f -> byte_map (flow_map f)) ->
  forall lines n result m,
    byte_map result -> parse_lines body n lines result = Py.Return m ->
    byte_map m.
Proof.
  intros Hbody. induction lines as [|line rest IH]; intros n result m Hres.
  - now intros [= <-].
  - cbn [parse_lines].
    destruct (body n line result) as [f|] eqn:Hf; cbn [Py.obind]; [|discriminate].
    pose proof (Hbody _ _ _ _ Hres Hf) as Hf'.
    destruct f; cbn [flow_map] in Hf'; [now apply IH|now intros [= <-]].
Qed.

Lemma byte_map_empty : byte_map ∅.
Proof. intros k v. now rewrite lookup_empty. Qed.

Lemma parse_bin_from_byte_map : forall data i result,
  0 <= i -> Forall byte data -> byte_map result ->
  byte_map (parse_bin_from i data result).
Proof.
  induction data as [|b rest IH]; intros i result Hi Hdata Hres; [assumption|].
  apply Forall_cons in Hdata as [Hb Hrest]. cbn [parse_bin_from].
  apply IH; [lia|assumption|].
  destruct (Z.ltb_spec i 256); [|assumption].
  intros k v. rewrite lookup_insert.
  case_decide; [|apply Hres]. intros [= <-]. unfold byte in Hb. lia.
Qed.

(** X12.  Whatever text or bytes they are given, the three file parsers
    only ever return maps from addresses in [0,255] to byte values:
    [parse_hex] and [parse_srec] when they return at all, [parse_bin] on
    every sequence of bytes. *)
Theorem parsers_return_byte_maps (text : string) (data : list Z) (m : gmap Z Z) :
  parse_hex text = Py.Return m \/ parse_srec text = Py.Return m \/
  (Forall (fun b => 0 <= b < 256) data /\ parse_bin data = m) ->
  forall k v, m !! k = Some v -> 0 <= k <= 255 /\ 0 <= v <= 255.
Proof.
  intros [H|[H|[Hdata <-]]].
  - eapply (parse_lines_byte_map parse_hex_line); [|apply byte_map_empty|exact H].
    intros. eapply parse_hex_line_byte_map; eassumption.
  - eapply (parse_lines_byte_map parse_srec_line); [|apply byte_map_empty|exact H].
    intros. eapply parse_srec_line_byte_map; eassumption.
  - apply parse_bin_from_byte_map; [lia|assumption|apply byte_map_empty].
Qed.


Lemma parsers_return_byte_maps_witness : 0 <= 0 <= 255 /\ 0 <= 5 <= 255.
Proof.
  refine (parsers_return_byte_maps ":0100000005FA" [] {[0 := 5]} _ 0 5 _).
  - left. vm_compute. reflexivity.
  - reflexivity.
Defined.

(** *** From the object file to memory *)

Lemma items_spec (m : gmap Z Z) :
  byte_map m ->
  NoDup (map fst (items m)) /\
  Forall (fun kv => 0 <= fst kv <= 255 /\ 0 <= snd kv <= 255) (items m) /\
  (list_to_map (items m) : gmap Z Z) = m /\
  (list_to_set (map fst (items m)) : gset Z) = dom m.
Proof.
  intros Hm. unfold items. split; [apply NoDup_fst_map_to_list|].
  split; [|split].
  - apply Forall_forall. intros [k v] Hkv.
    apply elem_of_map_to_list in Hkv. apply (Hm k v Hkv).
  - apply list_to_map_to_list.
  - symmetry. apply leibniz_equiv. apply dom_alt.
Qed.

(** X13.  Loading what the assembler wrote.  For a map [m] of bytes at
    addresses in [0,255], [load_hex] of the text [generate_hex] writes
    and [load_srec] of the text [generate_srec] writes both return
    normally and leave the same CPU: every address of [m] holds its byte,
    every other cell is as before, the addresses of [m] have joined the
    loaded set, and nothing else of the CPU has changed. *)
Theorem generated_image_loads (m : gmap Z Z) (s : CPU) :
  wf s ->
  (forall k v, m !! k = Some v -> 0 <= k <= 255 /\ 0 <= v <= 255) ->
  exists s',
    load_hex (assembler.generate_hex m) s = Py.Return (Py.Ok tt s') /\
    load_srec (assembler.generate_srec m) s = Py.Return (Py.Ok tt s') /\
    (forall k, 0 <= k <= 255 ->
       Py.getitem (mem s') k =
       match m !! k with Some v => Some v | None => Py.getitem (mem s) k end) /\
    loaded s' = dom m ∪ loaded s /\
    set_loaded (loaded s) (set_mem (mem s) s') = s.
Proof.
  intros Hs Hm.
  destruct (items_spec m Hm) as (Hnd & Hall & Hmap & Hdom).
  destruct (load_map_spec (items m) s Hs Hnd Hall)
    as (s' & Hload & _ & Hmem & Hloaded & Hsame).
  exists s'. unfold load_hex, load_srec.
  rewrite (parse_hex_generated m Hm), (parse_srec_generated m Hm).
  cbn [Py.obind]. rewrite Hload.
  split; [reflexivity|]. split; [reflexivity|].
  rewrite Hmap in Hmem. rewrite Hdom in Hloaded. auto.
Qed.

Lemma generated_image_loads_witness :
  exists s',
    load_hex (assembler.generate_hex sample) init = Py.Return (Py.Ok tt s') /\
    load_srec (assembler.generate_srec sample) init = Py.Return (Py.Ok tt s') /\
    (forall k, 0 <= k <= 255 ->
       Py.getitem (mem s') k =
       match sample !! k with
       | Some v => Some v
       | None => Py.getitem (mem init) k
       end) /\
    loaded s' = dom sample ∪ loaded init /\
    set_loaded (loaded init) (set_mem (mem init) s') = init.
Proof.
  apply (generated_image_loads sample init); [apply wf_init|].
  apply (bool_decide_unpack
           (map_Forall (fun k v => 0 <= k <= 255 /\ 0 <= v <= 255) sample)).
  vm_compute. reflexivity.
Defined.

(** X14.  [load_map] on a dictionary of bytes at addresses in [0,255], in
    whatever order its items are visited: it returns normally, every
    address of the dictionary holds its byte, every other cell is as
    before, the addresses have joined the loaded set, and nothing else of
    the CPU has changed. *)
Theorem load_map_fills_memory (kvs : list (Z * Z)) (s : CPU) :
  wf s -> NoDup (map fst kvs) ->
  Forall (fun kv => 0 <= fst kv <= 255 /\ 0 <= snd kv <= 255) kvs ->
  exists s',
    load_map kvs s = Py.Ok tt s' /\ wf s' /\
    (forall k, 0 <= k <= 255 ->
       Py.getitem (mem s') k =
       match (list_to_map kvs : gmap Z Z) !! k with
       | Some v => Some v
       | None => Py.getitem (mem s) k
       end) /\
    loaded s' = list_to_set (map fst kvs) ∪ loaded s /\
    set_loaded (loaded s) (set_mem (mem s) s') = s.
Proof. apply load_map_spec. Qed.

Lemma load_map_fills_memory_witness :
  exists s',
    load_map [(3, 7); (0, 255)] init = Py.Ok tt s' /\ wf s' /\
    (forall k, 0 <= k <= 255 ->
       Py.getitem (mem s') k =
       match (list_to_map [(3, 7); (0, 255)] : gmap Z Z) !! k with
       | Some v => Some v
       | None => Py.getitem (mem init) k
       end) /\
    loaded s' = list_to_set (map fst [(3, 7); (0, 255)]) ∪ loaded init /\
    set_loaded (loaded init) (set_mem (mem init) s') = init.
Proof.
  apply (load_map_fills_memory [(3, 7); (0, 255)] init).
  - apply wf_init.
  - apply (bool_decide_unpack (NoDup (map fst [(3, 7); (0, 255)]))).
    vm_compute. reflexivity.
  - repeat constructor; cbn; lia.
Defined.


(** *** Raw binary images *)

Lemma fold_max_spec : forall (l : list Z) (x hi : Z),
  x <= hi -> Forall (fun k => k <= hi) l -> x = hi \/ hi ∈ l ->
  fold_left Z.max l x = hi.
Proof.
  induction l as [|y l IH]; intros x hi Hx Hl Hin; cbn [fold_left].
  - destruct Hin as [|Hin]; [assumption|]. now apply elem_of_nil in Hin.
  - apply Forall_cons in Hl as [Hy Hl]. apply IH; [lia|assumption|].
    destruct Hin as [->|Hin]; [left; lia|].
    apply elem_of_cons in Hin as [->|Hin]; [left; lia|now right].
Qed.

Lemma set_cells_spec : forall (kvs : list (Z * Z)) (buf : list Z),
  NoDup (map fst kvs) ->
  Forall (fun kv => 0 <= fst kv < Z.of_nat (length buf) /\
                    0 <= snd kv <= 255) kvs ->
  exists buf',
    assembler.set_cells kvs buf = Py.Return buf' /\
    length buf' = length buf /\
    forall k, 0 <= k ->
      buf' !! Z.to_nat k =
      match (list_to_map kvs : gmap Z Z) !! k with
      | Some v => Some v
      | None => buf !! Z.to_nat k
      end.
Proof.
  induction kvs as [|[k v] rest IH]; intros buf Hnd Hall.
  - exists buf. split; [reflexivity|]. split; [reflexivity|].
    intros k _. cbn [list_to_map foldr]. now rewrite lookup_empty.
  - cbn [map fst] in Hnd. apply NoDup_cons in Hnd as [Hnotin Hnd'].
    apply Forall_cons in Hall as [[Hk Hv] Hall']. cbn [fst snd] in *.
    cbn [assembler.set_cells]. unfold assembler.set_cell.
    destruct (Z.leb_spec 0 v); [|lia]. destruct (Z.ltb_spec v 256); [|lia].
    cbn [andb]. rewrite setitem_in_range by lia. cbn [Py.obind].
    destruct (IH (<[Z.to_nat k := v]> buf) Hnd') as (buf' & Hset & Hlen & Hget).
    { rewrite length_insert. exact Hall'. }
    exists buf'. split; [assumption|].
    rewrite length_insert in Hlen. split; [assumption|].
    intros j Hj. rewrite (Hget j Hj), list_to_map_cons.
    destruct (decide (k = j)) as [->|Hne].
    + rewrite lookup_insert_eq.
      rewrite (not_elem_of_list_to_map_1 _ _ Hnotin).
      apply list_lookup_insert_eq. lia.
    + rewrite lookup_insert_ne by assumption.
      destruct (list_to_map rest !! j); [reflexivity|].
      apply list_lookup_insert_ne. lia.
Qed.

Lemma parse_bin_from_lookup : forall (data : list Z) (i : Z) (result : gmap Z Z) k,
  parse_bin_from i data result !! k =
  if decide (i <= k < i + Z.of_nat (length data) /\ k < 256)
  then data !! Z.to_nat (k - i) else result !! k.
Proof.
  induction data as [|b rest IH]; intros i result k; cbn [parse_bin_from length].
  - case_decide; [lia|reflexivity].
  - rewrite IH. destruct (decide (k = i)) as [->|Hne].
    + case_decide; [lia|].
      destruct (Z.ltb_spec i 256); case_decide; try lia.
      * rewrite lookup_insert_eq. now replace (i - i) with 0 by lia.
      * reflexivity.
    + assert (Hins : (if i <? 256 then <[i:=b]> result else result) !! k
                     = result !! k).
      { destruct (i <? 256); [|reflexivity]. apply lookup_insert_ne. lia. }
      rewrite Hins. repeat case_decide; try lia; [|reflexivity].
      replace (Z.to_nat (k - i)) with (S (Z.to_nat (k - (i + 1)))) by lia.
      reflexivity.
Qed.

(** X15.  Raw binary round trip.  For a dictionary of bytes whose highest
    address is [hi <= 255] and whose addresses are not negative,
    [generate_bin] returns an image of [hi + 1] bytes, and [parse_bin] of
    that image holds, at every address from 0 to [hi], the byte of the
    dictionary, or 0 where the dictionary has none: the gaps below the
    highest address come back as loaded zero bytes, so the dictionary is
    reproduced exactly only when it has no gap. *)
Theorem bin_round_trip_fills_gaps (kvs : list (Z * Z)) (hi : Z) :
  NoDup (map fst kvs) ->
  Forall (fun kv => 0 <= fst kv <= hi /\ 0 <= snd kv <= 255) kvs ->
  hi ∈ map fst kvs -> hi <= 255 ->
  exists image,
    assembler.generate_bin kvs = Py.Return image /\
    Z.of_nat (length image) = hi + 1 /\
    (forall k,
        parse_bin image !! k =
        if decide (0 <= k <= hi)
        then Some (default 0 ((list_to_map kvs : gmap Z Z) !! k))
        else None) /\
    ((forall k, 0 <= k <= hi -> is_Some ((list_to_map kvs : gmap Z Z) !! k)) ->
     parse_bin image = list_to_map kvs).
Proof.
  intros Hnd Hall Hhi H255.
  destruct kvs as [|[k0 v0] rest] eqn:Hkvs; [now apply elem_of_nil in Hhi|].
  rewrite <- Hkvs in *.
  assert (Hmax : assembler.max_key k0 rest = hi).
  { unfold assembler.max_key. rewrite Hkvs in Hall, Hhi.
    apply Forall_cons in Hall as [[Hk0 _] Hall]. cbn [fst] in Hk0.
    apply fold_max_spec; [lia| |].
    - apply Forall_forall. intros k Hk.
      apply list_elem_of_fmap in Hk as ([k' v'] & -> & Hk).
      rewrite Forall_forall in Hall. apply (Hall _ Hk).
    - cbn [map fst] in Hhi. apply elem_of_cons in Hhi as [->|Hhi]; auto. }
  assert (Hhi0 : 0 <= hi).
  { apply list_elem_of_fmap in Hhi as ([k' v'] & -> & Hk).
    rewrite Forall_forall in Hall. apply (Hall _ Hk). }
  destruct (set_cells_spec kvs (replicate (Z.to_nat (hi + 1)) 0) Hnd)
    as (image & Hset & Hlen & Hget).
  { rewrite length_replicate. eapply Forall_impl; [exact Hall|].
    intros [k v] [Hk Hv]. cbn [fst snd] in *. lia. }
  rewrite length_replicate in Hlen.
  exists image.
  assert (Hlookup : forall k,
            parse_bin image !! k =
            if decide (0 <= k <= hi)
            then Some (default 0 ((list_to_map kvs : gmap Z Z) !! k))
            else None).
  { intros k. unfold parse_bin. rewrite parse_bin_from_lookup, Hlen.
    repeat case_decide; try lia; [|apply lookup_empty].
    replace (k - 0) with k by lia. rewrite Hget by lia.
    destruct (list_to_map kvs !! k); [reflexivity|].
    cbn [default]. apply lookup_replicate_2. lia. }
  split; [|split; [lia|split; [exact Hlookup|]]].
  - unfold assembler.generate_bin. rewrite Hkvs, Hmax.
    destruct (Z.ltb_spec (hi + 1) 0); [lia|]. rewrite <- Hkvs. exact Hset.
  - intros Hfull. apply map_eq. intros k. rewrite Hlookup.
    case_decide as Hk.
    + destruct (Hfull k Hk) as [v ->]. reflexivity.
    + symmetry. apply not_elem_of_list_to_map_1. intros Hin.
      apply list_elem_of_fmap in Hin as ([k' v'] & -> & Hin).
      rewrite Forall_forall in Hall. pose proof (Hall _ Hin) as [? _].
      cbn [fst] in *. lia.
Qed.

Lemma bin_round_trip_fills_gaps_witness :
  exists image,
    assembler.generate_bin [(2, 7); (0, 255)] = Py.Return image /\
    Z.of_nat (length image) = 2 + 1 /\
    (forall k,
        parse_bin image !! k =
        if decide (0 <= k <= 2)
        then Some (default 0 ((list_to_map [(2, 7); (0, 255)] : gmap Z Z) !! k))
        else None) /\
    ((forall k, 0 <= k <= 2 ->
                is_Some ((list_to_map [(2, 7); (0, 255)] : gmap Z Z) !! k)) ->
     parse_bin image = list_to_map [(2, 7); (0, 255)]).
Proof.
  apply (bin_round_trip_fills_gaps [(2, 7); (0, 255)] 2).
  - apply (bool_decide_unpack (NoDup (map fst [(2, 7); (0, 255)]))).
    vm_compute. reflexivity.
  - repeat constructor; cbn; lia.
  - cbn. set_solver.
  - lia.
Defined.

End loader_facts.
(** * The checks on a record *)

Module record_facts.
Import simulator simulator_facts codec_facts.
Open Scope string_scope.
Open Scope Z_scope.
Open Scope list_scope.

(** *** The checks on one Intel HEX record *)

Lemma sum_app l1 l2 : sum (l1 ++ l2) = sum l1 + sum l2.
Proof.
  unfold sum. induction l1 as [|x l1 IH]; cbn [app fold_right] in *; lia.
Qed.

Lemma twos_complement_check x ck :
  0 <= ck < 256 ->
  (Z.land (Z.lnot x + 1) 0xFF =? ck) = true <-> (x + ck) mod 256 = 0.
Proof.
  intros Hck. rewrite Z.eqb_eq, land_255.
  replace (Z.lnot x + 1) with (- x) by (unfold Z.lnot; lia).
  split; intros H; Z.div_mod_to_equations; lia.
Qed.

(** X16.  What [parse_hex] checks on a record.  A line made of a colon
    and the hexadecimal digits of at least five bytes (count, two address
    bytes, type, data, checksum) is accepted exactly when all its bytes
    sum to 0 modulo 256 and the count byte is the number of data bytes.
    Otherwise it raises [ValueError]: for the checksum when the sum is
    wrong, else for the byte count. *)
Theorem hex_record_accepted_iff (line_num count hi lo rtype ck : Z)
    (data : list Z) (result : gmap Z Z) :
  Forall (fun b => 0 <= b < 256)
         (count :: hi :: lo :: rtype :: data ++ [ck]) ->
  match parse_hex_line line_num
          (String.append ":"
             (assembler.hex_bytes (count :: hi :: lo :: rtype :: data ++ [ck])))
          result with
  | Py.Return _ =>
      (count + hi + lo + rtype + sum data + ck) mod 256 = 0 /\
      count = Z.of_nat (length data)
  | Py.Throw e =>
      (exists calc,
          e = Py.ValueError (ChecksumMismatch line_num calc ck) /\
          (count + hi + lo + rtype + sum data + ck) mod 256 <> 0) \/
      (e = Py.ValueError (ByteCountMismatch line_num) /\
       (count + hi + lo + rtype + sum data + ck) mod 256 = 0 /\
       count <> Z.of_nat (length data))
  end.
Proof.
  intros Hraw.
  set (raw := count :: hi :: lo :: rtype :: data ++ [ck]) in *.
  assert (Hck : 0 <= ck < 256).
  { subst raw. rewrite !Forall_cons, Forall_app, Forall_singleton in Hraw.
    tauto. }
  unfold parse_hex_line.
  rewrite strip_plain.
  2:{ rewrite append_cons, append_nil. cbn [all_plain].
      now rewrite hex_bytes_plain. }
  rewrite append_cons, append_nil.
  cbn [Str.startswith Ascii.eqb Bool.eqb andb Str.drop].
  rewrite startswith_empty. cbn [negb andb].
  unfold fromhex.
  rewrite <- (append_empty_r (assembler.hex_bytes raw)).
  rewrite fromhex_hex_bytes by assumption.
  cbn [Str.fromhex Py.obind]. rewrite app_nil_r.
  destruct (Z.ltb_spec (Z.of_nat (length raw)) 5) as [Hshort|_].
  { subst raw. cbn [length] in Hshort. rewrite length_app in Hshort.
    cbn [length] in Hshort. lia. }
  destruct (at_head count hi lo rtype (data ++ [ck])) as (H0 & H1 & H2 & H3).
  fold raw in H0, H1, H2, H3. rewrite H0, H1, H2, H3. cbn [Py.obind].
  subst raw. cbn [drop]. rewrite drop_0, removelast_last.
  change (count :: hi :: lo :: rtype :: data ++ [ck])
    with ((count :: hi :: lo :: rtype :: data) ++ [ck]).
  rewrite at_last, removelast_last. cbn [Py.obind].
  pose proof (twos_complement_check
                (sum (count :: hi :: lo :: rtype :: data)) ck Hck) as Hsum.
  replace (sum (count :: hi :: lo :: rtype :: data) + ck)
    with (count + hi + lo + rtype + sum data + ck) in Hsum
    by (unfold sum; cbn [fold_right]; lia).
  destruct (Z.land _ 255 =? ck) eqn:Hcalc; cbn [negb].
  - pose proof (proj1 Hsum eq_refl) as Hzero.
    destruct (Z.eqb_spec (Z.of_nat (length data)) count); cbn [negb].
    + destruct (rtype =? 1); [|destruct (rtype =? 0)];
        (split; [assumption|congruence]).
    + right. split; [reflexivity|]. split; [assumption|]. congruence.
  - left. eexists. split; [reflexivity|]. intros Hz. apply Hsum in Hz.
    discriminate.
Qed.

Lemma hex_record_accepted_iff_witness :
  match parse_hex_line 1
          (String.append ":"
             (assembler.hex_bytes (1 :: 0 :: 0 :: 0 :: [5] ++ [0xFA])))
          ∅ with
  | Py.Return _ =>
      (1 + 0 + 0 + 0 + sum [5] + 0xFA) mod 256 = 0 /\
      1 = Z.of_nat (length [5])
  | Py.Throw e =>
      (exists calc,
          e = Py.ValueError (ChecksumMismatch 1 calc 0xFA) /\
          (1 + 0 + 0 + 0 + sum [5] + 0xFA) mod 256 <> 0) \/
      (e = Py.ValueError (ByteCountMismatch 1) /\
       (1 + 0 + 0 + 0 + sum [5] + 0xFA) mod 256 = 0 /\
       1 <> Z.of_nat (length [5]))
  end.
Proof.
  apply (hex_record_accepted_iff 1 1 0 0 0 0xFA [5] ∅).
  repeat constructor; lia.
Defined.

End record_facts.
(** * Overlaps between files *)

Module overlap_facts.
Import simulator.
Open Scope string_scope.
Open Scope Z_scope.
Open Scope list_scope.

(** *** Overlaps between files *)

Lemma filter_nil_iff {T} (f : T -> bool) (l : list T) :
  List.filter f l = [] <-> forall x, x ∈ l -> f x = false.
Proof.
  induction l as [|y l IH]; cbn [List.filter].
  - split; [intros _ x Hx; now apply elem_of_nil in Hx|reflexivity].
  - destruct (f y) eqn:Hy.
    + split; [discriminate|]. intros H. specialize (H y (list_elem_of_here _ _)).
      congruence.
    + rewrite IH. split.
      * intros H x Hx. apply elem_of_cons in Hx as [->|Hx]; auto.
      * intros H x Hx. apply H. now apply list_elem_of_further.
Qed.

(** At most one item of [l] passes [f] exactly when no two items at
    different places both pass. *)
Lemma filter_at_most_one {T} (f : T -> bool) (l : list T) :
  (length (List.filter f l) <= 1)%nat <->
  forall i j x y, i <> j -> l !! i = Some x -> l !! j = Some y ->
                  ~ (f x = true /\ f y = true).
Proof.
  induction l as [|z l IH]; cbn [List.filter].
  - split; [intros _ i j x y _ Hi; now rewrite lookup_nil in Hi|cbn; lia].
  - destruct (f z) eqn:Hz; cbn [length].
    + split.
      * intros Hlen i j x y Hij Hi Hj [Hx Hy].
        assert (Hnil : List.filter f l = []).
        { destruct (List.filter f l); [reflexivity|cbn in Hlen; lia]. }
        rewrite filter_nil_iff in Hnil.
        destruct i as [|i], j as [|j]; try congruence; cbn in Hi, Hj.
        -- rewrite (Hnil y) in Hy; [discriminate|].
           eapply list_elem_of_lookup_2; eassumption.
        -- rewrite (Hnil x) in Hx; [discriminate|].
           eapply list_elem_of_lookup_2; eassumption.
        -- rewrite (Hnil x) in Hx; [discriminate|].
           eapply list_elem_of_lookup_2; eassumption.
      * intros H.
        assert (Hnil : List.filter f l = []).
        { apply filter_nil_iff. intros x Hx.
          apply list_elem_of_lookup_1 in Hx as [j Hj].
          destruct (f x) eqn:Hfx; [|reflexivity]. exfalso.
          apply (H 0%nat (S j) z x); [lia|reflexivity|exact Hj|auto]. }
        rewrite Hnil. cbn. lia.
    + rewrite IH. split.
      * intros H i j x y Hij Hi Hj [Hx Hy].
        destruct i as [|i], j as [|j]; try congruence; cbn in Hi, Hj.
        -- injection Hi as <-. congruence.
        -- injection Hj as <-. congruence.
        -- apply (H i j x y); auto.
      * intros H i j x y Hij Hi Hj.
        apply (H (S i) (S j) x y); auto.
Qed.

Definition holds (addr : Z) (pm : string * gmap Z Z) : bool :=
  bool_decide (is_Some (snd pm !! addr)).

Lemma owners_length file_maps addr :
  length (owners file_maps addr) = length (List.filter (holds addr) file_maps).
Proof. unfold owners. now rewrite length_map. Qed.

Lemma owned_in_keys file_maps addr :
  owners file_maps addr <> [] ->
  addr ∈ union_list (map (fun pm : string * gmap Z Z => dom (snd pm)) file_maps).
Proof.
  intros Hne. unfold owners in Hne.
  destruct (List.filter _ file_maps) as [|pm rest] eqn:Hf; [contradiction|].
  assert (Hin : In pm (List.filter (holds addr) file_maps))
    by (unfold holds; rewrite Hf; now left).
  apply filter_In in Hin as [Hin Hpm].
  apply elem_of_union_list. exists (dom (snd pm)). split.
  - apply list_elem_of_In, in_map_iff. eauto.
  - apply elem_of_dom. unfold holds in Hpm. now apply bool_decide_eq_true in Hpm.
Qed.

Lemma group_add_nonempty key addr groups : group_add key addr groups <> [].
Proof. destruct groups as [|[k addrs] rest]; cbn; [|case_decide]; discriminate. Qed.

Lemma fold_groups_nonempty (f : Z -> gset string) : forall l groups,
  groups <> [] ->
  fold_left (fun groups addr => group_add (f addr) addr groups) l groups <> [].
Proof.
  induction l as [|a l IH]; intros groups Hne; cbn [fold_left]; [assumption|].
  apply IH, group_add_nonempty.
Qed.

Lemma check_overlaps_nil file_maps :
  check_overlaps file_maps = [] <-> conflicts file_maps = [].
Proof.
  unfold check_overlaps. cbv zeta. split.
  - intros H. apply map_eq_nil in H.
    destruct (conflicts file_maps) as [|a l]; [reflexivity|]. exfalso.
    cbn [fold_left] in H. revert H.
    apply (fold_groups_nonempty (fun addr => list_to_set (owners file_maps addr))).
    apply group_add_nonempty.
  - intros ->. reflexivity.
Qed.

(** X17.  [check_overlaps] returns no error exactly when no address is
    held by two of the files: for any two different places in the list of
    files, the two address maps have no address in common.  (The same
    path given twice counts as two files.) *)
Theorem check_overlaps_empty_iff_disjoint
    (file_maps : list (string * gmap Z Z)) :
  check_overlaps file_maps = [] <->
  forall i j p q (m m' : gmap Z Z),
    i <> j -> file_maps !! i = Some (p, m) -> file_maps !! j = Some (q, m') ->
    forall addr, ~ (is_Some (m !! addr) /\ is_Some (m' !! addr)).
Proof.
  rewrite check_overlaps_nil. unfold conflicts. rewrite filter_nil_iff.
  split.
  - intros H i j p q m m' Hij Hi Hj addr [Hm Hm'].
    assert (Hlen : (length (owners file_maps addr) <= 1)%nat).
    { destruct (decide (owners file_maps addr = [])) as [->|Hne]; [cbn; lia|].
      apply owned_in_keys in Hne.
      specialize (H addr).
      rewrite merge_sort_Permutation, elem_of_elements in H.
      specialize (H Hne). apply Nat.ltb_ge in H. exact H. }
    rewrite owners_length, filter_at_most_one in Hlen.
    apply (Hlen i j (p, m) (q, m') Hij Hi Hj).
    unfold holds. cbn [snd]. now rewrite !bool_decide_eq_true.
  - intros H addr _. apply Nat.ltb_ge.
    rewrite owners_length, filter_at_most_one.
    intros i j [p m] [q m'] Hij Hi Hj [Hx Hy].
    unfold holds in Hx, Hy. cbn [snd] in Hx, Hy.
    apply bool_decide_eq_true in Hx, Hy.
    apply (H i j p q m m' Hij Hi Hj addr). auto.
Qed.

End overlap_facts.
(** * The assembler and the simulator together *)

Module cross_facts.
Import simulator simulator_facts cpu_facts.
Open Scope string_scope.
Open Scope Z_scope.
Open Scope list_scope.

(** *** Branches, from the assembler to the simulator *)

Definition branch_arm (cond_fn : bool -> bool -> bool) : op unit :=
  Py.bind fetch (fun disp_byte =>
    Py.bind (Py.gets z) (fun zf => Py.bind (Py.gets c) (fun cf =>
      if cond_fn zf cf then
        Py.bind (Py.gets pc) (fun p =>
          Py.modify (set_pc (Z.land (p + (if disp_byte <? 128 then disp_byte
                                          else disp_byte - 256)) 0xFF)))
      else Py.ret tt))).

(** The condition a branch mnemonic tests. *)
Definition taken (mnemonic : string) (zf cf : bool) : bool :=
  if decide (mnemonic = "BZ") then zf
  else if decide (mnemonic = "BNZ") then negb zf
  else if decide (mnemonic = "BC") then cf
  else negb cf.

Lemma branch_opcode mnemonic opcode :
  mnemonic ∈ assembler.BRANCH_INSTRUCTIONS ->
  Py.dict_get assembler.FIXED_OPCODES mnemonic = Some opcode ->
  exists cond_fn,
    Py.dict_get BRANCH_CONDITION opcode = Some (mnemonic, cond_fn) /\
    (forall zf cf, cond_fn zf cf = taken mnemonic zf cf) /\
    forall pc_before, execute opcode pc_before = branch_arm cond_fn.
Proof.
  intros Hm Hop.
  apply assembler_facts.branch_cases in Hm as [-> | [-> | [-> | ->]]];
    injection Hop as <-; eexists; (split; [reflexivity|]);
    (split; [reflexivity|]); reflexivity.
Qed.

Lemma branch_target_byte p target :
  -128 <= target - (p + 2) <= 127 ->
  Z.land (Z.land (p + 2) 0xFF
          + (if Z.land (target - (p + 2)) 0xFF <? 128
             then Z.land (target - (p + 2)) 0xFF
             else Z.land (target - (p + 2)) 0xFF - 256)) 0xFF
  = Z.land target 0xFF.
Proof.
  intros H. rewrite !land_255.
  destruct (Z.ltb_spec ((target - (p + 2)) mod 256) 128);
    Z.div_mod_to_equations; lia.
Qed.

(** X18.  A branch the assembler encodes is the branch the simulator
    executes.  Let the opcode the assembler's table gives for BZ, BNZ, BC
    or BNC stand at PC, followed by the displacement byte the assembler
    emits for a target within range.  Then the step tests the flag the
    mnemonic names (Z set, Z clear, C set, C clear) and ends with PC at
    the target, modulo 256, when the test holds and at the next
    instruction when it does not; nothing else changes but the cycle
    count. *)
Theorem branch_reaches_target (s : CPU) (mnemonic : string)
    (opcode target : Z) :
  mnemonic ∈ assembler.BRANCH_INSTRUCTIONS ->
  Py.dict_get assembler.FIXED_OPCODES mnemonic = Some opcode ->
  wf s -> halted s = false -> pc s ∈ loaded s ->
  Py.getitem (mem s) (pc s) = Some opcode ->
  -128 <= target - (pc s + 2) <= 127 ->
  Py.getitem (mem s) (Z.land (pc s + 1) 0xFF)
    = Some (Z.land (target - (pc s + 2)) 0xFF) ->
  step s =
  Py.Ok true
    (set_cycles (cycles s + 1)
       (set_pc (if taken mnemonic (z s) (c s)
                then Z.land target 0xFF else Z.land (pc s + 2) 0xFF) s)).
Proof.
  intros Hm Hop Hs Hh Hl Hmem Hrange Harg.
  destruct (branch_opcode mnemonic opcode Hm Hop) as (cond_fn & _ & Hcond & Hexec).
  rewrite (step_fetched s opcode Hs Hh Hl Hmem), Hexec. unfold branch_arm.
  pose proof (wf_after_fetch s Hs) as Hs0.
  rewrite (bind_Ok _ _ _ _ _ (fetch_at _ _ Hs0 Harg)). mrun.
  cbn [z c pc set_pc]. rewrite Hcond, next_next.
  destruct (taken mnemonic (z s) (c s)); mrun;
    cbn [finish halted cycles set_pc pc]; rewrite Hh; cbn [negb];
    f_equal; apply cpu_ext;
    cbn [a r pc z c sp stack mem loaded halted cycles stdout
         set_cycles set_pc]; try reflexivity.
  now apply branch_target_byte.
Qed.

Lemma branch_reaches_target_witness :
  step (set_pc 8 (set_z true (boot [(8, 0x68); (9, 0xFB)])))
  = Py.Ok true
      (set_cycles (cycles (set_pc 8 (set_z true (boot [(8, 0x68); (9, 0xFB)]))) + 1)
         (set_pc (if taken "BZ"
                       (z (set_pc 8 (set_z true (boot [(8, 0x68); (9, 0xFB)]))))
                       (c (set_pc 8 (set_z true (boot [(8, 0x68); (9, 0xFB)]))))
                  then Z.land 5 0xFF
                  else Z.land (pc (set_pc 8 (set_z true
                                     (boot [(8, 0x68); (9, 0xFB)]))) + 2) 0xFF)
            (set_pc 8 (set_z true (boot [(8, 0x68); (9, 0xFB)]))))).
Proof.
  apply (branch_reaches_target
           (set_pc 8 (set_z true (boot [(8, 0x68); (9, 0xFB)]))) "BZ" 0x68 5).
  - vm_compute. set_solver.
  - reflexivity.
  - apply wf_set_pc; [apply wf_set_z, wf_boot|unfold byte; lia].
  - reflexivity.
  - vm_compute. set_solver.
  - reflexivity.
  - vm_compute. split; discriminate.
  - reflexivity.
Defined.

(** *** The opcodes the assembler emits *)

(** The faults of [step] for a byte that is no instruction, and the two
    payloads that no [RuntimeError] of [step] carries: the one of
    [load_map] and the one of the digit limit. *)
Definition no_instruction (e : Py.exn fault) : bool :=
  match e with
  | Py.RuntimeError STImmediate => true
  | Py.RuntimeError (InvalidEncoding _ _ _) => true
  | Py.RuntimeError (InvalidOpcode _ _) => true
  | Py.RuntimeError (ByteRange _) => true
  | Py.RuntimeError DigitLimit => true
  | _ => false
  end.

Ltac compute_opcode :=
  match goal with
  | |- context [execute ?o _] =>
      let o' := eval vm_compute in o in change o with o'
  end.

Ltac executes :=
  compute_opcode; unfold execute;
  cbn [Z.shiftr Z.land Z.shiftl Pos.land Pos.shiftr Pos.iter Pos.div2 Z.div2
       Z.opp Z.of_N Pos.succ];
  unfold_cpu; avoids_tac.

Lemma fixed_opcode_executes name opcode pc_before :
  Py.dict_get assembler.FIXED_OPCODES name = Some opcode ->
  avoids no_instruction (execute opcode pc_before).
Proof.
  unfold assembler.FIXED_OPCODES. cbn [Py.dict_get].
  repeat (case_decide; [intros [= <-]; executes|]). discriminate.
Qed.

Lemma ld_st_opcode_executes is_store p m o v opcode operand pc_before :
  assembler.encode_ld_st is_store p m o v = Py.Return (opcode, operand) ->
  avoids no_instruction (execute opcode pc_before).
Proof.
  unfold assembler.encode_ld_st, assembler.subscript, assembler.r_bit_of.
  destruct is_store;
    unfold assembler.ST_CODES, assembler.LD_CODES, assembler.REG_MODE_R_BIT;
    cbn [Py.dict_get];
    repeat (case_decide; [subst p|]); cbn [Py.obind]; try discriminate;
    destruct m; try discriminate;
    try (destruct o as [o|]; [|discriminate]; cbn [Py.dict_get]);
    repeat case_decide; try discriminate;
    intros [= <- _]; executes.
Qed.

Lemma alu_opcode_executes mnemonic m reg v opcode operand pc_before :
  assembler.encode_alu mnemonic m reg v = Py.Return (opcode, operand) ->
  avoids no_instruction (execute opcode pc_before).
Proof.
  unfold assembler.encode_alu, assembler.subscript, assembler.r_bit_of.
  unfold assembler.ALU_INSTRUCTIONS. cbn [Py.dict_get].
  repeat (case_decide; [subst mnemonic|]); cbn [Py.obind]; try discriminate;
    destruct m; try discriminate;
    try (destruct (_ || _); [|discriminate]);
    repeat case_decide; intros [= <- _]; executes.
Qed.

(** X19.  Every opcode the assembler can emit is an instruction of the
    simulator.  Let the byte at PC be an opcode of the assembler's fixed
    table, or one an encoder ([encode_ld_st], [encode_alu]) returns.  Then
    a step of a well-formed, running CPU returns, or raises one of three
    faults: PC in unloaded memory, stack overflow, stack underflow.  It
    never raises an invalid-opcode, invalid-encoding or store-immediate
    fault. *)
Theorem emitted_opcodes_are_instructions (s : CPU) (opcode : Z) :
  ((exists name, Py.dict_get assembler.FIXED_OPCODES name = Some opcode) \/
   (exists is_store p m o v operand,
       assembler.encode_ld_st is_store p m o v = Py.Return (opcode, operand)) \/
   (exists mnemonic m reg v operand,
       assembler.encode_alu mnemonic m reg v = Py.Return (opcode, operand))) ->
  wf s -> Py.getitem (mem s) (pc s) = Some opcode ->
  match step s with
  | Py.Ok _ _ => True
  | Py.Raise e _ =>
      exists x, e = Py.RuntimeError (PCUnloaded x) \/
                e = Py.RuntimeError (StackOverflow x) \/
                e = Py.RuntimeError (StackUnderflow x)
  end.
Proof.
  intros Hemit Hs Hmem.
  assert (Hexec : forall pc_before,
            avoids no_instruction (execute opcode pc_before)).
  { intros pc_before.
    destruct Hemit as [(name & H)|[(is_store & p & m & o & v & operand & H)
                                  |(mnemonic & m & reg & v & operand & H)]].
    - eapply fixed_opcode_executes, H.
    - eapply ld_st_opcode_executes, H.
    - eapply alu_opcode_executes, H. }
  pose proof (safe_step s Hs) as Hsafe.
  destruct (step s) as [b s'|e s'] eqn:Hstep; [exact I|].
  destruct Hsafe as [_ Hrun].
  assert (Hno : no_instruction e = false).
  { destruct (halted s) eqn:Hh.
    { rewrite step_halted in Hstep by assumption. discriminate. }
    destruct (decide (pc s ∈ loaded s)) as [Hl|Hl].
    2:{ rewrite step_unloaded in Hstep by assumption. now injection Hstep as <- _. }
    rewrite (step_fetched s opcode Hs Hh Hl Hmem) in Hstep.
    destruct (execute opcode (pc s) _) as [[] s1|e1 s1] eqn:He; [discriminate|].
    cbn [finish] in Hstep. injection Hstep as <- _.
    eapply Hexec, He. }
  destruct e as [f| | | |]; try discriminate.
  destruct f; try discriminate; eauto.
Qed.

Lemma emitted_opcodes_are_instructions_witness :
  match step (boot [(0, 0x78)]) with
  | Py.Ok _ _ => True
  | Py.Raise e _ =>
      exists x, e = Py.RuntimeError (PCUnloaded x) \/
                e = Py.RuntimeError (StackOverflow x) \/
                e = Py.RuntimeError (StackUnderflow x)
  end.
Proof.
  apply (emitted_opcodes_are_instructions (boot [(0, 0x78)]) 0x78).
  - left. exists "RET". reflexivity.
  - apply wf_boot.
  - reflexivity.
Defined.


(** *** The fields of an opcode *)

Definition alu_name (x : alu) : string :=
  match x with
  | ADD => "ADD" | SUB => "SUB" | AND => "AND"
  | OR => "OR" | XOR => "XOR" | CMP => "CMP"
  end.

(** The fields [step] cuts an opcode into. *)
Definition iiiii_of (opcode : Z) : Z := Z.land (Z.shiftr opcode 3) 0x1F.
Definition bit_r_of (opcode : Z) : Z := Z.land (Z.shiftr opcode 2) 1.
Definition mm_of (opcode : Z) : Z := Z.land opcode 0x03.

(** *** What an assembled instruction does *)

(** The value a method returns in a state, if it returns. *)
Definition value_of {T} (m : op T) (s : CPU) : option T :=
  match m s with
  | Py.Ok v _ => Some v
  | Py.Raise _ _ => None
  end.

(** The register an operand names. *)
Definition register (name : option string) : option reg :=
  match name with
  | Some n =>
      if decide (n = "A") then Some A
      else if decide (n = "R0") then Some R0
      else if decide (n = "R1") then Some R1
      else None
  | None => None
  end.

(** The index register of an operand [[Rn+v]]: the encoders take every
    name but R0 for R1. *)
Definition index_register (other : option string) : reg :=
  if decide (other = Some "R0") then R0 else R1.

(** The address of a memory operand, [[v]] or [[Rn+v]], in the state
    [s]. *)
Definition address (m : assembler.mode) (other : option string) (v : Z)
    (s : CPU) : option Z :=
  match m with
  | assembler.Direct => Some (Z.land v 0xFF)
  | assembler.Indexed =>
      match value_of (_get_reg (index_register other)) s with
      | Some base => Some (Z.land (base + v) 0xFF)
      | None => None
      end
  | _ => None
  end.

(** The value of a source operand in the state [s]: the number itself,
    the content of the register, or the content of the memory cell. *)
Definition source (m : assembler.mode) (other : option string) (v : Z)
    (s : CPU) : option Z :=
  match m with
  | assembler.Imm => Some (Z.land v 0xFF)
  | assembler.Reg =>
      match register other with
      | Some y => value_of (_get_reg y) s
      | None => None
      end
  | assembler.Direct | assembler.Indexed =>
      match address m other v s with
      | Some addr => value_of (mem_read addr) s
      | None => None
      end
  | assembler.Value => None
  end.

(** Writing [value] to a destination operand, named in the state [s],
    done in the state [s0]. *)
Definition destination (m : assembler.mode) (other : option string) (v : Z)
    (value : Z) (s s0 : CPU) : option (Py.res fault CPU unit) :=
  match m with
  | assembler.Reg =>
      match register other with
      | Some y => Some (_set_reg y value s0)
      | None => None
      end
  | assembler.Direct | assembler.Indexed =>
      match address m other v s with
      | Some addr => Some (mem_write addr value s0)
      | None => None
      end
  | _ => None
  end.

(** The instruction, as encoded, lies at PC. *)
Definition placed (opcode : Z) (operand : option Z) (s : CPU) : Prop :=
  Py.getitem (mem s) (pc s) = Some opcode /\
  match operand with
  | Some b => Py.getitem (mem s) (Z.land (pc s + 1) 0xFF) = Some b
  | None => True
  end.

(** The state with PC after the instruction. *)
Definition past (operand : option Z) (s : CPU) : CPU :=
  set_pc (Z.land (pc s + match operand with Some _ => 2 | None => 1 end) 0xFF) s.

(** The fields of the opcode an encoder returns, as [execute] cuts
    them. *)
Definition fields (primary : reg) (m : assembler.mode)
    (other : option string) (v : Z) (opcode : Z) (operand : option Z) : Prop :=
  match m with
  | assembler.Imm => mm_of opcode = 0 /\ operand = Some (Z.land v 0xFF)
  | assembler.Reg =>
      mm_of opcode = 1 /\ operand = None /\
      exists y, register other = Some y /\
                forall s, reg_mode_lookup primary (bit_r_of opcode) s = Py.Ok y s
  | assembler.Direct => mm_of opcode = 2 /\ operand = Some (Z.land v 0xFF)
  | assembler.Indexed =>
      mm_of opcode = 3 /\ operand = Some (Z.land v 0xFF) /\
      ((index_register other = R0 /\ bit_r_of opcode = 0) \/
       (index_register other = R1 /\ bit_r_of opcode = 1))
  | assembler.Value => False
  end.

Ltac fields_tac :=
  unfold fields, mm_of, bit_r_of, index_register, register;
  repeat split; try reflexivity;
  first
    [ exists R0; split; [reflexivity|intros; reflexivity]
    | exists R1; split; [reflexivity|intros; reflexivity]
    | exists A; split; [reflexivity|intros; reflexivity]
    | case_decide; [left|right]; split;
      first [reflexivity|contradiction|congruence] ].

Lemma alu_fields mnemonic m other v opcode operand :
  assembler.encode_alu mnemonic m other v = Py.Return (opcode, operand) ->
  (exists x, Py.dict_get ALU_OPCODES (iiiii_of opcode) = Some x /\
             alu_name x = mnemonic) /\
  fields A m other v opcode operand.
Proof.
  unfold assembler.encode_alu, assembler.subscript, assembler.r_bit_of.
  unfold assembler.ALU_INSTRUCTIONS. cbn [Py.dict_get].
  repeat (case_decide; [subst mnemonic|]); cbn [Py.obind]; try discriminate;
    destruct m; try discriminate;
    try (destruct (bool_decide (other = Some "R0")) eqn:HR0;
         [apply bool_decide_eq_true in HR0; subst other
         |destruct (bool_decide (other = Some "R1")) eqn:HR1;
          [apply bool_decide_eq_true in HR1; subst other|discriminate]];
         cbn [orb]);
    repeat case_decide; try discriminate; intros [= <- <-];
    try (exfalso; congruence);
    (split; [eexists; split; reflexivity|]);
    fields_tac.
Qed.

Lemma ld_st_fields is_store p m other v opcode operand :
  assembler.encode_ld_st is_store p m other v = Py.Return (opcode, operand) ->
  exists x, p = reg_name x /\
            Py.dict_get (if is_store then ST_OPCODES else LD_OPCODES)
                        (iiiii_of opcode)
            = Some (if is_store then "ST" else "LD", x) /\
            fields x m other v opcode operand.
Proof.
  unfold assembler.encode_ld_st, assembler.subscript, assembler.r_bit_of.
  destruct is_store;
    unfold assembler.ST_CODES, assembler.LD_CODES, assembler.REG_MODE_R_BIT;
    cbn [Py.dict_get];
    repeat (case_decide; [subst p|]); cbn [Py.obind]; try discriminate;
    destruct m; try discriminate;
    try (destruct other as [o|]; [|discriminate]; cbn [Py.dict_get]);
    repeat (case_decide; [simplify_eq|]); try discriminate;
    repeat case_decide;
    intros [= <- <-];
    try (exfalso; congruence);
    first [ exists A; split; [reflexivity|split; [reflexivity|]]
          | exists R0; split; [reflexivity|split; [reflexivity|]]
          | exists R1; split; [reflexivity|split; [reflexivity|]] ];
    fields_tac.
Qed.


Lemma execute_ld opcode pc_before x :
  Py.dict_get LD_OPCODES (iiiii_of opcode) = Some ("LD", x) ->
  execute opcode pc_before =
  Py.bind (resolve_source (mm_of opcode) (bit_r_of opcode) x) (_set_reg x).
Proof.
  unfold iiiii_of. intros Hop. unfold execute. cbv zeta. now rewrite Hop.
Qed.

Lemma execute_st opcode pc_before x :
  Py.dict_get ST_OPCODES (iiiii_of opcode) = Some ("ST", x) ->
  execute opcode pc_before =
  Py.bind (_get_reg x) (resolve_dest (mm_of opcode) (bit_r_of opcode) x).
Proof.
  unfold iiiii_of. intros Hop. unfold execute. cbv zeta.
  set (i := Z.land (Z.shiftr opcode 3) 31) in *. clearbody i.
  assert (Hld : Py.dict_get LD_OPCODES i = None).
  { cbn in Hop. repeat case_decide; try discriminate; subst i; reflexivity. }
  now rewrite Hld, Hop.
Qed.

(** Reading a register or a memory cell does not depend on PC. *)
Lemma get_reg_set_pc y p s :
  value_of (_get_reg y) (set_pc p s) = value_of (_get_reg y) s.
Proof.
  destruct y; unfold value_of, _get_reg, index; mred; cbn [r set_pc];
    try reflexivity; now destruct (Py.getitem (r s) _).
Qed.

Lemma mem_read_set_pc addr p s :
  value_of (mem_read addr) (set_pc p s) = value_of (mem_read addr) s.
Proof.
  unfold value_of. rewrite !mem_read_lookup. cbn [mem set_pc].
  now destruct (mem s !! _).
Qed.

Lemma address_set_pc m other v p s :
  address m other v (set_pc p s) = address m other v s.
Proof. destruct m; cbn [address]; now rewrite ?get_reg_set_pc. Qed.

Lemma source_set_pc m other v p s :
  source m other v (set_pc p s) = source m other v s.
Proof.
  destruct m; cbn [source]; rewrite ?address_set_pc;
    repeat case_match; now rewrite ?get_reg_set_pc, ?mem_read_set_pc.
Qed.

Lemma land_add_land x y : Z.land (x + Z.land y 0xFF) 0xFF = Z.land (x + y) 0xFF.
Proof. rewrite !land_255. now rewrite Z.add_mod_idemp_r by lia. Qed.

(** The state after the operand byte, if there is one. *)
Definition after (operand : option Z) (s0 : CPU) : CPU :=
  match operand with
  | Some _ => set_pc (Z.land (pc s0 + 1) 0xFF) s0
  | None => s0
  end.

Definition operand_at (operand : option Z) (s0 : CPU) : Prop :=
  match operand with
  | Some b => Py.getitem (mem s0) (pc s0) = Some b
  | None => True
  end.

Lemma index_register_value other rb s0 :
  wf s0 ->
  (index_register other = R0 /\ rb = 0) \/ (index_register other = R1 /\ rb = 1) ->
  exists base, byte base /\
    index (r s0) rb s0 = Py.Ok base s0 /\
    value_of (_get_reg (index_register other)) s0 = Some base.
Proof.
  intros Hs [[-> ->] | [-> ->]];
    [ destruct (index_r_spec s0 0 Hs ltac:(lia)) as (base & Hb & Hi)
    | destruct (index_r_spec s0 1 Hs ltac:(lia)) as (base & Hb & Hi) ];
    exists base; (split; [assumption|]); (split; [assumption|]);
    unfold value_of, _get_reg; mred; now rewrite Hi.
Qed.

(** [resolve_source] on the fields of an encoded opcode yields the value
    of the operand. *)
Lemma source_resolved primary m other v opcode operand s0 :
  fields primary m other v opcode operand ->
  wf s0 -> operand_at operand s0 ->
  exists src,
    source m other v s0 = Some src /\ byte src /\
    resolve_source (mm_of opcode) (bit_r_of opcode) primary s0
      = Py.Ok src (after operand s0).
Proof.
  intros Hf Hs Hat. pose proof (wf_after_fetch s0 Hs) as Hs1.
  unfold resolve_source.
  destruct m; cbn [fields] in Hf; [| | | |contradiction].
  - destruct Hf as [-> ->]. cbn [operand_at after] in *.
    exists (Z.land v 0xFF). split; [reflexivity|]. split; [apply byte_land|].
    destruct (decide (0 = 0)); [|contradiction]. now apply fetch_at.
  - destruct Hf as (-> & -> & y & Hy & Hlook). cbn [after source].
    rewrite Hy.
    destruct (get_reg_spec s0 y Hs) as (w & Hw & Hg).
    exists w. unfold value_of. rewrite Hg. split; [reflexivity|].
    split; [assumption|].
    destruct (decide (1 = 0)); [discriminate|].
    destruct (decide (1 = 1)); [|contradiction].
    now rewrite (bind_Ok _ _ _ _ _ (Hlook s0)).
  - destruct Hf as [-> ->]. cbn [operand_at after source address] in *.
    destruct (mem_read_spec _ (Z.land v 0xFF) Hs1) as (w & Hw & Hr).
    exists w. split.
    { rewrite <- (mem_read_set_pc _ (Z.land (pc s0 + 1) 0xFF)).
      unfold value_of. now rewrite Hr. }
    split; [assumption|].
    destruct (decide (2 = 0)); [discriminate|].
    destruct (decide (2 = 1)); [discriminate|].
    destruct (decide (2 = 2)); [|contradiction].
    now rewrite (bind_Ok _ _ _ _ _ (fetch_at _ _ Hs Hat)).
  - destruct Hf as (-> & -> & Hreg). cbn [operand_at after source address] in *.
    destruct (index_register_value other (bit_r_of opcode) _ Hs1 Hreg)
      as (base & Hb & Hi & Hv).
    rewrite get_reg_set_pc in Hv. rewrite Hv.
    destruct (mem_read_spec _ (Z.land (base + v) 0xFF) Hs1) as (w & Hw & Hr).
    exists w. split.
    { rewrite <- (mem_read_set_pc _ (Z.land (pc s0 + 1) 0xFF)).
      unfold value_of. now rewrite Hr. }
    split; [assumption|].
    destruct (decide (3 = 0)); [discriminate|].
    destruct (decide (3 = 1)); [discriminate|].
    destruct (decide (3 = 2)); [discriminate|].
    destruct (decide (3 = 3)); [|contradiction].
    rewrite (bind_Ok _ _ _ _ _ (fetch_at _ _ Hs Hat)). mred.
    rewrite (bind_Ok _ _ _ _ _ Hi).
    now rewrite land_add_land.
Qed.

(** [resolve_dest] on the fields of an encoded store writes to the
    destination operand. *)
Lemma destination_resolved primary m other v opcode operand value s0 :
  fields primary m other v opcode operand ->
  m <> assembler.Imm ->
  wf s0 -> operand_at operand s0 ->
  exists s1,
    destination m other v value s0 (after operand s0) = Some (Py.Ok tt s1) /\
    wf s1 /\ halted s1 = halted s0 /\
    resolve_dest (mm_of opcode) (bit_r_of opcode) primary value s0
      = Py.Ok tt s1.
Proof.
  intros Hf Himm Hs Hat. pose proof (wf_after_fetch s0 Hs) as Hs1.
  unfold resolve_dest.
  destruct m; cbn [fields] in Hf; [contradiction| | | |contradiction].
  - destruct Hf as (-> & -> & y & Hy & Hlook). cbn [after destination].
    rewrite Hy.
    destruct (set_reg_spec s0 y value Hs) as (s1 & Hx & Hw & _ & Hh & _).
    exists s1. split; [now rewrite Hx|]. split; [assumption|].
    split; [assumption|].
    destruct (decide (1 = 0)); [discriminate|].
    destruct (decide (1 = 1)); [|contradiction].
    now rewrite (bind_Ok _ _ _ _ _ (Hlook s0)).
  - destruct Hf as [-> ->]. cbn [operand_at after destination address] in *.
    destruct (mem_write_spec _ (Z.land v 0xFF) value Hs1)
      as (s1 & Hx & Hw & _ & Hh & _).
    exists s1. split; [now rewrite Hx|]. split; [assumption|].
    split; [assumption|].
    destruct (decide (2 = 0)); [discriminate|].
    destruct (decide (2 = 1)); [discriminate|].
    destruct (decide (2 = 2)); [|contradiction].
    now rewrite (bind_Ok _ _ _ _ _ (fetch_at _ _ Hs Hat)).
  - destruct Hf as (-> & -> & Hreg). cbn [operand_at after destination address] in *.
    destruct (index_register_value other (bit_r_of opcode) _ Hs1 Hreg)
      as (base & Hb & Hi & Hv).
    rewrite get_reg_set_pc in Hv. rewrite Hv.
    destruct (mem_write_spec _ (Z.land (base + v) 0xFF) value Hs1)
      as (s1 & Hx & Hw & _ & Hh & _).
    exists s1. split; [now rewrite Hx|]. split; [assumption|].
    split; [assumption|].
    destruct (decide (3 = 0)); [discriminate|].
    destruct (decide (3 = 1)); [discriminate|].
    destruct (decide (3 = 2)); [discriminate|].
    destruct (decide (3 = 3)); [|contradiction].
    rewrite (bind_Ok _ _ _ _ _ (fetch_at _ _ Hs Hat)). mred.
    rewrite (bind_Ok _ _ _ _ _ Hi).
    now rewrite land_add_land.
Qed.

(** The state after the opcode and the operand are fetched. *)
Lemma after_fetch operand s :
  after operand (set_pc (Z.land (pc s + 1) 0xFF) s) = past operand s.
Proof.
  destruct operand; unfold after, past; cbn [pc set_pc];
    [now rewrite next_next|reflexivity].
Qed.

Lemma placed_operand opcode operand s :
  placed opcode operand s ->
  operand_at operand (set_pc (Z.land (pc s + 1) 0xFF) s).
Proof. intros [_ H]. destruct operand; [exact H|exact I]. Qed.


Lemma destination_set_pc m other v value p s s0 :
  destination m other v value (set_pc p s) s0
  = destination m other v value s s0.
Proof. destruct m; cbn [destination]; now rewrite ?address_set_pc. Qed.

Lemma store_not_immediate p other v opcode operand :
  assembler.encode_ld_st true p assembler.Imm other v
  <> Py.Return (opcode, operand).
Proof.
  unfold assembler.encode_ld_st.
  destruct (assembler.subscript _ p); cbn; discriminate.
Qed.

(** X20.  An ALU instruction as the assembler encodes it is the one the
    simulator executes.  With the opcode [encode_alu] returns at PC,
    followed by the operand byte if it returns one, a step of a
    well-formed, running CPU moves PC past the instruction and applies
    the operation of that mnemonic to A and the value of the operand: the
    number modulo 256 for an immediate, the content of the register
    named, the content of the cell [v mod 256] for a direct operand, and
    of the cell [(Rn + v) mod 256] for an indexed one. *)
Theorem alu_encoding_executes (mnemonic : string) (m : assembler.mode)
    (other : option string) (v opcode : Z) (operand : option Z) (s : CPU) :
  assembler.encode_alu mnemonic m other v = Py.Return (opcode, operand) ->
  wf s -> halted s = false -> pc s ∈ loaded s -> placed opcode operand s ->
  exists x src s1,
    alu_name x = mnemonic /\
    source m other v s = Some src /\
    alu_exec x src (past operand s) = Py.Ok tt s1 /\
    step s = Py.Ok true (set_cycles (cycles s1 + 1) s1).
Proof.
  intros Henc Hs Hh Hl Hplaced.
  destruct (alu_fields _ _ _ _ _ _ Henc) as [(x & Hx & Hname) Hf].
  pose proof (wf_after_fetch s Hs) as Hs0.
  destruct (source_resolved _ _ _ _ _ _ _ Hf Hs0 (placed_operand _ _ _ Hplaced))
    as (src & Hsrc & Hb & Hres).
  rewrite source_set_pc in Hsrc. rewrite after_fetch in Hres.
  assert (Hs1 : wf (past operand s)) by (apply wf_set_pc, byte_land; assumption).
  destruct (alu_exec_spec x src _ (wf_a _ Hs1) Hb) as (s1 & He & _ & Hh1).
  exists x, src, s1. repeat split; try assumption.
  rewrite (step_fetched s opcode Hs Hh Hl (proj1 Hplaced)).
  rewrite (execute_alu _ _ _ Hx).
  fold (mm_of opcode). fold (bit_r_of opcode).
  rewrite (bind_Ok _ _ _ _ _ Hres), He. cbn [finish].
  rewrite Hh1. unfold past. cbn [halted set_pc]. now rewrite Hh.
Qed.

Lemma alu_encoding_executes_witness :
  exists x src s1,
    alu_name x = "OR" /\
    source assembler.Indexed (Some "R1") 0x1234
      (boot [(0, 0x4F); (1, 0x34)]) = Some src /\
    alu_exec x src (past (Some 0x34) (boot [(0, 0x4F); (1, 0x34)]))
      = Py.Ok tt s1 /\
    step (boot [(0, 0x4F); (1, 0x34)])
      = Py.Ok true (set_cycles (cycles s1 + 1) s1).
Proof.
  apply (alu_encoding_executes "OR" assembler.Indexed (Some "R1") 0x1234 0x4F
           (Some 0x34) (boot [(0, 0x4F); (1, 0x34)])).
  - reflexivity.
  - apply wf_boot.
  - reflexivity.
  - vm_compute. set_solver.
  - split; reflexivity.
Defined.

(** X21.  A load or store as the assembler encodes it is the one the
    simulator executes.  With the opcode [encode_ld_st] returns at PC,
    followed by the operand byte if it returns one, a step of a
    well-formed, running CPU moves PC past the instruction and, for a
    load, sets the primary register to the value of the operand (a
    number, a register, the cell [v mod 256] or the cell
    [(Rn + v) mod 256]); for a store, writes the value of the primary
    register to the register named or to that cell. *)
Theorem ld_st_encoding_executes (is_store : bool) (p : string)
    (m : assembler.mode) (other : option string) (v opcode : Z)
    (operand : option Z) (s : CPU) :
  assembler.encode_ld_st is_store p m other v = Py.Return (opcode, operand) ->
  wf s -> halted s = false -> pc s ∈ loaded s -> placed opcode operand s ->
  exists x s1,
    p = reg_name x /\
    (if is_store
     then exists value,
            value_of (_get_reg x) s = Some value /\
            destination m other v value s (past operand s)
              = Some (Py.Ok tt s1)
     else exists src,
            source m other v s = Some src /\
            _set_reg x src (past operand s) = Py.Ok tt s1) /\
    step s = Py.Ok true (set_cycles (cycles s1 + 1) s1).
Proof.
  intros Henc Hs Hh Hl Hplaced.
  destruct (ld_st_fields _ _ _ _ _ _ _ Henc) as (x & Hp & Hx & Hf).
  pose proof (wf_after_fetch s Hs) as Hs0.
  pose proof (placed_operand _ _ _ Hplaced) as Hat.
  rewrite (step_fetched s opcode Hs Hh Hl (proj1 Hplaced)).
  destruct is_store.
  - assert (Himm : m <> assembler.Imm).
    { intros ->. exact (store_not_immediate _ _ _ _ _ Henc). }
    destruct (get_reg_spec _ x Hs0) as (value & Hv & Hg).
    destruct (destination_resolved _ _ _ _ _ _ value _ Hf Himm Hs0 Hat)
      as (s1 & Hd & Hs1 & Hh1 & Hres).
    rewrite destination_set_pc, after_fetch in Hd.
    exists x, s1. split; [assumption|]. split.
    + exists value. split; [|assumption].
      rewrite <- (get_reg_set_pc _ (Z.land (pc s + 1) 0xFF)).
      unfold value_of. now rewrite Hg.
    + rewrite (execute_st _ _ _ Hx), (bind_Ok _ _ _ _ _ Hg), Hres.
      cbn [finish]. rewrite Hh1. cbn [halted set_pc]. now rewrite Hh.
  - destruct (source_resolved _ _ _ _ _ _ _ Hf Hs0 Hat)
      as (src & Hsrc & Hb & Hres).
    rewrite source_set_pc in Hsrc. rewrite after_fetch in Hres.
    assert (Hs1 : wf (past operand s))
      by (apply wf_set_pc, byte_land; assumption).
    destruct (set_reg_spec _ x src Hs1) as (s1 & Hset & _ & _ & Hh1 & _).
    exists x, s1. split; [assumption|]. split.
    + exists src. auto.
    + rewrite (execute_ld _ _ _ Hx), (bind_Ok _ _ _ _ _ Hres), Hset.
      cbn [finish]. rewrite Hh1. unfold past. cbn [halted set_pc].
      now rewrite Hh.
Qed.

Lemma ld_st_encoding_executes_witness :
  exists x s1,
    "R0" = reg_name x /\
    (if true
     then exists value,
            value_of (_get_reg x) (boot [(0, 0x27); (1, 0x34)]) = Some value /\
            destination assembler.Indexed (Some "R1") 0x1234 value
              (boot [(0, 0x27); (1, 0x34)])
              (past (Some 0x34) (boot [(0, 0x27); (1, 0x34)]))
              = Some (Py.Ok tt s1)
     else exists src,
            source assembler.Indexed (Some "R1") 0x1234
              (boot [(0, 0x27); (1, 0x34)]) = Some src /\
            _set_reg x src (past (Some 0x34) (boot [(0, 0x27); (1, 0x34)]))
              = Py.Ok tt s1) /\
    step (boot [(0, 0x27); (1, 0x34)])
      = Py.Ok true (set_cycles (cycles s1 + 1) s1).
Proof.
  apply (ld_st_encoding_executes true "R0" assembler.Indexed (Some "R1")
           0x1234 0x27 (Some 0x34) (boot [(0, 0x27); (1, 0x34)])).
  - reflexivity.
  - apply wf_boot.
  - reflexivity.
  - vm_compute. set_solver.
  - split; reflexivity.
Defined.

End cross_facts.
(** * Object files *)

Module file_facts.
Import codec_facts.
Open Scope string_scope.
Open Scope Z_scope.
Open Scope list_scope.

(** *** Object files as bytes *)

(** Text of ASCII characters. *)
Fixpoint all_ascii (s : string) : bool :=
  match s with
  | EmptyString => true
  | String ch s' => (Str.ord ch <? 0x80) && all_ascii s'
  end.

Lemma all_ascii_app s t :
  all_ascii (String.append s t) = all_ascii s && all_ascii t.
Proof.
  induction s as [|ch s IH]; [reflexivity|].
  rewrite append_cons. cbn [all_ascii]. now rewrite IH, andb_assoc.
Qed.

Lemma format_02X_ascii b : is_byte b -> all_ascii (Str.format_02X b) = true.
Proof.
  intros Hb.
  apply (check_below 256 (fun b => all_ascii (Str.format_02X b))) in Hb;
    [exact Hb|].
  vm_compute. reflexivity.
Qed.

Lemma hex_bytes_ascii bs :
  Forall is_byte bs -> all_ascii (assembler.hex_bytes bs) = true.
Proof.
  induction 1 as [|b bs Hb _ IH]; [reflexivity|].
  rewrite hex_bytes_cons, all_ascii_app, format_02X_ascii, IH; auto.
Qed.

Lemma hex_record_ascii run :
  record_ok run -> all_ascii (assembler.hex_record run) = true.
Proof.
  destruct run as [base data]. intros (Hbase & Hlen & Hdata). cbn [fst snd] in *.
  unfold assembler.hex_record. rewrite append_cons, append_nil.
  cbn [all_ascii].
  rewrite all_ascii_app, hex_bytes_ascii, format_02X_ascii; try reflexivity.
  - apply land_byte.
  - repeat constructor; try apply land_byte; try assumption; unfold is_byte; lia.
Qed.

Lemma s1_record_ascii run :
  record_ok run -> all_ascii (assembler.s1_record run) = true.
Proof.
  destruct run as [base data]. intros (Hbase & Hlen & Hdata). cbn [fst snd] in *.
  unfold assembler.s1_record, assembler.srec_record.
  rewrite !append_cons, append_nil. cbn [all_ascii].
  rewrite all_ascii_app, hex_bytes_ascii, format_02X_ascii; try reflexivity.
  - apply land_byte.
  - repeat constructor; try apply land_byte; try assumption; unfold is_byte; lia.
Qed.

Lemma text_of_ascii lines :
  Forall (fun l => all_ascii l = true) lines -> all_ascii (text_of lines) = true.
Proof.
  induction 1 as [|l ls Hl _ IH]; [reflexivity|].
  cbn [text_of]. rewrite all_ascii_app, Hl. cbn [all_ascii andb].
  rewrite IH. reflexivity.
Qed.

Lemma rendered_ascii render rs :
  (forall run, record_ok run -> all_ascii (render run) = true) ->
  Forall record_ok rs ->
  Forall (fun l => all_ascii l = true) (map render rs).
Proof.
  intros Hrender Hok. apply Forall_forall. intros l Hl.
  apply list_elem_of_fmap in Hl as (run & -> & Hrun).
  apply Hrender. rewrite Forall_forall in Hok. now apply Hok.
Qed.

(** The records of a map, as both generators cut them. *)
Definition records (m : gmap Z Z) : list (Z * list Z) :=
  if decide (m = ∅) then []
  else assembler.runs (length (assembler.sorted_keys m)) m
         (assembler.sorted_keys m).

Lemma records_ok m : byte_map m -> Forall record_ok (records m).
Proof.
  intros Hm. unfold records. destruct (decide (m = ∅)); [constructor|].
  now apply runs_of_byte_map.
Qed.

Lemma generate_hex_text m :
  assembler.generate_hex m
  = text_of (map assembler.hex_record (records m) ++ [hex_eof]).
Proof.
  unfold assembler.generate_hex, records.
  destruct (decide (m = ∅)); [reflexivity|].
  fold hex_eof. apply generated_text.
Qed.

Lemma generate_srec_text m :
  assembler.generate_srec m
  = text_of (srec_header :: map assembler.s1_record (records m) ++ [srec_end]).
Proof.
  unfold assembler.generate_srec, records. cbv zeta.
  fold srec_header. fold srec_end.
  replace (if decide (m = ∅) then []
           else map assembler.s1_record
                  (assembler.runs (length (assembler.sorted_keys m)) m
                     (assembler.sorted_keys m)))
    with (map assembler.s1_record
            (if decide (m = ∅) then []
             else assembler.runs (length (assembler.sorted_keys m)) m
                    (assembler.sorted_keys m)))
    by (now destruct (decide (m = ∅))).
  rewrite app_assoc, generated_text, <- app_assoc. reflexivity.
Qed.

Lemma generate_hex_ascii m :
  byte_map m -> all_ascii (assembler.generate_hex m) = true.
Proof.
  intros Hm. rewrite generate_hex_text. apply text_of_ascii.
  apply Forall_app. split; [|repeat constructor].
  apply rendered_ascii; [apply hex_record_ascii|now apply records_ok].
Qed.

Lemma generate_srec_ascii m :
  byte_map m -> all_ascii (assembler.generate_srec m) = true.
Proof.
  intros Hm. rewrite generate_srec_text. apply text_of_ascii.
  constructor; [reflexivity|].
  apply Forall_app. split; [|repeat constructor].
  apply rendered_ascii; [apply s1_record_ascii|now apply records_ok].
Qed.

(** The first character of the generated texts. *)
Lemma generate_hex_head m :
  exists t, assembler.generate_hex m = String ":" t.
Proof.
  rewrite generate_hex_text. destruct (records m) as [|[base data] rs].
  - eexists. reflexivity.
  - cbn [map app text_of]. unfold assembler.hex_record.
    rewrite !append_cons, append_nil. eexists. reflexivity.
Qed.

Lemma generate_srec_head m :
  exists t, assembler.generate_srec m = String "S" t.
Proof.
  rewrite generate_srec_text. cbn [text_of].
  unfold srec_header, assembler.srec_record.
  rewrite !append_cons. eexists. reflexivity.
Qed.

(** [s.encode("ascii").decode("ascii") == s] *)
Lemma decode_encode s :
  all_ascii s = true -> Str.decode_ascii (Str.encode s) = Some s.
Proof.
  intros Hs. unfold Str.decode_ascii, Str.encode.
  assert (Hall : forallb (fun b => b <? 0x80)
                   (map Str.ord (list_ascii_of_string s)) = true).
  { induction s as [|ch s IH]; [reflexivity|].
    cbn [all_ascii] in Hs. apply andb_prop in Hs as [Hch Hs].
    cbn [list_ascii_of_string map forallb]. now rewrite Hch, IH. }
  rewrite Hall. f_equal. rewrite map_map.
  clear. induction s as [|ch s IH]; [reflexivity|].
  cbn [list_ascii_of_string map string_of_list_ascii]. rewrite IH.
  f_equal. unfold Str.ord. now rewrite N2Z.id, ascii_N_embedding.
Qed.

Lemma detect_format_hex path t :
  let ext := Str.lower (snd (Str.splitext path)) in
  ext <> ".srec" -> ext <> ".bin" -> all_ascii (String ":" t) = true ->
  simulator.detect_format path (Str.encode (String ":" t)) = "hex".
Proof.
  intros ext Hsrec Hbin Hascii. unfold simulator.detect_format. fold ext.
  destruct (decide (ext = ".hex")); [reflexivity|].
  destruct (decide (ext = ".srec")); [contradiction|].
  destruct (decide (ext = ".bin")); [contradiction|].
  rewrite decode_encode by assumption.
  change (Str.lstrip_by Str.isspace (String ":" t)) with (String ":" t).
  change (Str.startswith (String ":" t) ":") with (Str.startswith t "").
  now rewrite startswith_empty.
Qed.

Lemma detect_format_srec path t :
  let ext := Str.lower (snd (Str.splitext path)) in
  ext <> ".hex" -> ext <> ".bin" -> all_ascii (String "S" t) = true ->
  simulator.detect_format path (Str.encode (String "S" t)) = "srec".
Proof.
  intros ext Hhex Hbin Hascii. unfold simulator.detect_format. fold ext.
  destruct (decide (ext = ".hex")); [contradiction|].
  destruct (decide (ext = ".srec")); [reflexivity|].
  destruct (decide (ext = ".bin")); [contradiction|].
  rewrite decode_encode by assumption.
  change (Str.lstrip_by Str.isspace (String "S" t)) with (String "S" t).
  change (Str.startswith (String "S" t) ":") with false.
  change (Str.startswith (String "S" t) "S") with (Str.startswith t "").
  now rewrite startswith_empty.
Qed.

(** X22.  The simulator reads the files the assembler writes.  For a map
    of bytes at addresses 0 to 255, [parse_file] applied to the Intel HEX
    text of the map, encoded as ASCII, gives the map back whatever the
    name of the file, unless its extension is [.srec] or [.bin] (in any
    mix of cases); and applied to the S-record text it gives the map back
    unless the extension is [.hex] or [.bin].  Without one of the three
    extensions the format is found from the first character. *)
Theorem parse_file_reads_generated (path : string) (m : gmap Z Z) :
  (forall k v, m !! k = Some v -> 0 <= k <= 255 /\ 0 <= v <= 255) ->
  let ext := Str.lower (snd (Str.splitext path)) in
  (ext <> ".srec" -> ext <> ".bin" ->
   simulator.parse_file path (Str.encode (assembler.generate_hex m)) = inr m) /\
  (ext <> ".hex" -> ext <> ".bin" ->
   simulator.parse_file path (Str.encode (assembler.generate_srec m)) = inr m).
Proof.
  intros Hm ext. split; intros H1 H2; unfold simulator.parse_file.
  - pose proof (generate_hex_ascii m Hm) as Hascii.
    destruct (generate_hex_head m) as [t Ht].
    rewrite Ht in Hascii |- *.
    rewrite (detect_format_hex path t H1 H2 Hascii).
    destruct (decide ("hex" = "hex")); [|contradiction].
    rewrite decode_encode by assumption.
    rewrite <- Ht, (parse_hex_generated m Hm). reflexivity.
  - pose proof (generate_srec_ascii m Hm) as Hascii.
    destruct (generate_srec_head m) as [t Ht].
    rewrite Ht in Hascii |- *.
    rewrite (detect_format_srec path t H1 H2 Hascii).
    destruct (decide ("srec" = "hex")); [discriminate|].
    destruct (decide ("srec" = "srec")); [|contradiction].
    rewrite decode_encode by assumption.
    rewrite <- Ht, (parse_srec_generated m Hm). reflexivity.
Qed.

Lemma parse_file_reads_generated_witness :
  let ext := Str.lower (snd (Str.splitext "out/prog.HEX")) in
  (ext <> ".srec" -> ext <> ".bin" ->
   simulator.parse_file "out/prog.HEX" (Str.encode (assembler.generate_hex sample))
   = inr sample) /\
  (ext <> ".hex" -> ext <> ".bin" ->
   simulator.parse_file "out/prog.HEX"
     (Str.encode (assembler.generate_srec sample)) = inr sample).
Proof.
  apply (parse_file_reads_generated "out/prog.HEX" sample).
  exact sample_bytes.
Defined.

End file_facts.
(** * Listing *)

Module listing_facts.
Import assembler codec_facts.
Open Scope string_scope.
Open Scope Z_scope.
Open Scope list_scope.

(** *** The columns of the listing *)

Lemma length_append s t :
  String.length (String.append s t) = (String.length s + String.length t)%nat.
Proof.
  induction s as [|ch s IH]; [reflexivity|].
  rewrite append_cons. cbn [String.length]. now rewrite IH.
Qed.

Lemma hex_digits_length : forall fuel n acc (k : nat),
  0 <= n < 16 ^ Z.of_nat k ->
  (String.length (Str.hex_digits fuel n acc) <= String.length acc + k)%nat.
Proof.
  induction fuel as [|fuel IH]; intros n acc k Hn; cbn [Str.hex_digits].
  - lia.
  - destruct (Z.eqb_spec n 0); [lia|].
    destruct k as [|k]; [cbn in Hn; lia|].
    rewrite Nat2Z.inj_succ, Z.pow_succ_r in Hn by lia.
    assert (Hq : 0 <= n / 16 < 16 ^ Z.of_nat k).
    { split; [apply Z.div_pos; lia|apply Z.div_lt_upper_bound; lia]. }
    specialize (IH (n / 16) (String (Str.hex_digit (n mod 16)) acc) k Hq).
    cbn [String.length] in IH. lia.
Qed.

Lemma repeat_char_length ch n : String.length (Str.repeat_char ch n) = n.
Proof. induction n as [|n IH]; cbn; [reflexivity|now rewrite IH]. Qed.

Lemma format_04X_length addr :
  0 <= addr <= 0xFFFF -> String.length (Str.format_04X addr) = 4%nat.
Proof.
  intros Ha. unfold Str.format_04X.
  destruct (Z.ltb_spec addr 0); [lia|].
  assert (Hlen : (String.length (Str.hex addr) <= 4)%nat).
  { unfold Str.hex. destruct (addr =? 0); [cbn; lia|].
    apply (hex_digits_length _ addr "" 4). cbn. lia. }
  rewrite length_append, repeat_char_length. lia.
Qed.

(** [raw.rstrip("\n\r")] *)
Definition rstrip_eol (raw : string) : string :=
  Str.rstrip_by (fun ch => Str.is_char Str.newline ch
                           || Str.is_char (ascii_of_nat 13) ch) raw.

(** The bytes of a line, in hexadecimal with spaces between them and
    padded to twelve columns. *)
Definition hex_column (bytelist : list Z) : string :=
  Str.ljust 12 (Str.join " " (map Str.format_02X bytelist)).

Lemma hex_column_length bytelist :
  Forall is_byte bytelist -> (length bytelist <= 4)%nat ->
  String.length (hex_column bytelist) = 12%nat.
Proof.
  intros Hb Hlen. unfold hex_column.
  destruct bytelist as [|b1 [|b2 [|b3 [|b4 [|b5 tl]]]]];
    try (cbn in Hlen; lia);
    repeat match goal with
           | H : Forall _ (_ :: _) |- _ =>
               let Hx := fresh "Hx" in
               apply Forall_cons in H as [Hx H];
               apply format_02X_byte in Hx
           end;
    cbn [map Str.join]; rewrite ?Hx, ?Hx0, ?Hx1, ?Hx2; reflexivity.
Qed.

(** X23.  The source column of the listing.  In the line that
    [generate_lst] writes for an entry, the text of the source line, cut
    of its line ends, starts at column 20 when the entry has no address,
    or has an address from 0 to 0xFFFF and at most four bytes. *)
Theorem listing_source_starts_at_column_20 (addr : option Z)
    (bytelist : list Z) (raw : string) :
  (forall a, addr = Some a -> 0 <= a <= 0xFFFF) ->
  Forall (fun b => 0 <= b < 256) bytelist -> (length bytelist <= 4)%nat ->
  exists prefix,
    lst_line (addr, bytelist, raw) = String.append prefix (rstrip_eol raw) /\
    String.length prefix = 20%nat.
Proof.
  intros Ha Hb Hlen. unfold lst_line. fold (rstrip_eol raw).
  destruct addr as [a|].
  2:{ eexists. split; reflexivity. }
  specialize (Ha a eq_refl).
  destruct bytelist as [|b tl].
  - exists (String.append (Str.format_04X a) "                ").
    split; [now rewrite append_assoc|].
    rewrite length_append, format_04X_length by assumption. reflexivity.
  - fold (hex_column (b :: tl)).
    exists (String.append (Str.format_04X a)
              (String.append "  " (String.append (hex_column (b :: tl)) "  "))).
    split; [now rewrite !append_assoc|].
    rewrite !length_append, format_04X_length, hex_column_length
      by assumption.
    reflexivity.
Qed.

Lemma listing_source_starts_at_column_20_witness :
  exists prefix,
    lst_line (Some 0x10, [0x07; 0x02], "        LD A, [R1+2]")
    = String.append prefix (rstrip_eol "        LD A, [R1+2]") /\
    String.length prefix = 20%nat.
Proof.
  apply (listing_source_starts_at_column_20 (Some 0x10) [0x07; 0x02]).
  - intros a [= <-]. lia.
  - repeat constructor; lia.
  - cbn. lia.
Defined.

End listing_facts.
(** * Numbers as text *)

Module number_facts.
Import server.
Open Scope string_scope.
Open Scope Z_scope.
Open Scope list_scope.

(** *** Numbers as text *)

Ltac append :=
  rewrite ?codec_facts.append_cons, ?codec_facts.append_nil.

(** A decimal digit. *)
Definition digit (ch : ascii) : Prop := Str.between 0x30 0x39 ch = true.

(** A string of decimal digits. *)
Fixpoint digits (s : string) : Prop :=
  match s with
  | EmptyString => True
  | String ch s' => digit ch /\ digits s'
  end.

Lemma digit_cases ch :
  digit ch ->
  ch = "0"%char \/ ch = "1"%char \/ ch = "2"%char \/ ch = "3"%char \/
  ch = "4"%char \/ ch = "5"%char \/ ch = "6"%char \/ ch = "7"%char \/
  ch = "8"%char \/ ch = "9"%char.
Proof.
  destruct ch as [[] [] [] [] [] [] [] []]; vm_compute; intros H;
    try discriminate H; tauto.
Qed.

Lemma hex_digit_decimal d :
  0 <= d < 10 ->
  digit (Str.hex_digit d) /\ Str.digit_value (Str.hex_digit d) = d.
Proof.
  intros Hd.
  assert (Hc : d = 0 \/ d = 1 \/ d = 2 \/ d = 3 \/ d = 4 \/ d = 5 \/ d = 6 \/
               d = 7 \/ d = 8 \/ d = 9) by lia.
  repeat destruct Hc as [->|Hc]; try subst d; split; reflexivity.
Qed.

Lemma digits_app s t : digits s -> digits t -> digits (s ++ t).
Proof.
  induction s as [|ch s IH]; append; cbn [digits]; [auto|].
  intros [Hch Hs] Ht. split; [exact Hch|now apply IH].
Qed.

Lemma dec_digits_app : forall fuel n acc,
  Str.dec_digits fuel n acc = (Str.dec_digits fuel n "" ++ acc)%string.
Proof.
  induction fuel as [|fuel IH]; intros n acc; cbn [Str.dec_digits].
  - reflexivity.
  - destruct (n =? 0); [reflexivity|].
    rewrite IH, (IH _ (String _ "")), codec_facts.append_assoc. reflexivity.
Qed.

Lemma dec_digits_digits : forall fuel n, 0 <= n -> digits (Str.dec_digits fuel n "").
Proof.
  induction fuel as [|fuel IH]; intros n Hn; cbn [Str.dec_digits].
  - exact I.
  - destruct (n =? 0); [exact I|]. rewrite dec_digits_app.
    apply digits_app.
    + apply IH. apply Z.div_pos; lia.
    + split; [|exact I]. apply hex_digit_decimal. apply Z.mod_pos_bound. lia.
Qed.

Lemma int_digits_snoc d : forall s a,
  digits s -> digit d ->
  Str.int_digits 10 (s ++ String d "") a false
  = match Str.int_digits 10 s a false with
    | Some v => Some (v * 10 + Str.digit_value d)
    | None => None
    end.
Proof.
  assert (Hone : forall ch, digit ch ->
            Str.is_char "_" ch = false /\ (Str.digit_value ch <? 10) = true).
  { intros ch Hch. apply digit_cases in Hch.
    repeat destruct Hch as [->|Hch]; try subst ch; split; reflexivity. }
  induction s as [|ch s IH]; intros a Hs Hd; append; cbn [Str.int_digits].
  - destruct (Hone d Hd) as [-> ->]. reflexivity.
  - destruct Hs as [Hch Hs]. destruct (Hone ch Hch) as [-> ->]. now apply IH.
Qed.

Lemma int_digits_dec_digits : forall fuel n,
  0 <= n < 2 ^ Z.of_nat fuel ->
  Str.int_digits 10 (Str.dec_digits fuel n "") 0 false = Some n.
Proof.
  induction fuel as [|fuel IH]; intros n Hn; cbn [Str.dec_digits].
  - cbn in Hn. assert (n = 0) as -> by lia. reflexivity.
  - destruct (Z.eqb_spec n 0) as [->|Hz]; [reflexivity|].
    rewrite dec_digits_app.
    assert (Hq : 0 <= n / 10 < 2 ^ Z.of_nat fuel).
    { split; [apply Z.div_pos; lia|].
      apply Z.div_lt_upper_bound; [lia|].
      rewrite Nat2Z.inj_succ, Z.pow_succ_r in Hn by lia. lia. }
    assert (Hm : 0 <= n mod 10 < 10) by (apply Z.mod_pos_bound; lia).
    rewrite int_digits_snoc.
    + rewrite (IH _ Hq). destruct (hex_digit_decimal _ Hm) as [_ ->].
      f_equal. pose proof (Z.div_mod n 10). lia.
    + apply dec_digits_digits. lia.
    + now apply hex_digit_decimal.
Qed.

(** The digits [str] writes for a positive number. *)
Definition numeral (n : Z) : string :=
  Str.dec_digits (S (Z.to_nat (Z.log2 n))) n "".

Lemma numeral_spec n :
  0 < n ->
  exists ch t, numeral n = String ch t /\ digit ch /\ digits t /\
               Str.int_digits 10 (numeral n) 0 false = Some n.
Proof.
  intros Hn. unfold numeral.
  assert (Hfuel : 0 <= n < 2 ^ Z.of_nat (S (Z.to_nat (Z.log2 n)))).
  { split; [lia|]. rewrite Nat2Z.inj_succ, Z2Nat.id by apply Z.log2_nonneg.
    apply Z.log2_spec. lia. }
  pose proof (int_digits_dec_digits _ _ Hfuel) as Hint.
  pose proof (dec_digits_digits (S (Z.to_nat (Z.log2 n))) n ltac:(lia)) as Hd.
  destruct (Str.dec_digits _ n "") as [|ch t] eqn:Heq.
  - cbn in Hint. injection Hint as <-. lia.
  - destruct Hd as [Hch Ht]. exists ch, t. auto.
Qed.

(** A number below [10 ^ k] is written in [k] digits at most. *)
Lemma dec_digits_length : forall fuel n acc (k : nat),
  0 <= n < 10 ^ Z.of_nat k ->
  (String.length (Str.dec_digits fuel n acc) <= String.length acc + k)%nat.
Proof.
  induction fuel as [|fuel IH]; intros n acc k Hn; cbn [Str.dec_digits].
  - lia.
  - destruct (Z.eqb_spec n 0); [lia|].
    destruct k as [|k]; [cbn in Hn; lia|].
    rewrite Nat2Z.inj_succ, Z.pow_succ_r in Hn by lia.
    assert (Hq : 0 <= n / 10 < 10 ^ Z.of_nat k).
    { split; [apply Z.div_pos; lia|apply Z.div_lt_upper_bound; lia]. }
    specialize (IH (n / 10) (String (Str.hex_digit (n mod 10)) acc) k Hq).
    cbn [String.length] in IH. lia.
Qed.

Lemma digit_count_digits s : digits s -> Str.digit_count s = String.length s.
Proof.
  induction s as [|ch s IH]; cbn [digits Str.digit_count String.length];
    [reflexivity|].
  intros [Hch Hs]. rewrite (IH Hs).
  apply digit_cases in Hch.
  repeat destruct Hch as [->|Hch]; try subst ch; reflexivity.
Qed.

(** The numeral of a number below the limit is within the digits [int]
    reads. *)
Lemma numeral_count n :
  0 < n < Str.int_limit ->
  (Str.MAX_STR_DIGITS <? Str.digit_count (numeral n))%nat = false.
Proof.
  intros [Hpos Hn]. apply Nat.ltb_ge.
  rewrite digit_count_digits by (apply dec_digits_digits; lia).
  unfold Str.int_limit in Hn.
  apply (dec_digits_length _ n "" Str.MAX_STR_DIGITS). lia.
Qed.

(** *** White space around a numeral *)

Section Strip.
Variable p : ascii -> bool.
Hypothesis p_digit : forall ch, digit ch -> p ch = false.
Hypothesis p_minus : p "-" = false.

Lemma rstrip_digits s : digits s -> Str.rstrip_by p s = s.
Proof.
  induction s as [|ch s IH]; cbn [Str.rstrip_by digits]; [reflexivity|].
  intros [Hch Hs]. rewrite (IH Hs), (p_digit _ Hch).
  now destruct s.
Qed.

Lemma strip_digits ch t :
  digit ch -> digits t -> Str.strip_by p (String ch t) = String ch t.
Proof.
  intros Hch Ht. unfold Str.strip_by. cbn [Str.lstrip_by].
  rewrite (p_digit _ Hch). apply rstrip_digits. now split.
Qed.

Lemma strip_minus ch t :
  digit ch -> digits t ->
  Str.strip_by p (String "-" (String ch t)) = String "-" (String ch t).
Proof.
  intros Hch Ht. unfold Str.strip_by. cbn [Str.lstrip_by].
  rewrite p_minus.
  change (Str.rstrip_by p (String "-" (String ch t)))
    with (match Str.rstrip_by p (String ch t) with
          | EmptyString => if p "-" then EmptyString else String "-" EmptyString
          | u => String "-" u
          end).
  now rewrite (rstrip_digits (String ch t)) by (split; assumption).
Qed.
End Strip.

Lemma digit_not_space ch : digit ch -> Str.isspace ch = false.
Proof.
  intros Hch. apply digit_cases in Hch.
  repeat destruct Hch as [->|Hch]; try subst ch; reflexivity.
Qed.

Lemma digit_not_int_space ch : digit ch -> Str.int_space ch = false.
Proof.
  intros Hch. apply digit_cases in Hch.
  repeat destruct Hch as [->|Hch]; try subst ch; reflexivity.
Qed.

(** *** Reading back what [str] wrote *)

Lemma int_numeral n :
  0 < n < Str.int_limit -> Str.int (numeral n) 10 = Some n.
Proof.
  intros Hn. pose proof (numeral_count n Hn) as Hcount.
  destruct (numeral_spec n) as (ch & t & Heq & Hch & Ht & Hint); [lia|].
  unfold Str.int. rewrite Heq in *.
  rewrite (strip_digits _ digit_not_int_space) by assumption.
  apply digit_cases in Hch.
  repeat destruct Hch as [->|Hch]; try subst ch;
    try (cbv beta iota; rewrite Hcount, Hint; cbn [andb Z.eqb Pos.eqb];
         f_equal; lia);
    destruct t as [|x t]; cbv beta iota;
    change ((10 =? 16) && _ || (10 =? 2) && _) with false;
    cbv beta iota; rewrite Hcount, Hint; cbn [andb Z.eqb Pos.eqb];
    f_equal; lia.
Qed.

Lemma int_negative n :
  0 < n < Str.int_limit -> Str.int (String "-" (numeral n)) 10 = Some (- n).
Proof.
  intros Hn. pose proof (numeral_count n Hn) as Hcount.
  destruct (numeral_spec n) as (ch & t & Heq & Hch & Ht & Hint); [lia|].
  unfold Str.int. rewrite Heq in *.
  rewrite (strip_minus _ digit_not_int_space eq_refl) by assumption.
  apply digit_cases in Hch.
  repeat destruct Hch as [->|Hch]; try subst ch;
    try (cbv beta iota; rewrite Hcount, Hint; cbn [andb Z.eqb Pos.eqb];
         f_equal; lia);
    destruct t as [|x t]; cbv beta iota;
    change ((10 =? 16) && _ || (10 =? 2) && _) with false;
    cbv beta iota; rewrite Hcount, Hint; cbn [andb Z.eqb Pos.eqb];
    f_equal; lia.
Qed.

(** [int(str(n)) == n], for a number [str] writes. *)
Lemma int_of_int n :
  Z.abs n < Str.int_limit -> Str.int (Str.of_int n) 10 = Some n.
Proof.
  intros Hn. unfold Str.of_int.
  destruct (Z.eqb_spec n 0) as [->|Hz]; [reflexivity|].
  destruct (Z.ltb_spec n 0).
  - fold (numeral (- n)). rewrite int_negative by lia. f_equal. lia.
  - fold (numeral n). apply int_numeral. lia.
Qed.

(** [str(n)] holds no colon. *)
Lemma break_digits s rest :
  digits s ->
  Str.break (Str.is_char ":") (s ++ String ":" rest) = (s, String ":" rest).
Proof.
  induction s as [|ch s IH]; append; cbn [Str.break digits].
  - reflexivity.
  - intros [Hch Hs]. rewrite (IH Hs).
    apply digit_cases in Hch.
    repeat destruct Hch as [->|Hch]; try subst ch; reflexivity.
Qed.

Lemma break_of_int n rest :
  Str.break (Str.is_char ":") (Str.of_int n ++ String ":" rest)
  = (Str.of_int n, String ":" rest).
Proof.
  unfold Str.of_int.
  destruct (Z.eqb_spec n 0) as [->|Hz]; [reflexivity|].
  destruct (Z.ltb_spec n 0).
  - append. cbn [Str.break]. change (Str.is_char ":" "-") with false.
    cbv beta iota. rewrite break_digits; [reflexivity|].
    apply dec_digits_digits. lia.
  - apply break_digits. apply dec_digits_digits. lia.
Qed.

(** X24.  The line number of a diagnostic, as the server shows it.  The
    server assembles the user's text behind one line of its own, and
    rewrites the text [Line n: message] of every diagnostic to carry
    [n - 1], the line of the user's text; a number that would fall below
    1 is shown as 1.  The message after the number is kept as it is,
    colons included.  This holds for every line number of at most 4300
    digits, the numbers Python converts to and from text. *)
Theorem adjust_line_shifts_line_number (line_num : Z) (message : string) :
  Z.abs line_num < Str.int_limit ->
  exists text,
    error_text line_num message = Some text /\
    error_text (Z.max (line_num - 1) 1) message = Some (_adjust_line text).
Proof.
  intros Hn. pose proof str_facts.int_limit_large as Hlarge.
  assert (Hmax : Z.abs (Z.max (line_num - 1) 1) < Str.int_limit) by lia.
  unfold error_text.
  rewrite (str_facts.str_within _ Hn), (str_facts.str_within _ Hmax).
  eexists. split; [reflexivity|]. f_equal.
  unfold _adjust_line.
  append. cbn [Str.startswith Ascii.eqb Bool.eqb andb negb Str.drop].
  assert (Hnil : forall s, Str.startswith s "" = true) by (now intros []).
  rewrite Hnil. cbn [negb]. unfold Str.split1.
  rewrite break_of_int, (int_of_int _ Hn), (str_facts.str_within _ Hmax).
  reflexivity.
Qed.

Lemma adjust_line_shifts_line_number_witness :
  exists text,
    error_text 3 "Undefined symbol 'X'" = Some text /\
    error_text (Z.max (3 - 1) 1) "Undefined symbol 'X'"
      = Some (_adjust_line text).
Proof.
  apply (adjust_line_shifts_line_number 3 "Undefined symbol 'X'").
  vm_compute. reflexivity.
Defined.

(** *** Decimal literals *)

(** The shape of [str(n)]: digits, after a minus sign for a negative
    number. *)
Lemma of_int_written n :
  exists ch t, digit ch /\ digits t /\
    (Str.of_int n = String ch t \/ Str.of_int n = String "-" (String ch t)).
Proof.
  unfold Str.of_int.
  destruct (Z.eqb_spec n 0) as [->|Hz].
  { exists "0"%char, "". repeat split; auto. }
  destruct (Z.ltb_spec n 0).
  - fold (numeral (- n)).
    destruct (numeral_spec (- n)) as (ch & t & -> & Hch & Ht & _); [lia|].
    exists ch, t. auto.
  - fold (numeral n).
    destruct (numeral_spec n) as (ch & t & -> & Hch & Ht & _); [lia|].
    exists ch, t. auto.
Qed.

Lemma strip_of_int n : Str.strip (Str.of_int n) = Str.of_int n.
Proof.
  destruct (of_int_written n) as (ch & t & Hch & Ht & [-> | ->]);
    unfold Str.strip.
  - now apply (strip_digits _ digit_not_space).
  - now apply (strip_minus _ digit_not_space).
Qed.

Lemma no_base_prefix n (p : ascii) :
  (forall ch, digit ch -> Ascii.eqb p ch = false) ->
  Str.startswith (Str.of_int n) (String "0" (String p "")) = false.
Proof.
  intros Hp.
  destruct (of_int_written n) as (ch & t & Hch & Ht & [-> | ->]).
  - cbn [Str.startswith]. destruct t as [|x t]; cbn [Str.startswith].
    + now rewrite andb_false_r.
    + destruct Ht as [Hx _]. rewrite (Hp x Hx). now rewrite andb_false_r.
  - reflexivity.
Qed.

Lemma not_a_digit (p : ascii) :
  Str.between 0x30 0x39 p = false ->
  forall ch, digit ch -> Ascii.eqb p ch = false.
Proof.
  intros Hp ch Hch. apply Ascii.eqb_neq. intros ->.
  unfold digit in Hch. congruence.
Qed.

(** X25.  Decimal literals.  The text that Python writes for an integer
    [n] of at most 4300 digits (the integers it writes at all) is read by
    [parse_number] as [n], negative numbers included, when no symbol has
    that text as its name. *)
Theorem decimal_literal_value (n : Z) (symbols : option (gmap string Z)) :
  Z.abs n < Str.int_limit ->
  (forall d, symbols = Some d -> d !! Str.of_int n = None) ->
  assembler.parse_number (Str.of_int n) symbols = Py.Return (Some n).
Proof.
  intros Hn Hsym. unfold assembler.parse_number. cbv zeta.
  rewrite strip_of_int.
  assert (Hlook : match symbols with
                  | Some d => d !! Str.of_int n
                  | None => None
                  end = None).
  { destruct symbols as [d|]; [now apply Hsym|reflexivity]. }
  rewrite Hlook.
  rewrite !no_base_prefix by (now apply not_a_digit).
  cbn [orb]. unfold assembler.int. now rewrite int_of_int.
Qed.

Lemma decimal_literal_value_witness :
  assembler.parse_number (Str.of_int (-42)) (Some {["X" := 1]})
  = Py.Return (Some (-42)).
Proof.
  apply (decimal_literal_value (-42) (Some {["X" := 1]})).
  - vm_compute. reflexivity.
  - intros d [= <-]. reflexivity.
Defined.

End number_facts.
